(** * koneksi backup/restore: content transform, change gate, workers,
      network adapter and restore, embedded from the Go sources.

    Bytes are integers in [0, 256); a byte string is a [list Z].  Go's
    [byte(...)] conversion and [uint8] wrap-around are written [_ mod 256].
    Files are their contents, errors are explicit values, and every I/O
    call that the sources make (reads, writes, HTTP round trips, sleeps)
    is a step on an explicit state. *)

From stdpp Require Import gmap strings list fin_maps.
From Stdlib Require Import ZArith Lia.

Local Open Scope Z_scope.

(** ** Byte strings *)

Definition is_byte (b : Z) : Prop := 0 <= b < 256.

Definition bytes (l : list Z) : Prop := Forall is_byte l.

(** Big-endian value of a byte string. *)
Definition be_value (l : list Z) : Z :=
  fold_left (fun acc b => acc * 256 + b) l 0.

(** [io.ReadFull]: outcome of filling a buffer from a reader. *)
Inductive io_status := io_ok | io_EOF | io_ErrUnexpectedEOF.

(** [io.ReadFull(src, buf)] with [len(buf) = n]: the bytes read, the rest
    of the reader and the status.  Nothing read and nothing wanted is
    success; nothing read is [io.EOF]; a short read is
    [io.ErrUnexpectedEOF]. *)
Definition ReadFull (n : nat) (src : list Z) : list Z * list Z * io_status :=
  if (n <=? length src)%nat then (take n src, drop n src, io_ok)
  else match src with
       | [] => ([], [], io_EOF)
       | _ => (src, [], io_ErrUnexpectedEOF)
       end.

(** ** pkg/encryption/encryption.go *)

Module Encryption.

Definition SaltSize : nat := 32.
Definition NonceSize : nat := 12.
Definition KeySize : nat := 32.
Definition IterationCount : Z := 100000.

(** The read buffer of the chunk loop, [chunkSize := 4096]. *)
Definition chunkSize : nat := 4096.

(** [incrementNonce]: the loop [for i := len(nonce)-1; i >= 0; i--], with
    [k = i + 1] indices still to visit.  [nonce[i]++] wraps at 256; the
    loop stops at the first byte that did not wrap to zero. *)
Fixpoint incrementNonce_from (k : nat) (nonce : list Z) : list Z :=
  match k with
  | O => nonce
  | S i =>
      match nonce !! i with
      | None => nonce
      | Some b =>
          let b' := (b + 1) mod 256 in
          let nonce' := <[i := b']> nonce in
          if b' =? 0 then incrementNonce_from i nonce' else nonce'
      end
  end.

Definition incrementNonce (nonce : list Z) : list Z :=
  incrementNonce_from (length nonce) nonce.

(** The nonce in force when the chunk loop reaches chunk [i]: the base
    after [i] calls of [incrementNonce]. *)
Definition nonce_at (base : list Z) (i : nat) : list Z :=
  Nat.iter i incrementNonce base.

(** The four length bytes written before each chunk:
    [byte(len >> 24), byte(len >> 16), byte(len >> 8), byte(len)]. *)
Definition chunkSizeBytes (len : Z) : list Z :=
  [ Z.shiftr len 24 mod 256; Z.shiftr len 16 mod 256;
    Z.shiftr len 8 mod 256; len mod 256 ].

(** [int(b[0])<<24 | int(b[1])<<16 | int(b[2])<<8 | int(b[3])]. *)
Definition chunkSizeOf (b : list Z) : Z :=
  match b with
  | [b0; b1; b2; b3] =>
      Z.lor (Z.lor (Z.lor (Z.shiftl b0 24) (Z.shiftl b1 16)) (Z.shiftl b2 8)) b3
  | _ => 0
  end.

(** The error returns of [EncryptFile] and [DecryptFile], one per
    [fmt.Errorf] the model can reach. *)
Inductive error :=
  | ErrGenerateSalt
  | ErrGenerateNonce
  | ErrCreateCipher
  | ErrReadSalt
  | ErrReadNonce
  | ErrReadChunkSize
  | ErrReadEncryptedChunk
  | ErrDecryptChunk
  | ErrLoopBudget.

(** [aes.NewCipher(key)]: only 16, 24 and 32 byte keys are accepted. *)
Definition NewCipher (key : list Z) : bool :=
  let n := length key in
  (n =? 16)%nat || (n =? 24)%nat || (n =? 32)%nat.

Section Cipher.

(** The cryptographic library, taken as given:
    [pbkdf2.Key([]byte(password), salt, IterationCount, KeySize, sha256.New)],
    [gcm.Seal(nil, nonce, plaintext, nil)] and
    [gcm.Open(nil, nonce, ciphertext, nil)]. *)
Variable pbkdf2 : string -> list Z -> list Z.
Variable Seal : list Z -> list Z -> list Z -> list Z.
Variable Open : list Z -> list Z -> list Z -> option (list Z).

(** One [gcm.Seal] call of the chunk loop, kept as a record of the run. *)
Record sealed := { seal_nonce : list Z; seal_plain : list Z }.

(** The chunk loop of [EncryptFile].  [rest] is the unread part of the
    input file; [inputFile.Read(buffer)] hands out the next
    [chunkSize] bytes (fewer at the end, none at end of file).  The
    result is what the loop wrote to the output file and the [Seal]
    calls it made, in order.  [fuel] bounds the iterations. *)
Fixpoint encrypt_loop (fuel : nat) (key nonce rest : list Z)
  : option (list Z * list sealed) :=
  match fuel with
  | O => None
  | S fuel' =>
      let buffer := take chunkSize rest in
      if (length buffer =? 0)%nat then Some ([], [])
      else
        let encrypted := Seal key nonce buffer in
        match encrypt_loop fuel' key (incrementNonce nonce) (drop chunkSize rest) with
        | None => None
        | Some (out, log) =>
            Some (chunkSizeBytes (Z.of_nat (length encrypted)) ++ encrypted ++ out,
                  {| seal_nonce := nonce; seal_plain := buffer |} :: log)
        end
  end.

(** [Encryptor.EncryptFile] on the contents of the input file.  [rand]
    is the stream behind [rand.Reader].  Returns the contents of the
    output file, the [Seal] calls made and the error, if any. *)
Definition EncryptFile (password : string) (rand input : list Z)
  : list Z * list sealed * option error :=
  let '(salt, rand1, st) := ReadFull SaltSize rand in
  match st with
  | io_ok =>
      let key := pbkdf2 password salt in
      if negb (NewCipher key) then ([], [], Some ErrCreateCipher)
      else
        let '(nonce, _, st') := ReadFull NonceSize rand1 in
        match st' with
        | io_ok =>
            match encrypt_loop (S (length input)) key nonce input with
            | Some (out, log) => (salt ++ nonce ++ out, log, None)
            | None => (salt ++ nonce, [], Some ErrLoopBudget)
            end
        | _ => ([], [], Some ErrGenerateNonce)
        end
  | _ => ([], [], Some ErrGenerateSalt)
  end.

(** The chunk loop of [DecryptFile].  [written] is what has been
    written to the output file so far; it is returned with the error
    when the loop fails, as the file keeps it. *)
Fixpoint decrypt_loop (fuel : nat) (key nonce rest written : list Z)
  : list Z * option error :=
  match fuel with
  | O => (written, Some ErrLoopBudget)
  | S fuel' =>
      let '(szb, rest1, st) := ReadFull 4 rest in
      match st with
      | io_EOF => (written, None)
      | io_ErrUnexpectedEOF => (written, Some ErrReadChunkSize)
      | io_ok =>
          let size := chunkSizeOf szb in
          let '(encryptedChunk, rest2, st') := ReadFull (Z.to_nat size) rest1 in
          match st' with
          | io_ok =>
              match Open key nonce encryptedChunk with
              | None => (written, Some ErrDecryptChunk)
              | Some decrypted =>
                  decrypt_loop fuel' key (incrementNonce nonce) rest2
                               (written ++ decrypted)
              end
          | _ => (written, Some ErrReadEncryptedChunk)
          end
      end
  end.

(** [Encryptor.DecryptFile] on the contents of the encrypted file:
    the contents of the output file and the error, if any. *)
Definition DecryptFile (password : string) (input : list Z)
  : list Z * option error :=
  let '(salt, rest, st) := ReadFull SaltSize input in
  match st with
  | io_ok =>
      let key := pbkdf2 password salt in
      if negb (NewCipher key) then ([], Some ErrCreateCipher)
      else
        let '(nonce, rest', st') := ReadFull NonceSize rest in
        match st' with
        | io_ok => decrypt_loop (S (length input)) key nonce rest' []
        | _ => ([], Some ErrReadNonce)
        end
  | _ => ([], Some ErrReadSalt)
  end.

(** What one [Seal] call contributes to the container: the four length
    bytes, then the ciphertext. *)
Definition frame (key : list Z) (s : sealed) : list Z :=
  let encrypted := Seal key (seal_nonce s) (seal_plain s) in
  chunkSizeBytes (Z.of_nat (length encrypted)) ++ encrypted.

(** Offset [k] of a container is a frame boundary: it lies just after
    the salt, the nonce base and the first [j] frames, for some [j]. *)
Definition frame_boundary (key : list Z) (log : list sealed) (k : nat) : Prop :=
  exists j : nat,
    (j <= length log)%nat /\
    k = (SaltSize + NonceSize + length (concat (map (frame key) (take j log))))%nat.

End Cipher.

(** [GetEncryptedFileName]. *)
Definition GetEncryptedFileName (originalPath : string) : string :=
  originalPath +:+ ".enc".

(** [GetDecryptedFileName]: cut a final [.enc] off a name longer than
    four bytes, append [.dec] to any other. *)
Definition GetDecryptedFileName (encryptedPath : string) : string :=
  let n := String.length encryptedPath in
  if (4 <? n)%nat && String.eqb (String.substring (n - 4) 4 encryptedPath) ".enc"
  then String.substring 0 (n - 4) encryptedPath
  else encryptedPath +:+ ".dec".

(** The number of chunks [EncryptFile] cuts an input of [n] bytes into. *)
Definition chunks_of (n : nat) : nat := (n + (chunkSize - 1)) / chunkSize.

(** The [Seal] calls [log] follow the loop's nonce discipline from
    [nonce] on, each on a buffer of at most [chunkSize] bytes. *)
Fixpoint scheduled (nonce : list Z) (log : list sealed) : Prop :=
  match log with
  | [] => True
  | s :: log' =>
      seal_nonce s = nonce /\ (length (seal_plain s) <= chunkSize)%nat /\
      scheduled (incrementNonce nonce) log'
  end.

End Encryption.

(** A small executable stand-in for the cryptographic library, used to run
    the model on concrete inputs: the key remembers the password, the tag
    remembers key and nonce. *)
Module Reference.

Definition pbkdf2 (password : string) (salt : list Z) : list Z :=
  Z.pos (encode password) :: take 31 (salt ++ replicate 31 0).




Definition tag (key nonce : list Z) : list Z :=
  Z.pos (encode (key, nonce)) :: replicate 15 0.

Definition Seal (key nonce plaintext : list Z) : list Z :=
  plaintext ++ tag key nonce.

Definition Open (key nonce ciphertext : list Z) : option (list Z) :=
  let n := (length ciphertext - 16)%nat in
  if (length ciphertext <? 16)%nat then None
  else if bool_decide (drop n ciphertext = tag key nonce)
       then Some (take n ciphertext) else None.

End Reference.

(** ** pkg/compression/compressor.go *)

Module Compression.

(** Levels of [compress/gzip] and [compress/zlib] (both re-export
    [compress/flate]'s). *)
Definition HuffmanOnly : Z := -2.
Definition DefaultCompression : Z := -1.
Definition BestCompression : Z := 9.

Inductive error :=
  | ErrUnsupportedFormat
  | ErrCreateWriter
  | ErrCreateReader
  | ErrReadData.

(** What the library's reader makes of a byte string: the header is
    rejected by [NewReader], the body by [io.ReadAll], or all is well. *)
Inductive decoded := Decoded (data : list Z) | BadHeader | BadData.

(** The three implementations of the [Compressor] interface. *)
Inductive Compressor :=
  | GzipCompressor (level : Z)
  | ZlibCompressor (level : Z)
  | NoOpCompressor.

(** [NewCompressor]: a level outside
    [DefaultCompression .. BestCompression] is replaced by the default. *)
Definition NewCompressor (format : string) (level : Z) : Compressor + error :=
  let clamp l :=
    if (l <? DefaultCompression) || (BestCompression <? l)
    then DefaultCompression else l in
  if String.eqb format "gzip" then inl (GzipCompressor (clamp level))
  else if String.eqb format "zlib" then inl (ZlibCompressor (clamp level))
  else if String.eqb format "none" || String.eqb format "" then inl NoOpCompressor
  else inr ErrUnsupportedFormat.

(** [gzip.NewWriterLevel] and [zlib.NewWriterLevel] reject levels outside
    [HuffmanOnly .. BestCompression]. *)
Definition valid_level (level : Z) : bool :=
  (HuffmanOnly <=? level) && (level <=? BestCompression).

(** A compressor is usable when its writer accepts its level. *)
Definition usable (c : Compressor) : Prop :=
  match c with
  | GzipCompressor level | ZlibCompressor level => valid_level level = true
  | NoOpCompressor => True
  end.

Section Codecs.

(** The stream codecs of the standard library, taken as given: what a
    writer at [level] leaves in the buffer once closed, and what a
    reader makes of a buffer. *)
Variable gzip_write : Z -> list Z -> list Z.
Variable gzip_read : list Z -> decoded.
Variable zlib_write : Z -> list Z -> list Z.
Variable zlib_read : list Z -> decoded.

Definition Compress (c : Compressor) (data : list Z) : list Z + error :=
  match c with
  | GzipCompressor level =>
      if valid_level level then inl (gzip_write level data) else inr ErrCreateWriter
  | ZlibCompressor level =>
      if valid_level level then inl (zlib_write level data) else inr ErrCreateWriter
  | NoOpCompressor => inl data
  end.

Definition read_result (d : decoded) : list Z + error :=
  match d with
  | Decoded data => inl data
  | BadHeader => inr ErrCreateReader
  | BadData => inr ErrReadData
  end.

Definition Decompress (c : Compressor) (data : list Z) : list Z + error :=
  match c with
  | GzipCompressor _ => read_result (gzip_read data)
  | ZlibCompressor _ => read_result (zlib_read data)
  | NoOpCompressor => inl data
  end.

Definition Extension (c : Compressor) : string :=
  match c with
  | GzipCompressor _ => ".gz"
  | ZlibCompressor _ => ".zlib"
  | NoOpCompressor => ""
  end.

(** [CompressFile] and [DecompressFile]: [io.ReadAll] of an in-memory
    reader, then the compressor. *)
Definition CompressFile (reader : list Z) (c : Compressor) : list Z + error :=
  Compress c reader.

Definition DecompressFile (reader : list Z) (c : Compressor) : list Z + error :=
  Decompress c reader.

End Codecs.

End Compression.

(** ** The content-transform pipeline *)

Module Transform.

(** The [backup.compression] and [backup.encryption] blocks of the
    configuration (internal/config/config.go). *)
Record Config := {
  compression_enabled : bool;
  compression_format : string;
  compression_level : Z;
  encryption_enabled : bool;
  encryption_password : string
}.

Inductive error :=
  | CompressionError (e : Compression.error)
  | EncryptionError (e : Encryption.error).

Section Pipeline.

Variable pbkdf2 : string -> list Z -> list Z.
Variable Seal : list Z -> list Z -> list Z -> list Z.
Variable Open : list Z -> list Z -> list Z -> option (list Z).
Variable gzip_write : Z -> list Z -> list Z.
Variable gzip_read : list Z -> Compression.decoded.
Variable zlib_write : Z -> list Z -> list Z.
Variable zlib_read : list Z -> Compression.decoded.

(** The compressor a configuration selects, as [NewService] does:
    [NewCompressor(format, level)] when compression is enabled,
    [NewCompressor("none", 0)] otherwise. *)
Definition compressor_of (cfg : Config) : Compression.Compressor + Compression.error :=
  if compression_enabled cfg
  then Compression.NewCompressor (compression_format cfg) (compression_level cfg)
  else Compression.NewCompressor "none" 0.

(** Modelled from the spec: the repository has no function that chains
    the two stages ([Service.processBackup] only compresses, and nothing
    calls the encryption package).  Section 4.2 and 4.3: "run Content
    Transform Pipeline (compress then encrypt, per configuration)", with
    contract [encode(raw_stream, config) -> transformed_bytes].  The
    stages themselves are the repository's [CompressFile] and
    [EncryptFile]. *)
Definition encode (cfg : Config) (rand raw : list Z) : list Z + error :=
  match compressor_of cfg with
  | inr e => inr (CompressionError e)
  | inl c =>
      match Compression.CompressFile gzip_write zlib_write raw c with
      | inr e => inr (CompressionError e)
      | inl compressed =>
          if encryption_enabled cfg then
            match Encryption.EncryptFile pbkdf2 Seal (encryption_password cfg)
                                         rand compressed with
            | (out, _, None) => inl out
            | (_, _, Some e) => inr (EncryptionError e)
            end
          else inl compressed
      end
  end.

(** Modelled from the spec: the inverse chain, [decode(transformed_bytes,
    config) -> raw_stream]: decrypt, then decompress, each when the
    configuration enables it.  The stages are the repository's
    [DecryptFile] and [DecompressFile]. *)
Definition decode (cfg : Config) (transformed : list Z) : list Z + error :=
  match compressor_of cfg with
  | inr e => inr (CompressionError e)
  | inl c =>
      let decrypted :=
        if encryption_enabled cfg then
          match Encryption.DecryptFile pbkdf2 Open (encryption_password cfg)
                                       transformed with
          | (out, None) => inl out
          | (_, Some e) => inr (EncryptionError e)
          end
        else inl transformed in
      match decrypted with
      | inr e => inr e
      | inl compressed =>
          match Compression.DecompressFile gzip_read zlib_read compressed c with
          | inr e => inr (CompressionError e)
          | inl raw => inl raw
          end
      end
  end.

End Pipeline.

End Transform.

(** Stand-ins for the stream codecs, for running the model: a two-byte
    magic number and a level byte in front of the stored data. *)
Module ReferenceCodec.

Definition write (magic : list Z) (level : Z) (data : list Z) : list Z :=
  magic ++ [level mod 256] ++ data.

Definition read (magic : list Z) (data : list Z) : Compression.decoded :=
  if bool_decide (take 2 data = magic) then
    match drop 2 data with
    | _ :: body => Compression.Decoded body
    | [] => Compression.BadData
    end
  else Compression.BadHeader.

Definition gzip_write := write [31; 139].
Definition gzip_read := read [31; 139].
Definition zlib_write := write [120; 156].
Definition zlib_read := read [120; 156].

End ReferenceCodec.

(** Concrete runs: a random source whose nonce base is all ones, so that
    the second nonce wraps around to zero; a 4097-byte file, one byte
    more than a window; a configuration with both stages on. *)
Module Sample.

Definition rand : list Z := replicate 32 7 ++ replicate 12 255.

Definition file : list Z := replicate 4097 65.

Definition config : Transform.Config :=
  {| Transform.compression_enabled := true;
     Transform.compression_format := "gzip";
     Transform.compression_level := 6;
     Transform.encryption_enabled := true;
     Transform.encryption_password := "p1" |}.

Definition container : list Z :=
  fst (fst (Encryption.EncryptFile Reference.pbkdf2 Reference.Seal "p1" rand file)).

Definition seals : list Encryption.sealed :=
  snd (fst (Encryption.EncryptFile Reference.pbkdf2 Reference.Seal "p1" rand file)).



End Sample.

(** ** internal/api/client.go *)

Module Api.

Record Client := {
  BaseURL : string;
  ClientID : string;
  ClientSecret : string;
  DirectoryID : string;
  retryCount : Z
}.

(** An HTTP request as the client builds it; [req_file] is the form file
    of a multipart upload (file name and data), [req_body] the body a
    request of [doRequest] is created to carry (empty when there is
    none). *)
Record Request := {
  req_method : string;
  req_url : string;
  req_query : string;
  req_content_type : string;
  req_file : option (string * list Z);
  req_body : list Z
}.

(** A request body as [doRequest] receives it, an [io.Reader] over bytes
    held in memory: the bytes not read yet, and how many of them the HTTP
    client takes in the round trip with a given index (the doing of the
    client and the network). *)
Record Reader := { unread : list Z; taken : nat -> nat }.

(** The reader after round trip [n]; a nil body stays nil. *)
Definition read (body : option Reader) (n : nat) : option Reader :=
  match body with
  | Some r => Some {| unread := drop (taken r n) (unread r); taken := taken r |}
  | None => None
  end.

(** What [HttpClient.Do] comes back with: an error (connection refused,
    timeout, ...) or a response. *)
Inductive outcome :=
  | TransportError
  | Response (status : Z) (body : list Z).

(** The network as the client sees it: the outcome of the [n]-th round
    trip (from 0) for a given request. *)
Definition transport : Type := nat -> Request -> outcome.

(** The client's trace: the requests handed to [HttpClient.Do] and the
    seconds passed to [time.Sleep], both in order. *)
Record Net := { sent : list Request; slept : list Z }.

Definition idle : Net := {| sent := []; slept := [] |}.

Inductive last_error :=
  | LastTransport
  | LastServer (status : Z).

Inductive error :=
  | ErrCreateRequest
  | ErrExecuteRequest
  | ErrRequestFailed (attempts : Z) (last : option last_error)
  | ErrStatus (status : Z) (body : list Z)
  | ErrParseResponse.

Record FileUploadResponse := {
  FileID : string;
  FileName : string;
  UploadSize : Z;
  UploadStatus : string
}.

(** The [data] object of the upload response. *)
Record UploadData := {
  data_id : string;
  data_hash : string;
  data_name : string;
  data_size : Z;
  data_status : string
}.

Definition Do (tr : transport) (req : Request) (net : Net) : outcome * Net :=
  (tr (length (sent net)) req, {| sent := sent net ++ [req]; slept := slept net |}).

Definition Sleep (seconds : Z) (net : Net) : Net :=
  {| sent := sent net; slept := slept net ++ [seconds] |}.



(** The sleeps before retries [1 .. k]: [1, 4, 9, ..., k * k] seconds. *)
Definition backoff (k : nat) : list Z :=
  map (fun j => Z.of_nat j * Z.of_nat j) (seq 1 k).

Section Client.

(** The libraries, taken as given: whether [http.NewRequestWithContext]
    accepts a URL, and [json.Unmarshal] on an upload response. *)
Variable url_ok : string -> bool.
Variable parse_upload : list Z -> option UploadData.

(** [filepath.Base]. *)
Variable Base : string -> string.

Variable tr : transport.

(** [parseError]: every branch reports the response's status and body. *)
Definition parseError (status : Z) (body : list Z) : error := ErrStatus status body.

(** [http.NewRequestWithContext(ctx, method, url, body)] with the headers
    [doRequest] sets: the request is created over the reader as it
    stands, so it carries what is still unread of it. *)
Definition NewRequest (method url : string) (body : option Reader) : Request :=
  {| req_method := method; req_url := url; req_query := "";
     req_content_type := "application/json"; req_file := None;
     req_body := match body with
                 | Some r => unread r
                 | None => []
                 end |}.

(** The loop of [doRequest], [for i := 0; i <= c.retryCount; i++], with
    [remaining] iterations to go.  Every iteration builds its request
    anew from the same [body], which the round trip before has read
    from. *)
Fixpoint doRequest_from (remaining : nat) (i : Z) (c : Client) (method url : string)
         (body : option Reader) (lastErr : option last_error) (net : Net)
  : (Z * list Z + error) * Net :=
  match remaining with
  | O => (inr (ErrRequestFailed (retryCount c + 1) lastErr), net)
  | S remaining' =>
      let net1 := if 0 <? i then Sleep (i * i) net else net in
      if negb (url_ok url) then (inr ErrCreateRequest, net1)
      else
        let req := NewRequest method url body in
        let '(o, net2) := Do tr req net1 in
        let body' := read body (length (sent net1)) in
        match o with
        | TransportError =>
            doRequest_from remaining' (i + 1) c method url body'
                           (Some LastTransport) net2
        | Response status rbody =>
            if (400 <=? status) && (status <? 500) then (inl (status, rbody), net2)
            else if 500 <=? status then
              doRequest_from remaining' (i + 1) c method url body'
                             (Some (LastServer status)) net2
            else (inl (status, rbody), net2)
        end
  end.

Definition doRequest (c : Client) (method endpoint : string)
           (body : option Reader) (net : Net)
  : (Z * list Z + error) * Net :=
  doRequest_from (Z.to_nat (retryCount c + 1)) 0 c method (BaseURL c +:+ endpoint)
                 body None net.

(** The reader as the attempt with index [j] finds it, when the first
    attempt is round trip [start] of the network; and the request that
    attempt builds. *)
Fixpoint body_at (body : option Reader) (start j : nat) : option Reader :=
  match j with
  | O => body
  | S j' => read (body_at body start j') (start + j')
  end.

Definition attempt (method url : string) (body : option Reader) (start j : nat)
  : Request :=
  NewRequest method url (body_at body start j).

(** [Client.DownloadFile]: the body of the response, or the error. *)
Definition DownloadFile (c : Client) (fileID : string) (net : Net)
  : (list Z + error) * Net :=
  let endpoint := "/api/clients/v1/files/" +:+ fileID in
  match doRequest c "GET" endpoint None net with
  | (inr e, net1) => (inr e, net1)
  | (inl (status, body), net1) =>
      if negb (status =? 200) then
        if status =? 400 then
          let endpoint2 := "/api/clients/v1/files/" +:+ fileID +:+ "/download" in
          match doRequest c "GET" endpoint2 None net1 with
          | (inr _, net2) => (inr (parseError status body), net2)
          | (inl (status2, body2), net2) =>
              if status2 =? 200 then (inl body2, net2)
              else (inr (parseError status body), net2)
          end
        else (inr (parseError status body), net1)
      else (inl body, net1)
  end.

(** [Client.UploadFile]: one multipart POST, handed to [HttpClient.Do]
    directly. *)
Definition UploadFile (c : Client) (filePath : string)
           (fileData : list Z) (size : Z) (checksum : string) (net : Net)
  : (FileUploadResponse + error) * Net :=
  let endpoint := "/api/clients/v1/files" in
  let url := BaseURL c +:+ endpoint in
  if negb (url_ok url) then (inr ErrCreateRequest, net)
  else
    let req := {| req_method := "POST"; req_url := url;
                  req_query := if String.eqb (DirectoryID c) "" then ""
                               else "directory_id=" +:+ DirectoryID c;
                  req_content_type := "multipart/form-data";
                  req_file := Some (Base filePath, fileData);
                  req_body := [] |} in
    let '(o, net1) := Do tr req net in
    match o with
    | TransportError => (inr ErrExecuteRequest, net1)
    | Response status body =>
        if negb (status =? 200) && negb (status =? 201)
        then (inr (parseError status body), net1)
        else
          match parse_upload body with
          | None => (inr ErrParseResponse, net1)
          | Some d =>
              let fileID := if String.eqb (data_id d) "" then data_hash d
                            else data_id d in
              (inl {| FileID := fileID; FileName := data_name d;
                      UploadSize := data_size d; UploadStatus := data_status d |},
               net1)
          end
    end.

End Client.

End Api.

(** ** The file system and the digest *)

Module OS.

(** What a path names: a regular file with its contents and mode, or a
    directory. *)
Inductive node :=
  | File (content : list Z) (perm : Z)
  | Dir.

(** A file system is a finite map from paths to nodes; a path that is not
    in the map does not exist. *)
Abbreviation FS := (gmap string node).

(** Paths are clean Unix paths, as [filepath.Join] and [filepath.Dir]
    return them: no doubled or trailing separators. *)
Definition separator : Ascii.ascii := Ascii.ascii_of_nat 47.

(** The proper ancestors of a path, the one nearest to the root first:
    its non-empty prefixes that end just before a separator
    ([/data] for [/data/a.txt], [a] and [a/b] for [a/b/c]). *)
Fixpoint ancestors_from (seen rest : string) : list string :=
  match rest with
  | EmptyString => []
  | String ch rest' =>
      (if Ascii.eqb ch separator && negb (String.eqb seen "") then [seen] else [])
      ++ ancestors_from (seen +:+ String ch EmptyString) rest'
  end.

Definition ancestors (path : string) : list string := ancestors_from "" path.

(** [os.Stat]: the node at the path, or the error.  A path one of whose
    ancestors is a regular file is not reported as missing ([ENOENT],
    the one error [os.IsNotExist] answers to) but with [ENOTDIR]. *)
Inductive stat :=
  | StatNode (n : node)
  | ENOENT
  | ENOTDIR.

Definition Stat (fs : FS) (path : string) : stat :=
  match fs !! path with
  | Some n => StatNode n
  | None =>
      if existsb (fun a => match fs !! a with
                           | Some (File _ _) => true
                           | _ => false
                           end) (ancestors path)
      then ENOTDIR else ENOENT
  end.

(** [os.ReadFile], and [os.Open] followed by reading to the end: only a
    regular file can be read. *)
Definition ReadFile (fs : FS) (path : string) : option (list Z) :=
  match fs !! path with
  | Some (File content _) => Some content
  | _ => None
  end.

(** [os.MkdirAll(dir, perm)], with [above] the ancestors of [dir] still
    to visit, the nearest first: nothing to do for a directory, an error
    for a file in the way; otherwise the parent is made first, in the
    same way, and then the directory itself ([os.Mkdir], and the second
    look at the path when that fails).  Errors other than a file in the
    way (permissions, a full or read-only disk) are left out. *)
Fixpoint MkdirAll_from (fs : FS) (dir : string) (above : list string) : option FS :=
  match fs !! dir with
  | Some Dir => Some fs
  | Some (File _ _) => None
  | None =>
      let made := match above with
                  | [] => Some fs
                  | parent :: above' => MkdirAll_from fs parent above'
                  end in
      match made with
      | None => None
      | Some fs1 =>
          match fs1 !! dir with
          | None => Some (<[dir := Dir]> fs1)
          | Some Dir => Some fs1
          | Some (File _ _) => None
          end
      end
  end.

Definition MkdirAll (fs : FS) (dir : string) : option FS :=
  MkdirAll_from fs dir (rev (ancestors dir)).

(** Whether a mode has a write bit at all ([0222]): a file without one
    cannot be opened for writing by an unprivileged process. *)
Definition writable (perm : Z) : bool := negb (Z.land perm 146 =? 0).

(** [os.WriteFile(path, data, perm)]: the directory [parent] of the path
    must exist; an existing file must be writable, is truncated and
    keeps its mode, a new one gets [perm]; a directory cannot be written.
    The mode noted for a new file is the one requested: the umask of the
    process, which can only clear bits of it, is left out, and so is
    whose write bit applies to the process. *)
Definition WriteFile (fs : FS) (parent path : string) (data : list Z) (perm : Z)
  : option FS :=
  match fs !! parent with
  | Some Dir =>
      match fs !! path with
      | Some Dir => None
      | Some (File _ perm') =>
          if writable perm' then Some (<[path := File data perm']> fs) else None
      | None => Some (<[path := File data perm]> fs)
      end
  | _ => None
  end.

End OS.

(** ** The backup service *)

Module Backup.

Import OS.

(** [monitor.FileChange]. *)
Record FileChange := {
  Path : string;
  Operation : string;
  Timestamp : Z;
  Size : Z;
  IsDir : bool
}.

Record BackupTask := {
  task_FilePath : string;
  task_Operation : string;
  task_Timestamp : Z;
  task_Size : Z;
  task_IsDir : bool
}.

Record FileBackupState := {
  LastBackup : Z;
  LastChecksum : string;
  BackupCount : Z;
  Status : string
}.

Inductive error :=
  | ErrCalculateChecksum
  | ErrOpenFile
  | ErrCompressFile (e : Compression.error)
  | ErrUploadFile (e : Api.error).

(** [backup.BackupResult] and [report.BackupResult], which
    [convertToReportResult] copies field by field. *)
Record BackupResult := {
  result_FilePath : string;
  result_FileID : string;
  result_Operation : string;
  result_Success : bool;
  result_Error : option error;
  result_StartTime : Z;
  result_EndTime : Z;
  result_Size : Z;
  result_CompressedSize : Z;
  result_Checksum : string;
  result_Compressed : bool
}.

(** pkg/database: the two tables. *)
Record BackupRecord := {
  record_FilePath : string;
  record_FileID : string;
  record_Checksum : string;
  record_OriginalSize : Z;
  record_CompressedSize : Z;
  record_IsCompressed : bool;
  record_BackupTime : Z;
  record_Status : string;
  record_Operation : string
}.

Record DB := {
  file_states : gmap string FileBackupState;
  backup_records : list BackupRecord
}.

(** [INSERT OR REPLACE INTO file_states]. *)
Definition UpdateFileState (db : DB) (path : string) (st : FileBackupState) : DB :=
  {| file_states := <[path := st]> (file_states db);
     backup_records := backup_records db |}.

(** [INSERT INTO backup_records], which has [UNIQUE(file_path, checksum)]:
    a second record for the same pair is refused. *)
Definition InsertBackupRecord (db : DB) (r : BackupRecord) : option DB :=
  if existsb (fun r' => String.eqb (record_FilePath r') (record_FilePath r)
                        && String.eqb (record_Checksum r') (record_Checksum r))
             (backup_records db)
  then None
  else Some {| file_states := file_states db;
               backup_records := backup_records db ++ [r] |}.

(** The reporter, as far as the service uses it: [AddResult] appends to
    the results and counts. *)
Record Reporter := {
  results : list BackupResult;
  TotalFiles : Z;
  Successful : Z;
  Failed : Z;
  TotalSize : Z
}.

Definition AddResult (r : Reporter) (result : BackupResult) : Reporter :=
  {| results := results r ++ [result];
     TotalFiles := TotalFiles r + 1;
     Successful := if result_Success result then Successful r + 1 else Successful r;
     Failed := if result_Success result then Failed r else Failed r + 1;
     TotalSize := if result_Success result then TotalSize r + result_Size result
                  else TotalSize r |}.

Record Service := {
  client : Api.Client;
  reporter : Reporter;
  maxFileSize : Z;
  backupQueue : list BackupTask;
  backupState : gmap string FileBackupState;
  compressor : Compression.Compressor;
  compression : bool;
  db : option DB
}.

(** Capacity of [backupQueue], [make(chan BackupTask, 1000)]. *)
Definition queueCapacity : nat := 1000.

Definition with_queue (s : Service) (q : list BackupTask) : Service :=
  {| client := client s; reporter := reporter s; maxFileSize := maxFileSize s;
     backupQueue := q; backupState := backupState s; compressor := compressor s;
     compression := compression s; db := db s |}.

Definition with_reporter (s : Service) (r : Reporter) : Service :=
  {| client := client s; reporter := r; maxFileSize := maxFileSize s;
     backupQueue := backupQueue s; backupState := backupState s;
     compressor := compressor s; compression := compression s; db := db s |}.

Definition with_db (s : Service) (d : option DB) : Service :=
  {| client := client s; reporter := reporter s; maxFileSize := maxFileSize s;
     backupQueue := backupQueue s; backupState := backupState s;
     compressor := compressor s; compression := compression s; db := d |}.

Definition with_state (s : Service) (m : gmap string FileBackupState)
           (d : option DB) : Service :=
  {| client := client s; reporter := reporter s; maxFileSize := maxFileSize s;
     backupQueue := backupQueue s; backupState := m;
     compressor := compressor s; compression := compression s; db := d |}.

(** [Service.needsBackup]: only the error [os.IsNotExist] answers to
    ends the test; after any other outcome of [os.Stat] the state is
    looked at. *)
Definition needsBackup (s : Service) (fs : FS) (filePath operation : string) : bool :=
  if String.eqb operation "create" || String.eqb operation "modify" then true
  else
    match Stat fs filePath with
    | ENOENT => false
    | _ =>
        match backupState s !! filePath with
        | None => true
        | Some state => String.eqb (Status state) "failed"
        end
    end.

(** [Service.ProcessChange]: the gates, then a non-blocking send on the
    queue. *)
Definition ProcessChange (s : Service) (fs : FS) (change : FileChange) : Service :=
  if IsDir change then s
  else if maxFileSize s <? Size change then s
  else if negb (needsBackup s fs (Path change) (Operation change)) then s
  else
    let task := {| task_FilePath := Path change;
                   task_Operation := Operation change;
                   task_Timestamp := Timestamp change;
                   task_Size := Size change;
                   task_IsDir := IsDir change |} in
    if (length (backupQueue s) <? queueCapacity)%nat
    then with_queue s (backupQueue s ++ [task])
    else s.

(** [Service.updateBackupState], at time [now]. *)
Definition updateBackupState (s : Service) (now : Z)
           (filePath status checksum : string) : Service :=
  let state := match backupState s !! filePath with
               | Some state => state
               | None => {| LastBackup := 0; LastChecksum := "";
                            BackupCount := 0; Status := "" |}
               end in
  let state' :=
    {| LastBackup := now;
       LastChecksum := if negb (String.eqb checksum "") then checksum
                       else LastChecksum state;
       BackupCount := if String.eqb status "success" then BackupCount state + 1
                      else BackupCount state;
       Status := status |} in
  with_state s (<[filePath := state']> (backupState s))
             (match db s with
              | Some d => Some (UpdateFileState d filePath state')
              | None => None
              end).

(** Instants are seconds; [time.Hour]. *)
Definition Hour : Z := 3600.

(** [Service.cleanupDeletedFiles] at time [now]: the state of a path is
    dropped when its status is "deleted" and its last backup is more than
    24 hours old.  The database is not touched. *)
Definition cleanupDeletedFiles (s : Service) (now : Z) : Service :=
  with_state s
    (filter (fun kv : string * FileBackupState =>
               ~ (Status kv.2 = "deleted" /\ 24 * Hour < now - LastBackup kv.2))
            (backupState s))
    (db s).

(** The in-memory statistics of [Service.GetBackupStats]. *)
Record Stats := {
  total_files : Z;
  successful_files : Z;
  failed_files : Z;
  deleted_files : Z
}.

(** The [switch state.Status] of the statistics loop. *)
Definition tally (state : FileBackupState) (stats : Stats) : Stats :=
  if String.eqb (Status state) "success" then
    {| total_files := total_files stats;
       successful_files := successful_files stats + 1;
       failed_files := failed_files stats;
       deleted_files := deleted_files stats |}
  else if String.eqb (Status state) "failed" then
    {| total_files := total_files stats;
       successful_files := successful_files stats;
       failed_files := failed_files stats + 1;
       deleted_files := deleted_files stats |}
  else if String.eqb (Status state) "deleted" then
    {| total_files := total_files stats;
       successful_files := successful_files stats;
       failed_files := failed_files stats;
       deleted_files := deleted_files stats + 1 |}
  else stats.

(** [Service.GetBackupStats] for a service without a database: the
    fallback that walks [backupState]. *)
Definition memoryStats (s : Service) : Stats :=
  map_fold (fun _ state stats => tally state stats)
           {| total_files := Z.of_nat (size (backupState s));
              successful_files := 0; failed_files := 0; deleted_files := 0 |}
           (backupState s).

Section Worker.

(** The libraries: the hex SHA-256 digest, the stream codecs, and what
    the network adapter needs. *)
Variable sha256_hex : list Z -> string.
Variable gzip_write : Z -> list Z -> list Z.
Variable zlib_write : Z -> list Z -> list Z.
Variable url_ok : string -> bool.
Variable parse_upload : list Z -> option Api.UploadData.
Variable Base : string -> string.
Variable tr : Api.transport.

(** [Service.calculateChecksum]. *)
Definition calculateChecksum (fs : FS) (filePath : string) : option string :=
  match ReadFile fs filePath with
  | Some content => Some (sha256_hex content)
  | None => None
  end.

Definition fail (result : BackupResult) (e : error) (now : Z) : BackupResult :=
  {| result_FilePath := result_FilePath result;
     result_FileID := result_FileID result;
     result_Operation := result_Operation result;
     result_Success := result_Success result;
     result_Error := Some e;
     result_StartTime := result_StartTime result;
     result_EndTime := now;
     result_Size := result_Size result;
     result_CompressedSize := result_CompressedSize result;
     result_Checksum := result_Checksum result;
     result_Compressed := result_Compressed result |}.

Definition record (s : Service) (result : BackupResult) : Service :=
  with_reporter s (AddResult (reporter s) result).

(** The "Compress if enabled" block of [processBackup]: what is handed
    to the upload ([uploadData], [uploadSize]) and the compressed size
    noted in the result. *)
Definition prepare (s : Service) (task : BackupTask) (content : list Z)
  : list Z * Z * Z + Compression.error :=
  if compression s then
    match Compression.CompressFile gzip_write zlib_write content (compressor s) with
    | inr e => inr e
    | inl compressedData =>
        let uploadSize := Z.of_nat (length compressedData) in
        inl (compressedData, uploadSize, uploadSize)
    end
  else inl (content, task_Size task, 0).

(** [Service.processBackup], run at time [now] against the file system
    [fs]: the service afterwards and the network trace. *)
Definition processBackup (s : Service) (fs : FS) (net : Api.Net) (now : Z)
           (task : BackupTask) : Service * Api.Net :=
  let result := {| result_FilePath := task_FilePath task;
                   result_FileID := "";
                   result_Operation := task_Operation task;
                   result_Success := false;
                   result_Error := None;
                   result_StartTime := now;
                   result_EndTime := 0;
                   result_Size := task_Size task;
                   result_CompressedSize := 0;
                   result_Checksum := "";
                   result_Compressed := compression s |} in
  if String.eqb (task_Operation task) "delete" then
    let result := {| result_FilePath := result_FilePath result;
                     result_FileID := result_FileID result;
                     result_Operation := result_Operation result;
                     result_Success := true;
                     result_Error := result_Error result;
                     result_StartTime := result_StartTime result;
                     result_EndTime := now;
                     result_Size := result_Size result;
                     result_CompressedSize := result_CompressedSize result;
                     result_Checksum := result_Checksum result;
                     result_Compressed := result_Compressed result |} in
    (record (updateBackupState s now (task_FilePath task) "deleted" "") result, net)
  else
    match calculateChecksum fs (task_FilePath task) with
    | None => (record s (fail result ErrCalculateChecksum now), net)
    | Some checksum =>
        let result := {| result_FilePath := result_FilePath result;
                         result_FileID := result_FileID result;
                         result_Operation := result_Operation result;
                         result_Success := result_Success result;
                         result_Error := result_Error result;
                         result_StartTime := result_StartTime result;
                         result_EndTime := result_EndTime result;
                         result_Size := result_Size result;
                         result_CompressedSize := result_CompressedSize result;
                         result_Checksum := checksum;
                         result_Compressed := result_Compressed result |} in
        let unchanged :=
          match backupState s !! task_FilePath task with
          | Some state => String.eqb (LastChecksum state) checksum
          | None => false
          end in
        if unchanged then (s, net)
        else
          match ReadFile fs (task_FilePath task) with
          | None => (record s (fail result ErrOpenFile now), net)
          | Some content =>
              match prepare s task content with
              | inr e => (record s (fail result (ErrCompressFile e) now), net)
              | inl (uploadData, uploadSize, compressedSize) =>
                  let result :=
                    {| result_FilePath := result_FilePath result;
                       result_FileID := result_FileID result;
                       result_Operation := result_Operation result;
                       result_Success := result_Success result;
                       result_Error := result_Error result;
                       result_StartTime := result_StartTime result;
                       result_EndTime := result_EndTime result;
                       result_Size := result_Size result;
                       result_CompressedSize := compressedSize;
                       result_Checksum := result_Checksum result;
                       result_Compressed := result_Compressed result |} in
                  match Api.UploadFile url_ok parse_upload Base tr (client s)
                          (task_FilePath task) uploadData uploadSize checksum net with
                  | (inr e, net') =>
                      let s1 := updateBackupState s now (task_FilePath task)
                                                  "failed" checksum in
                      (record s1 (fail result (ErrUploadFile e) now), net')
                  | (inl uploadResp, net') =>
                      let result :=
                        {| result_FilePath := result_FilePath result;
                           result_FileID := Api.FileID uploadResp;
                           result_Operation := result_Operation result;
                           result_Success := true;
                           result_Error := result_Error result;
                           result_StartTime := result_StartTime result;
                           result_EndTime := now;
                           result_Size := result_Size result;
                           result_CompressedSize := result_CompressedSize result;
                           result_Checksum := result_Checksum result;
                           result_Compressed := result_Compressed result |} in
                      let s1 := updateBackupState s now (task_FilePath task)
                                                  "success" checksum in
                      let s2 := record s1 result in
                      let s3 :=
                        match db s2 with
                        | None => s2
                        | Some d =>
                            let dbRecord :=
                              {| record_FilePath := task_FilePath task;
                                 record_FileID := Api.FileID uploadResp;
                                 record_Checksum := checksum;
                                 record_OriginalSize := task_Size task;
                                 record_CompressedSize := uploadSize;
                                 record_IsCompressed := compression s;
                                 record_BackupTime := now;
                                 record_Status := "success";
                                 record_Operation := task_Operation task |} in
                            match InsertBackupRecord d dbRecord with
                            | Some d' => with_db s2 (Some d')
                            | None => s2
                            end
                        end in
                      (s3, net')
                  end
              end
          end
    end.

(** One turn of [Service.worker]: take the next task off the queue, if
    there is one, and process it. *)
Definition worker (s : Service) (fs : FS) (net : Api.Net) (now : Z)
  : option (Service * Api.Net) :=
  match backupQueue s with
  | [] => None
  | task :: queue => Some (processBackup (with_queue s queue) fs net now task)
  end.

(** The way of one change through the service: [ProcessChange], then a
    worker taking whatever is next on the queue. *)
Definition deliver (s : Service) (fs : FS) (net : Api.Net) (now : Z)
           (change : FileChange) : Service * Api.Net :=
  let s' := ProcessChange s fs change in
  match worker s' fs net now with
  | Some r => r
  | None => (s', net)
  end.

End Worker.

End Backup.

(** ** The restore service *)

Module Restore.

Import OS.

Record FileManifestEntry := {
  FilePath : string;
  FileID : string;
  Size : Z;
  Checksum : string;
  BackupTime : Z;
  Permissions : Z;
  Compressed : bool
}.

Inductive error :=
  | ErrDownloadFile (e : Api.error)
  | ErrMkdirAll
  | ErrWriteFile.

Record RestoreError := {
  error_FilePath : string;
  error_FileID : string;
  error_Error : error;
  error_Time : Z
}.

Record RestoreProgress := {
  TotalFiles : Z;
  RestoredFiles : Z;
  FailedFiles : Z;
  TotalSize : Z;
  RestoredSize : Z;
  StartTime : Z;
  Errors : list RestoreError
}.

Record RestoreService := {
  client : Api.Client;
  concurrent : Z;
  progress : RestoreProgress
}.


Definition with_progress (r : RestoreService) (p : RestoreProgress) : RestoreService :=
  {| client := client r; concurrent := concurrent r; progress := p |}.

(** [RestoreService.updateProgress]. *)
Definition updateProgress (r : RestoreService) (success : bool) (size : Z)
  : RestoreService :=
  let p := progress r in
  with_progress r
    {| TotalFiles := TotalFiles p;
       RestoredFiles := if success then RestoredFiles p + 1 else RestoredFiles p;
       FailedFiles := if success then FailedFiles p else FailedFiles p + 1;
       TotalSize := TotalSize p;
       RestoredSize := if success then RestoredSize p + size else RestoredSize p;
       StartTime := StartTime p;
       Errors := Errors p |}.

(** [RestoreService.recordError], at time [now]. *)
Definition recordError (r : RestoreService) (now : Z) (filePath fileID : string)
           (e : error) : RestoreService :=
  let p := progress r in
  with_progress r
    {| TotalFiles := TotalFiles p;
       RestoredFiles := RestoredFiles p;
       FailedFiles := FailedFiles p;
       TotalSize := TotalSize p;
       RestoredSize := RestoredSize p;
       StartTime := StartTime p;
       Errors := Errors p ++ [{| error_FilePath := filePath; error_FileID := fileID;
                                 error_Error := e; error_Time := now |}] |}.

(** [RestoreService.calculateFileChecksum]: the body is
    [return "", nil], under the comment "This would calculate SHA256
    checksum". *)
Definition calculateFileChecksum (fs : FS) (path : string) : string * option error :=
  ("", None).

(** [RestoreService.fileExists]. *)
Definition fileExists (fs : FS) (path checksum : string) : bool :=
  match fs !! path with
  | None | Some Dir => false
  | Some (File _ _) =>
      let existingChecksum := fst (calculateFileChecksum fs path) in
      String.eqb existingChecksum checksum
  end.

Section Restore.

(** [path/filepath] and what the network adapter needs, taken as
    given. *)
Variable Base : string -> string.
Variable Dirname : string -> string.
Variable Join : string -> string -> string.
Variable url_ok : string -> bool.
Variable parse_upload : list Z -> option Api.UploadData.
Variable tr : Api.transport.

(** [RestoreService.downloadFile]: [client.DownloadFile], then
    [io.ReadAll] of the body. *)
Definition downloadFile (r : RestoreService) (fileID : string) (net : Api.Net)
  : (list Z + error) * Api.Net :=
  match Api.DownloadFile url_ok tr (client r) fileID net with
  | (inr e, net') => (inr (ErrDownloadFile e), net')
  | (inl data, net') => (inl data, net')
  end.

(** [RestoreService.restoreFile], run at time [now]: the service, the
    file system and the network trace afterwards. *)
Definition restoreFile (r : RestoreService) (fs : FS) (net : Api.Net) (now : Z)
           (entry : FileManifestEntry) (targetDir : string)
  : RestoreService * FS * Api.Net :=
  let cleanPath := Base (FilePath entry) in
  let targetPath := Join targetDir cleanPath in
  if fileExists fs targetPath (Checksum entry) then
    (updateProgress r true (Size entry), fs, net)
  else
    match downloadFile r (FileID entry) net with
    | (inr e, net') =>
        (updateProgress (recordError r now (FilePath entry) (FileID entry) e) false 0,
         fs, net')
    | (inl fileData, net') =>
        let targetFileDir := Dirname targetPath in
        match MkdirAll fs targetFileDir with
        | None =>
            (updateProgress
               (recordError r now (FilePath entry) (FileID entry) ErrMkdirAll) false 0,
             fs, net')
        | Some fs1 =>
            match WriteFile fs1 targetFileDir targetPath fileData
                            (Permissions entry) with
            | None =>
                (updateProgress
                   (recordError r now (FilePath entry) (FileID entry) ErrWriteFile)
                   false 0,
                 fs1, net')
            | Some fs2 => (updateProgress r true (Size entry), fs2, net')
            end
        end
    end.

(** [RestoreService.restoreWorker]: one worker taking the entries off the
    queue in order, with a context that is not cancelled. *)
Fixpoint restoreWorker (r : RestoreService) (fs : FS) (net : Api.Net) (now : Z)
         (queue : list FileManifestEntry) (targetDir : string)
  : RestoreService * FS * Api.Net :=
  match queue with
  | [] => (r, fs, net)
  | entry :: queue' =>
      let '(r', fs', net') := restoreFile r fs net now entry targetDir in
      restoreWorker r' fs' net' now queue' targetDir
  end.


End Restore.

(** The backup report as [CreateManifestFromReport] reads it back. *)
Record BackupReport := {
  report_ID : string;
  report_StartTime : Z;
  report_TotalFiles : Z;
  report_Successful : Z;
  report_Results : list Backup.BackupResult
}.

Record RestoreManifest := {
  manifest_Version : string;
  manifest_CreatedAt : Z;
  manifest_BackupID : string;
  manifest_SourcePath : string;
  manifest_Files : list FileManifestEntry
}.

(** The loop "Add successful files to manifest" of
    [CreateManifestFromReport]: [files] is the manifest so far. *)
Fixpoint add_successful (results : list Backup.BackupResult)
         (files : list FileManifestEntry) : list FileManifestEntry :=
  match results with
  | [] => files
  | result :: results' =>
      if Backup.result_Success result
         && negb (String.eqb (Backup.result_FileID result) "")
      then
        add_successful results'
          (files ++ [{| FilePath := Backup.result_FilePath result;
                        FileID := Backup.result_FileID result;
                        Size := Backup.result_Size result;
                        Checksum := Backup.result_Checksum result;
                        BackupTime := Backup.result_EndTime result;
                        Permissions := 0;
                        Compressed := false |}])
      else add_successful results' files
  end.

(** The manifest entry a result stands for, if it stands for one: the
    result of a successful backup that has a remote id. *)
Definition entry_of_result (result : Backup.BackupResult) : option FileManifestEntry :=
  if Backup.result_Success result
     && negb (String.eqb (Backup.result_FileID result) "")
  then Some {| FilePath := Backup.result_FilePath result;
               FileID := Backup.result_FileID result;
               Size := Backup.result_Size result;
               Checksum := Backup.result_Checksum result;
               BackupTime := Backup.result_EndTime result;
               Permissions := 0;
               Compressed := false |}
  else None.

(** [RestoreService.CreateManifestFromReport] on a parsed report, at time
    [now]: the manifest that is written out. *)
Definition CreateManifestFromReport (report : BackupReport) (now : Z)
  : RestoreManifest :=
  {| manifest_Version := "1.0";
     manifest_CreatedAt := now;
     manifest_BackupID := report_ID report;
     manifest_SourcePath := "multiple";
     manifest_Files := add_successful (report_Results report) [] |}.

End Restore.

(** ** internal/monitor/watcher.go *)

Module Monitor.

(** The bits of [fsnotify.Op]. *)
Definition Create : Z := 1.
Definition Write : Z := 2.
Definition Remove : Z := 4.
Definition Rename : Z := 8.
Definition Chmod : Z := 16.

(** [event.Op&flag == flag]. *)
Definition has (op flag : Z) : bool := Z.land op flag =? flag.

(** The [switch] of [Watcher.handleEvent] that names the operation of a
    change; an event with none of the five bits leaves the name empty. *)
Definition operation_of (op : Z) : string :=
  if has op Create then "create"
  else if has op Write then "modify"
  else if has op Remove then "delete"
  else if has op Rename then "rename"
  else if has op Chmod then "chmod"
  else "".

Section Exclude.

(** [filepath.Match(pattern, name)]: whether the name matches, or that
    the pattern is malformed; and [filepath.Base]. *)
Variable Match : string -> string -> option bool.
Variable Base : string -> string.

(** [Watcher.shouldExclude] over the exclude patterns; [filepath.HasPrefix]
    is a plain string prefix test. *)
Fixpoint shouldExclude (excludes : list string) (path : string) : bool :=
  match excludes with
  | [] => false
  | pattern :: excludes' =>
      match Match pattern (Base path) with
      | Some true => true
      | _ => if String.prefix pattern path then true
             else shouldExclude excludes' path
      end
  end.

End Exclude.

End Monitor.

(** Stand-ins for the remaining libraries, for running the model. *)
Module ReferenceOS.

(** A digest that is never empty: a marker, then the data as
    characters. *)
Definition sha256_hex (data : list Z) : string :=
  "h" +:+ String.string_of_list_ascii
            (map (fun b => Ascii.ascii_of_nat (Z.to_nat b)) data).

Definition url_ok (url : string) : bool := negb (String.eqb url "").

(** A non-empty response body is taken to parse, to a file named after
    its length. *)
Definition parse_upload (body : list Z) : option Api.UploadData :=
  match body with
  | [] => None
  | _ => Some {| Api.data_id := "id"; Api.data_hash := "hash";
                 Api.data_name := "name"; Api.data_size := Z.of_nat (length body);
                 Api.data_status := "success" |}
  end.

(** The separator, character 47. *)
Definition is_slash (a : Ascii.ascii) : bool := Ascii.eqb a (Ascii.ascii_of_nat 47).

Fixpoint strip_slashes (l : list Ascii.ascii) : list Ascii.ascii :=
  match l with
  | a :: l' => if is_slash a then strip_slashes l' else l
  | [] => []
  end.

Fixpoint up_to_slash (l : list Ascii.ascii) : list Ascii.ascii :=
  match l with
  | a :: l' => if is_slash a then [] else a :: up_to_slash l'
  | [] => []
  end.

Fixpoint after_slash (l : list Ascii.ascii) : list Ascii.ascii :=
  match l with
  | a :: l' => if is_slash a then l else after_slash l'
  | [] => []
  end.

(** [filepath.Base] on slash-separated paths: the last element, without
    trailing slashes. *)
Definition Base (path : string) : string :=
  if String.eqb path "" then "."
  else
    let l := strip_slashes (rev (String.list_ascii_of_string path)) in
    match up_to_slash l with
    | [] => "/"
    | name => String.string_of_list_ascii (rev name)
    end.

(** [filepath.Dir] on clean slash-separated paths: all but the last
    element. *)
Definition Dirname (path : string) : string :=
  let l := rev (String.list_ascii_of_string path) in
  match after_slash l with
  | [] => "."
  | l' => match strip_slashes l' with
          | [] => "/"
          | d => String.string_of_list_ascii (rev d)
          end
  end.

(** [filepath.Join] of two clean elements. *)
Definition Join (dir name : string) : string :=
  if String.eqb dir "" then name
  else if String.eqb name "" then dir
  else dir +:+ "/" +:+ name.

End ReferenceOS.

(** Concrete services, files and events for running the model. *)
Module Scenario.

Import OS.

Definition api : Api.Client :=
  {| Api.BaseURL := "https://staging.koneksi.co.kr";
     Api.ClientID := "id"; Api.ClientSecret := "secret";
     Api.DirectoryID := ""; Api.retryCount := 3 |}.

Definition no_report : Backup.Reporter :=
  {| Backup.results := []; Backup.TotalFiles := 0; Backup.Successful := 0;
     Backup.Failed := 0; Backup.TotalSize := 0 |}.

(** A fresh service: nothing queued, nothing backed up, compression off,
    an empty database. *)
Definition service : Backup.Service :=
  {| Backup.client := api;
     Backup.reporter := no_report;
     Backup.maxFileSize := 1048576;
     Backup.backupQueue := [];
     Backup.backupState := ∅;
     Backup.compressor := Compression.NoOpCompressor;
     Backup.compression := false;
     Backup.db := Some {| Backup.file_states := ∅; Backup.backup_records := [] |} |}.

(** The same service after a successful backup of [/data/a.txt]. *)
Definition backed_up : Backup.Service :=
  Backup.updateBackupState service 100 "/data/a.txt" "success"
    "2d711642b726b04401627ca9fbac32f5c8530fb1903cc4db02258717921a4881".

(** A disk holding the one-byte file ["x"]. *)
Definition disk : FS := {[ "/data/a.txt" := File [120] 420 ]}.

(** The task queued for a create event on that file. *)
Definition task : Backup.BackupTask :=
  {| Backup.task_FilePath := "/data/a.txt"; Backup.task_Operation := "create";
     Backup.task_Timestamp := 200; Backup.task_Size := 1;
     Backup.task_IsDir := false |}.

Definition event (operation : string) (size : Z) : Backup.FileChange :=
  {| Backup.Path := "/data/a.txt"; Backup.Operation := operation;
     Backup.Timestamp := 200; Backup.Size := size; Backup.IsDir := false |}.

(** Networks: one that answers every request with status 200 and a
    one-byte body, one that answers 503, one that answers 400 first and
    200 afterwards. *)
Definition tr_ok : Api.transport := fun _ _ => Api.Response 200 [120].
Definition tr_503 : Api.transport := fun _ _ => Api.Response 503 [].
Definition tr_400_then_ok : Api.transport :=
  fun n _ => match n with O => Api.Response 400 [] | _ => Api.Response 200 [120] end.

(** A restore service, a manifest entry for the file ["x"] with its true
    SHA-256 digest, and a restore directory that already holds that very
    file. *)
Definition restorer : Restore.RestoreService :=
  {| Restore.client := api; Restore.concurrent := 1;
     Restore.progress :=
       {| Restore.TotalFiles := 1; Restore.RestoredFiles := 0;
          Restore.FailedFiles := 0; Restore.TotalSize := 0;
          Restore.RestoredSize := 0; Restore.StartTime := 0;
          Restore.Errors := [] |} |}.

Definition entry : Restore.FileManifestEntry :=
  {| Restore.FilePath := "/data/a.txt"; Restore.FileID := "f1";
     Restore.Size := 1;
     Restore.Checksum :=
       "2d711642b726b04401627ca9fbac32f5c8530fb1903cc4db02258717921a4881";
     Restore.BackupTime := 300; Restore.Permissions := 420;
     Restore.Compressed := true |}.

Definition restored : FS :=
  {[ "restore" := Dir; "restore/a.txt" := File [120] 420 ]}.

(** A network whose first answer carries ["x"] and whose later answers
    carry ["y"]; a second entry with the same base name as [entry]; and a
    backup report with one successful and one failed result. *)
Definition tr_x_then_y : Api.transport :=
  fun n _ => match n with O => Api.Response 200 [120] | _ => Api.Response 200 [121] end.

Definition other_entry : Restore.FileManifestEntry :=
  {| Restore.FilePath := "/other/a.txt"; Restore.FileID := "f2";
     Restore.Size := 1; Restore.Checksum := "abc";
     Restore.BackupTime := 300; Restore.Permissions := 420;
     Restore.Compressed := false |}.

Definition report : Restore.BackupReport :=
  {| Restore.report_ID := "backup-1"; Restore.report_StartTime := 100;
     Restore.report_TotalFiles := 2; Restore.report_Successful := 1;
     Restore.report_Results :=
       [ {| Backup.result_FilePath := "/data/a.txt";
            Backup.result_FileID := "f1";
            Backup.result_Operation := "create";
            Backup.result_Success := true;
            Backup.result_Error := None;
            Backup.result_StartTime := 200;
            Backup.result_EndTime := 201;
            Backup.result_Size := 1;
            Backup.result_CompressedSize := 1;
            Backup.result_Checksum := "abc";
            Backup.result_Compressed := true |};
         {| Backup.result_FilePath := "/data/b.txt";
            Backup.result_FileID := "";
            Backup.result_Operation := "create";
            Backup.result_Success := false;
            Backup.result_Error := Some Backup.ErrOpenFile;
            Backup.result_StartTime := 202;
            Backup.result_EndTime := 203;
            Backup.result_Size := 0;
            Backup.result_CompressedSize := 0;
            Backup.result_Checksum := "";
            Backup.result_Compressed := false |} ] |}.

(** The file with content ["y"] instead, and the service after it has
    backed up the file with content ["x"] and then with content ["y"],
    with the database it then has. *)
Definition disk_y : FS := {[ "/data/a.txt" := File [121] 420 ]}.

Definition after_x_y : Backup.Service :=
  let run s fs now :=
    fst (Backup.processBackup ReferenceOS.sha256_hex ReferenceCodec.gzip_write
           ReferenceCodec.zlib_write ReferenceOS.url_ok ReferenceOS.parse_upload
           ReferenceOS.Base tr_ok s fs Api.idle now task) in
  run (run service disk 300) disk_y 400.

Definition db_x_y : Backup.DB :=
  match Backup.db after_x_y with
  | Some d => d
  | None => {| Backup.file_states := ∅; Backup.backup_records := [] |}
  end.


(** The entry the manifest made from [report] holds. *)
Definition report_entry : Restore.FileManifestEntry :=
  {| Restore.FilePath := "/data/a.txt"; Restore.FileID := "f1";
     Restore.Size := 1; Restore.Checksum := "abc";
     Restore.BackupTime := 201; Restore.Permissions := 0;
     Restore.Compressed := false |}.

End Scenario.

(** * Properties *)

(** ** Byte strings and big-endian values *)

Lemma be_value_snoc (l : list Z) (b : Z) :
  be_value (l ++ [b]) = be_value l * 256 + b.
Proof. unfold be_value. now rewrite fold_left_app. Qed.

Lemma be_value_bound (l : list Z) :
  bytes l -> 0 <= be_value l < 256 ^ Z.of_nat (length l).
Proof.
  induction l as [|b l IH] using rev_ind; intros Hb.
  - cbn. lia.
  - apply Forall_app in Hb as [Hl Hb1].
    apply Forall_cons in Hb1 as [Hb1 _]. unfold is_byte in Hb1.
    specialize (IH Hl).
    rewrite be_value_snoc, length_app, Nat2Z.inj_add. cbn [length].
    rewrite Z.pow_add_r by lia.
    change (256 ^ Z.of_nat 1) with 256. nia.
Qed.

Lemma be_value_inj (l1 l2 : list Z) :
  bytes l1 -> bytes l2 -> length l1 = length l2 ->
  be_value l1 = be_value l2 -> l1 = l2.
Proof.
  revert l2. induction l1 as [|b1 l1 IH] using rev_ind; intros l2 H1 H2 Hlen Hv.
  - destruct l2; [reflexivity | discriminate].
  - destruct l2 as [|b2 l2 _] using rev_ind.
    + rewrite length_app in Hlen. cbn in Hlen. lia.
    + apply Forall_app in H1 as [H1 Hb1]. apply Forall_app in H2 as [H2 Hb2].
      apply Forall_cons in Hb1 as [Hb1 _]. apply Forall_cons in Hb2 as [Hb2 _].
      unfold is_byte in *.
      rewrite !length_app in Hlen. cbn in Hlen.
      rewrite !be_value_snoc in Hv.
      assert (be_value l1 = be_value l2 /\ b1 = b2) as [Hv' ->] by lia.
      f_equal. apply IH; auto with lia.
Qed.

Lemma insert_at_length (l1 l2 : list Z) (x y : Z) :
  <[length l1 := y]> (l1 ++ x :: l2) = l1 ++ y :: l2.
Proof.
  rewrite insert_app_r_alt by lia. now rewrite Nat.sub_diag.
Qed.

(** ** incrementNonce *)

Section IncrementNonce.
Import Encryption.

Lemma incrementNonce_from_app (pre suf : list Z) :
  incrementNonce_from (length pre) (pre ++ suf)
  = incrementNonce_from (length pre) pre ++ suf.
Proof.
  revert suf. induction pre as [|b pre IH] using rev_ind; intros suf.
  - reflexivity.
  - rewrite length_app. cbn [length]. rewrite Nat.add_1_r.
    cbn [incrementNonce_from].
    rewrite <- !app_assoc. cbn [app].
    rewrite !list_lookup_middle by reflexivity.
    rewrite !insert_at_length.
    destruct ((b + 1) mod 256 =? 0).
    + rewrite (IH (_ :: suf)), (IH [_]). now rewrite <- app_assoc.
    + now rewrite <- app_assoc.
Qed.

Lemma incrementNonce_snoc (pre : list Z) (b : Z) :
  incrementNonce (pre ++ [b])
  = if (b + 1) mod 256 =? 0 then incrementNonce pre ++ [0]
    else pre ++ [(b + 1) mod 256].
Proof.
  unfold incrementNonce. rewrite length_app. cbn [length].
  rewrite Nat.add_1_r. cbn [incrementNonce_from].
  rewrite list_lookup_middle by reflexivity.
  change (pre ++ [b]) with (pre ++ b :: []).
  rewrite insert_at_length.
  destruct ((b + 1) mod 256 =? 0) eqn:E; [|reflexivity].
  apply Z.eqb_eq in E. rewrite incrementNonce_from_app. now rewrite E.
Qed.

Lemma incrementNonce_length (nonce : list Z) :
  length (incrementNonce nonce) = length nonce.
Proof.
  induction nonce as [|b pre IH] using rev_ind; [reflexivity|].
  rewrite incrementNonce_snoc.
  destruct (_ =? 0); rewrite !length_app; cbn; lia.
Qed.

Lemma incrementNonce_bytes (nonce : list Z) :
  bytes nonce -> bytes (incrementNonce nonce).
Proof.
  induction nonce as [|b pre IH] using rev_ind; intros Hb; [exact Hb|].
  apply Forall_app in Hb as [Hpre Hb].
  rewrite incrementNonce_snoc.
  destruct (_ =? 0); apply Forall_app; split.
  - now apply IH.
  - constructor; [unfold is_byte; lia | constructor].
  - exact Hpre.
  - constructor; [|constructor]. unfold is_byte. apply Z.mod_pos_bound. lia.
Qed.

(** One call adds one to the big-endian value, modulo [256 ^ len]. *)
Lemma incrementNonce_value (nonce : list Z) :
  bytes nonce ->
  be_value (incrementNonce nonce)
  = (be_value nonce + 1) mod 256 ^ Z.of_nat (length nonce).
Proof.
  induction nonce as [|b pre IH] using rev_ind; intros Hb.
  - reflexivity.
  - apply Forall_app in Hb as [Hpre Hb].
    apply Forall_cons in Hb as [Hb _]. unfold is_byte in Hb.
    pose proof (be_value_bound pre Hpre) as Hbound.
    rewrite incrementNonce_snoc, length_app, Nat2Z.inj_add.
    cbn [length]. rewrite Z.pow_add_r by lia.
    change (256 ^ Z.of_nat 1) with 256.
    set (P := 256 ^ Z.of_nat (length pre)) in *.
    destruct ((b + 1) mod 256 =? 0) eqn:E.
    + apply Z.eqb_eq in E.
      assert (b = 255) as -> by
        (destruct (Z.eq_dec b 255); [assumption|];
         rewrite Z.mod_small in E by lia; lia).
      rewrite !be_value_snoc, (IH Hpre). fold P.
      replace (be_value pre * 256 + 255 + 1) with ((be_value pre + 1) * 256) by lia.
      rewrite Z.mul_mod_distr_r by lia. lia.
    + apply Z.eqb_neq in E.
      assert (b < 255) by
        (destruct (Z.eq_dec b 255) as [->|]; [now cbn in E | lia]).
      rewrite (Z.mod_small (b + 1)) by lia.
      rewrite !be_value_snoc. rewrite Z.mod_small; [lia | nia].
Qed.

Lemma nonce_at_length (base : list Z) (i : nat) :
  length (nonce_at base i) = length base.
Proof.
  induction i as [|i IH]; [reflexivity|].
  change (nonce_at base (S i)) with (incrementNonce (nonce_at base i)).
  now rewrite incrementNonce_length.
Qed.

Lemma nonce_at_bytes (base : list Z) (i : nat) :
  bytes base -> bytes (nonce_at base i).
Proof.
  intros Hb. induction i as [|i IH]; [exact Hb|].
  change (nonce_at base (S i)) with (incrementNonce (nonce_at base i)).
  now apply incrementNonce_bytes.
Qed.

Lemma nonce_at_value (base : list Z) (i : nat) :
  bytes base ->
  be_value (nonce_at base i)
  = (be_value base + Z.of_nat i) mod 256 ^ Z.of_nat (length base).
Proof.
  intros Hb. induction i as [|i IH].
  - cbn. rewrite Z.add_0_r. symmetry. apply Z.mod_small.
    now apply be_value_bound.
  - change (nonce_at base (S i)) with (incrementNonce (nonce_at base i)).
    rewrite incrementNonce_value by now apply nonce_at_bytes.
    rewrite nonce_at_length, IH.
    rewrite Zplus_mod_idemp_l. f_equal. lia.
Qed.

Lemma nonce_at_succ (base : list Z) (i : nat) :
  nonce_at (incrementNonce base) i = nonce_at base (S i).
Proof.
  induction i as [|i IH]; [reflexivity|].
  change (nonce_at (incrementNonce base) (S i))
    with (incrementNonce (nonce_at (incrementNonce base) i)).
  now rewrite IH.
Qed.

End IncrementNonce.

(** ** The length prefix *)

Lemma testbit_byte_of (n s i : Z) :
  0 <= s -> 0 <= i ->
  Z.testbit (Z.shiftl (Z.shiftr n s mod 256) s) i
  = if (s <=? i) && (i <? s + 8) then Z.testbit n i else false.
Proof.
  intros Hs Hi. rewrite Z.shiftl_spec by lia.
  change 256 with (2 ^ 8).
  destruct (Z.leb_spec s i); cbn [andb].
  - destruct (Z.ltb_spec i (s + 8)).
    + rewrite Z.mod_pow2_bits_low by lia.
      rewrite Z.shiftr_spec by lia. f_equal. lia.
    + now rewrite Z.mod_pow2_bits_high by lia.
  - now rewrite Z.testbit_neg_r by lia.
Qed.

Lemma chunkSizeOf_chunkSizeBytes (n : Z) :
  0 <= n < 2 ^ 32 ->
  Encryption.chunkSizeOf (Encryption.chunkSizeBytes n) = n.
Proof.
  intros Hn. unfold Encryption.chunkSizeBytes, Encryption.chunkSizeOf.
  apply Z.bits_inj'. intros i Hi.
  rewrite <- (Z.shiftl_0_r (n mod 256)).
  rewrite <- (Z.shiftr_0_r n) at 4.
  rewrite !Z.lor_spec, !testbit_byte_of by lia.
  destruct (Z.ltb_spec i 32).
  - destruct (24 <=? i) eqn:E1, (i <? 24 + 8) eqn:E2,
             (16 <=? i) eqn:E3, (i <? 16 + 8) eqn:E4,
             (8 <=? i) eqn:E5, (i <? 8 + 8) eqn:E6,
             (0 <=? i) eqn:E7, (i <? 0 + 8) eqn:E8; cbn;
      try reflexivity; try (destruct (Z.testbit n i); reflexivity); lia.
  - rewrite <- (Z.mod_small n (2 ^ 32)) at 5 by lia.
    rewrite Z.mod_pow2_bits_high by lia.
    destruct (24 <=? i) eqn:E1, (i <? 24 + 8) eqn:E2,
             (16 <=? i) eqn:E3, (i <? 16 + 8) eqn:E4,
             (8 <=? i) eqn:E5, (i <? 8 + 8) eqn:E6,
             (0 <=? i) eqn:E7, (i <? 0 + 8) eqn:E8; cbn; try reflexivity; lia.
Qed.

Lemma chunkSizeBytes_length (n : Z) :
  length (Encryption.chunkSizeBytes n) = 4%nat.
Proof. reflexivity. Qed.

(** ** io.ReadFull *)

Lemma ReadFull_app (n : nat) (a b : list Z) :
  length a = n -> ReadFull n (a ++ b) = (a, b, io_ok).
Proof.
  intros <-. unfold ReadFull.
  rewrite length_app.
  destruct (Nat.leb_spec (length a) (length a + length b)); [|lia].
  now rewrite take_app_length, drop_app_length.
Qed.

Lemma ReadFull_short (n : nat) (src : list Z) :
  (length src < n)%nat -> exists got st, ReadFull n src = (got, [], st) /\ st <> io_ok.
Proof.
  intros H. unfold ReadFull.
  destruct (Nat.leb_spec n (length src)); [lia|].
  destruct src; eexists _, _; split; try reflexivity; discriminate.
Qed.

Lemma ReadFull_4_short (src : list Z) :
  (0 < length src < 4)%nat ->
  ReadFull 4 src = (src, [], io_ErrUnexpectedEOF).
Proof.
  intros H. unfold ReadFull.
  destruct (Nat.leb_spec 4 (length src)); [lia|].
  destruct src; [cbn in H; lia | reflexivity].
Qed.

Lemma ReadFull_ok_inv (n : nat) (src got rest : list Z) :
  ReadFull n src = (got, rest, io_ok) ->
  got = take n src /\ rest = drop n src /\ (n <= length src)%nat.
Proof.
  unfold ReadFull. destruct (Nat.leb_spec n (length src)).
  - intros [= <- <-]. auto.
  - destruct src; discriminate.
Qed.

(** ** The chunk loops *)

Section ChunkLoops.
Import Encryption.

Variable pbkdf2 : string -> list Z -> list Z.
Variable Seal : list Z -> list Z -> list Z -> list Z.
Variable Open : list Z -> list Z -> list Z -> option (list Z).

Lemma chunkSize_pos : (0 < chunkSize)%nat.
Proof. unfold chunkSize. lia. Qed.

Lemma take_chunk_nil (rest : list Z) :
  length (take chunkSize rest) = 0%nat -> rest = [].
Proof.
  pose proof chunkSize_pos. rewrite length_take.
  destruct rest; [reflexivity | cbn [length]; lia].
Qed.

(** The encryption loop always finishes within its budget; what it
    writes is its [Seal] calls framed one after the other, the calls
    follow the nonce discipline, and their buffers are the input cut
    into windows. *)
Lemma encrypt_loop_spec (fuel : nat) :
  forall key nonce rest,
    (length rest < fuel)%nat ->
    exists log,
      encrypt_loop Seal fuel key nonce rest
      = Some (concat (map (frame Seal key) log), log)
      /\ scheduled nonce log
      /\ concat (map seal_plain log) = rest.
Proof.
  induction fuel as [|fuel IH]; intros key nonce rest Hlen; [lia|].
  cbn [encrypt_loop].
  destruct (Nat.eqb_spec (length (take chunkSize rest)) 0) as [E|E].
  - exists []. apply take_chunk_nil in E. subst rest. now cbn.
  - assert (length (drop chunkSize rest) < fuel)%nat as Hd.
    { rewrite length_drop. rewrite length_take in E.
      pose proof chunkSize_pos. lia. }
    destruct (IH key (incrementNonce nonce) _ Hd) as (log & -> & Hs & Hp).
    exists ({| seal_nonce := nonce; seal_plain := take chunkSize rest |} :: log).
    split; [|split].
    + cbn [map concat]. unfold frame at 2. cbn [seal_nonce seal_plain].
      now rewrite <- app_assoc.
    + cbn [scheduled seal_nonce seal_plain]. repeat split; [|exact Hs].
      rewrite length_take. lia.
    + cbn [map concat seal_plain]. rewrite Hp. apply take_drop.
Qed.

Lemma scheduled_lookup (log : list sealed) :
  forall nonce i s,
    scheduled nonce log -> log !! i = Some s ->
    seal_nonce s = nonce_at nonce i /\ (length (seal_plain s) <= chunkSize)%nat.
Proof.
  induction log as [|s0 log IH]; intros nonce i s Hs Hi; [discriminate|].
  destruct Hs as (Hn & Hl & Hs).
  destruct i as [|i].
  - injection Hi as <-. now split.
  - cbn in Hi. destruct (IH _ _ _ Hs Hi) as [-> Hl'].
    split; [|exact Hl']. apply nonce_at_succ.
Qed.

Lemma scheduled_take (log : list sealed) :
  forall nonce j, scheduled nonce log -> scheduled nonce (take j log).
Proof.
  induction log as [|s0 log IH]; intros nonce j Hs.
  - now destruct j.
  - destruct j as [|j]; [exact I|].
    destruct Hs as (Hn & Hl & Hs). cbn [take scheduled]. auto.
Qed.

(** The buffer of the [i]-th [Seal] call is the [i]-th window of the
    input. *)
Lemma encrypt_loop_windows (fuel : nat) :
  forall key nonce rest out log i s,
    encrypt_loop Seal fuel key nonce rest = Some (out, log) ->
    log !! i = Some s ->
    seal_plain s = take chunkSize (drop (i * chunkSize) rest).
Proof.
  induction fuel as [|fuel IH]; intros key nonce rest out log i s; [discriminate|].
  cbn [encrypt_loop].
  destruct (Nat.eqb_spec (length (take chunkSize rest)) 0) as [E|E].
  - intros [= <- <-]. discriminate.
  - destruct (encrypt_loop Seal fuel key (incrementNonce nonce) (drop chunkSize rest))
      as [[out' log']|] eqn:EL; [|discriminate].
    intros [= <- <-] Hi. destruct i as [|i].
    + injection Hi as <-. reflexivity.
    + cbn in Hi. rewrite (IH _ _ _ _ _ _ _ EL Hi).
      rewrite drop_drop. reflexivity.
Qed.

Lemma EncryptFile_windows (password : string) (rand input out : list Z)
      (log : list sealed) (e : option error) (i : nat) (s : sealed) :
  EncryptFile pbkdf2 Seal password rand input = (out, log, e) ->
  log !! i = Some s ->
  seal_plain s = take chunkSize (drop (i * chunkSize) input).
Proof.
  unfold EncryptFile.
  destruct (ReadFull SaltSize rand) as [[salt rand1] st].
  destruct st; [|intros [= <- <- <-]; discriminate..].
  destruct (NewCipher _); cbn [negb]; [|intros [= <- <- <-]; discriminate].
  destruct (ReadFull NonceSize _) as [[nonce rand2] st].
  destruct st; [|intros [= <- <- <-]; discriminate..].
  destruct (encrypt_loop _ _ _ _ _) as [[out' log']|] eqn:EL;
    [|intros [= <- <- <-]; discriminate].
  intros [= <- <- <-]. eapply encrypt_loop_windows, EL.
Qed.

(** What [EncryptFile] returns when it returns no error. *)
Lemma EncryptFile_ok_inv (password : string) (rand input out : list Z)
      (log : list sealed) :
  EncryptFile pbkdf2 Seal password rand input = (out, log, None) ->
  let salt := take SaltSize rand in
  let nonce := take NonceSize (drop SaltSize rand) in
  let key := pbkdf2 password salt in
  length salt = SaltSize /\ length nonce = NonceSize /\
  NewCipher key = true /\
  out = salt ++ nonce ++ concat (map (frame Seal key) log) /\
  scheduled nonce log /\
  concat (map seal_plain log) = input.
Proof.
  unfold EncryptFile.
  destruct (ReadFull SaltSize rand) as [[salt rand1] st] eqn:E1.
  destruct st; try discriminate.
  apply ReadFull_ok_inv in E1 as (-> & -> & Hl1).
  destruct (NewCipher _) eqn:EK; cbn [negb]; [|discriminate].
  destruct (ReadFull NonceSize _) as [[nonce rand2] st] eqn:E2.
  destruct st; try discriminate.
  apply ReadFull_ok_inv in E2 as (-> & -> & Hl2).
  destruct (encrypt_loop_spec (S (length input)) (pbkdf2 password (take SaltSize rand))
              (take NonceSize (drop SaltSize rand)) input) as (log' & -> & Hs & Hp);
    [lia|].
  intros [= <- <-]. cbn zeta.
  rewrite !length_take. repeat split; auto; lia.
Qed.

(** [EncryptFile] succeeds whenever the random source delivers and the
    derived key has an AES key length. *)
Lemma EncryptFile_succeeds (password : string) (rand input : list Z) :
  (SaltSize + NonceSize <= length rand)%nat ->
  NewCipher (pbkdf2 password (take SaltSize rand)) = true ->
  exists out log, EncryptFile pbkdf2 Seal password rand input = (out, log, None).
Proof.
  intros Hr Hk. unfold EncryptFile, ReadFull.
  destruct (Nat.leb_spec SaltSize (length rand)); [|lia].
  rewrite Hk. cbn [negb].
  destruct (Nat.leb_spec NonceSize (length (drop SaltSize rand)));
    [|rewrite length_drop in *; lia].
  destruct (encrypt_loop_spec (S (length input)) (pbkdf2 password (take SaltSize rand))
              (take NonceSize (drop SaltSize rand)) input) as (log' & -> & _);
    [lia|].
  eauto.
Qed.

Section Aead.
(** The contract of the AEAD: opening what was sealed under the same
    key and nonce gives the plaintext back, and sealing adds the
    16-byte tag. *)
Hypothesis Open_Seal : forall key nonce plaintext,
    Open key nonce (Seal key nonce plaintext) = Some plaintext.
Hypothesis Seal_length : forall key nonce plaintext,
    length (Seal key nonce plaintext) = (length plaintext + 16)%nat.

Lemma frame_length (key : list Z) (s : sealed) :
  length (frame Seal key s) = (length (seal_plain s) + 20)%nat.
Proof.
  unfold frame. rewrite length_app, chunkSizeBytes_length, Seal_length. lia.
Qed.

Lemma frames_length_ge (key : list Z) (log : list sealed) :
  (length log <= length (concat (map (frame Seal key) log)))%nat.
Proof.
  induction log as [|s log IH]; [reflexivity|].
  cbn [map concat length]. rewrite length_app, frame_length. lia.
Qed.

(** One round of the decryption loop on a whole frame. *)
Lemma decrypt_loop_frame (fuel : nat) (key nonce tail written : list Z)
      (s : sealed) :
  seal_nonce s = nonce -> (length (seal_plain s) <= chunkSize)%nat ->
  decrypt_loop Open (S fuel) key nonce (frame Seal key s ++ tail) written
  = decrypt_loop Open fuel key (incrementNonce nonce) tail
                 (written ++ seal_plain s).
Proof.
  intros Hn Hl. cbn [decrypt_loop]. unfold frame. rewrite <- app_assoc.
  rewrite ReadFull_app by apply chunkSizeBytes_length.
  rewrite chunkSizeOf_chunkSizeBytes, Nat2Z.id.
  - rewrite ReadFull_app by reflexivity.
    now rewrite Hn, Open_Seal.
  - rewrite Seal_length. unfold chunkSize in Hl.
    change (2 ^ 32) with 4294967296. lia.
Qed.

(** Decrypting whole frames gives their plaintexts back, in order. *)
Lemma decrypt_loop_frames (key : list Z) (log : list sealed) :
  forall fuel nonce written,
    scheduled nonce log -> (length log < fuel)%nat ->
    decrypt_loop Open fuel key nonce (concat (map (frame Seal key) log)) written
    = (written ++ concat (map seal_plain log), None).
Proof.
  induction log as [|s log IH]; intros fuel nonce written Hs Hf.
  - destruct fuel; [cbn in Hf; lia|]. cbn. now rewrite app_nil_r.
  - destruct fuel; [lia|]. destruct Hs as (Hn & Hl & Hs).
    cbn [map concat]. rewrite decrypt_loop_frame by assumption.
    rewrite IH by (auto; cbn [length] in Hf; lia).
    now rewrite <- app_assoc.
Qed.

(** A container cut anywhere but at a frame boundary makes the loop
    stop with a read error. *)
Lemma decrypt_loop_truncated (key : list Z) (log : list sealed) :
  forall fuel nonce written m,
    scheduled nonce log -> (m < fuel)%nat ->
    (m <= length (concat (map (frame Seal key) log)))%nat ->
    (forall j, (j <= length log)%nat ->
               m <> length (concat (map (frame Seal key) (take j log)))) ->
    exists w e,
      decrypt_loop Open fuel key nonce
                   (take m (concat (map (frame Seal key) log))) written
      = (w, Some e)
      /\ (e = ErrReadChunkSize \/ e = ErrReadEncryptedChunk).
Proof.
  induction log as [|s log IH]; intros fuel nonce written m Hs Hf Hm Hnb.
  - exfalso. apply (Hnb 0%nat); [lia|]. cbn in Hm |- *. lia.
  - destruct fuel; [lia|]. destruct Hs as (Hn & Hl & Hs).
    cbn [map concat] in *.
    assert (m <> 0)%nat as Hm0 by (intros ->; now apply (Hnb 0%nat); [lia|]).
    pose proof (frame_length key s) as HL.
    destruct (Nat.lt_ge_cases m (length (frame Seal key s))) as [Hlt|Hge].
    + (* the cut falls inside this frame *)
      rewrite take_app_le by lia.
      destruct (Nat.lt_ge_cases m 4) as [H4|H4].
      * cbn [decrypt_loop].
        rewrite ReadFull_4_short by (rewrite length_take; lia).
        eauto.
      * unfold frame in *. cbn [decrypt_loop].
        rewrite take_app_ge by (rewrite chunkSizeBytes_length; lia).
        rewrite chunkSizeBytes_length.
        rewrite ReadFull_app by apply chunkSizeBytes_length.
        rewrite chunkSizeOf_chunkSizeBytes, Nat2Z.id.
        2:{ rewrite Seal_length. unfold chunkSize in Hl.
            change (2 ^ 32) with 4294967296. lia. }
        destruct (ReadFull_short
                    (length (Seal key (seal_nonce s) (seal_plain s)))
                    (take (m - 4) (Seal key (seal_nonce s) (seal_plain s))))
          as (got & st & -> & Hst).
        { rewrite length_take. rewrite length_app, chunkSizeBytes_length in Hlt.
          lia. }
        destruct st; [congruence | eauto | eauto].
    + (* the cut falls after this frame *)
      rewrite take_app_ge by lia.
      rewrite decrypt_loop_frame by assumption.
      apply IH; auto.
      * lia.
      * rewrite length_app in Hm. lia.
      * intros j Hj E. apply (Hnb (S j)); [cbn [length]; lia|].
        cbn [take map concat]. rewrite length_app. lia.
Qed.

Lemma frames_take_prefix (key : list Z) (log : list sealed) (j : nat) :
  take (length (concat (map (frame Seal key) (take j log))))
       (concat (map (frame Seal key) log))
  = concat (map (frame Seal key) (take j log)).
Proof.
  rewrite <- (take_drop j log) at 2.
  rewrite map_app, concat_app. apply take_app_length.
Qed.

End Aead.

End ChunkLoops.

(** ** The reference cipher meets the contracts assumed of the library *)

Lemma Reference_pbkdf2_length (password : string) (salt : list Z) :
  length (Reference.pbkdf2 password salt) = Encryption.KeySize.
Proof.
  unfold Reference.pbkdf2. cbn [length]. rewrite length_take, length_app, length_replicate.
  unfold Encryption.KeySize. lia.
Qed.

Lemma Reference_Seal_length (key nonce plaintext : list Z) :
  length (Reference.Seal key nonce plaintext) = (length plaintext + 16)%nat.
Proof. unfold Reference.Seal. now rewrite length_app. Qed.

Lemma Reference_Open_Seal (key nonce plaintext : list Z) :
  Reference.Open key nonce (Reference.Seal key nonce plaintext) = Some plaintext.
Proof.
  unfold Reference.Open. rewrite Reference_Seal_length.
  destruct (Nat.ltb_spec (length plaintext + 16) 16); [lia|].
  replace (length plaintext + 16 - 16)%nat with (length plaintext) by lia.
  unfold Reference.Seal. rewrite drop_app_length, take_app_length.
  now rewrite bool_decide_eq_true_2.
Qed.

(** Whether an offset is a frame boundary can be decided by trying every
    frame count. *)
Lemma classic_boundary (Seal : list Z -> list Z -> list Z -> list Z)
      (key : list Z) (log : list Encryption.sealed) (k : nat) :
  Encryption.frame_boundary Seal key log k \/
  ~ Encryption.frame_boundary Seal key log k.
Proof.
  unfold Encryption.frame_boundary.
  set (off j := (Encryption.SaltSize + Encryption.NonceSize
     + length (concat (map (Encryption.frame Seal key) (take j log))))%nat).
  assert (forall n, (exists j, (j <= n)%nat /\ k = off j)
                    \/ (forall j, (j <= n)%nat -> k <> off j)) as H.
  { induction n as [|n [(j & Hj & E)|IH]].
    - destruct (Nat.eq_dec k (off 0%nat)) as [E|E].
      + left. exists 0%nat. auto.
      + right. intros j Hj. now replace j with 0%nat by lia.
    - left. exists j. split; [lia | exact E].
    - destruct (Nat.eq_dec k (off (S n))) as [E|E].
      + left. exists (S n). auto.
      + right. intros j Hj. destruct (Nat.eq_dec j (S n)) as [->|]; [exact E|].
        apply IH. lia. }
  destruct (H (length log)) as [?|Hn]; [now left|].
  right. intros (j & Hj & E). exact (Hn j Hj E).
Qed.

(** Decrypting the salt, the nonce base and the first [j] frames of a
    container gives the plaintext of those frames. *)
Lemma DecryptFile_whole_frames
    (pbkdf2 : string -> list Z -> list Z)
    (Seal : list Z -> list Z -> list Z -> list Z)
    (Open : list Z -> list Z -> list Z -> option (list Z))
    (Open_Seal : forall key nonce plaintext,
        Open key nonce (Seal key nonce plaintext) = Some plaintext)
    (Seal_length : forall key nonce plaintext,
        length (Seal key nonce plaintext) = (length plaintext + 16)%nat)
    (password : string) (rand out : list Z)
    (log : list Encryption.sealed) (j : nat) :
  let salt := take Encryption.SaltSize rand in
  let nonce := take Encryption.NonceSize (drop Encryption.SaltSize rand) in
  let key := pbkdf2 password salt in
  length salt = Encryption.SaltSize -> length nonce = Encryption.NonceSize ->
  Encryption.NewCipher key = true ->
  out = salt ++ nonce ++ concat (map (Encryption.frame Seal key) log) ->
  Encryption.scheduled nonce log ->
  Encryption.DecryptFile pbkdf2 Open password
    (take (Encryption.SaltSize + Encryption.NonceSize
           + length (concat (map (Encryption.frame Seal key) (take j log)))) out)
  = (concat (map Encryption.seal_plain (take j log)), None).
Proof.
  intros salt nonce key Hl1 Hl2 HK Hout Hs.
  unfold Encryption.DecryptFile.
  set (pre := concat (map (Encryption.frame Seal key) (take j log))).
  assert (take (Encryption.SaltSize + Encryption.NonceSize + length pre) out
          = salt ++ nonce ++ pre) as ->.
  { rewrite Hout. rewrite take_app_ge by lia.
    rewrite take_app_ge by lia.
    rewrite Hl1, Hl2.
    replace (Encryption.SaltSize + Encryption.NonceSize + length pre
             - Encryption.SaltSize - Encryption.NonceSize)%nat
      with (length pre) by lia.
    unfold pre. now rewrite frames_take_prefix. }
  rewrite ReadFull_app by exact Hl1. fold key. rewrite HK. cbn [negb].
  rewrite ReadFull_app by exact Hl2.
  pose proof (frames_length_ge Seal Seal_length key (take j log)) as Hge.
  fold pre in Hge.
  assert (length (take j log) < S (length (salt ++ nonce ++ pre)))%nat as Hfuel
    by (rewrite !length_app; lia).
  unfold pre in *.
  rewrite (decrypt_loop_frames Seal Open Open_Seal Seal_length);
    [reflexivity | now apply scheduled_take | exact Hfuel].
Qed.

(** Encrypting and then decrypting under the same password gives the
    input back, whenever the random source delivers its 44 bytes. *)
Lemma EncryptFile_DecryptFile
    (pbkdf2 : string -> list Z -> list Z)
    (Seal : list Z -> list Z -> list Z -> list Z)
    (Open : list Z -> list Z -> list Z -> option (list Z))
    (pbkdf2_length : forall password salt,
        length (pbkdf2 password salt) = Encryption.KeySize)
    (Open_Seal : forall key nonce plaintext,
        Open key nonce (Seal key nonce plaintext) = Some plaintext)
    (Seal_length : forall key nonce plaintext,
        length (Seal key nonce plaintext) = (length plaintext + 16)%nat)
    (password : string) (rand input : list Z) :
  (Encryption.SaltSize + Encryption.NonceSize <= length rand)%nat ->
  exists out log,
    Encryption.EncryptFile pbkdf2 Seal password rand input = (out, log, None)
    /\ Encryption.DecryptFile pbkdf2 Open password out = (input, None).
Proof.
  intros Hr.
  destruct (EncryptFile_succeeds pbkdf2 Seal password rand input Hr)
    as (out & log & HE).
  { unfold Encryption.NewCipher. now rewrite pbkdf2_length. }
  exists out, log. split; [exact HE|].
  apply EncryptFile_ok_inv in HE as (Hl1 & Hl2 & HK & Hout & Hs & Hp).
  pose proof (DecryptFile_whole_frames pbkdf2 Seal Open Open_Seal Seal_length
                password rand out log (length log) Hl1 Hl2 HK Hout Hs) as H.
  rewrite firstn_all in H. rewrite Hp in H. rewrite <- H. f_equal.
  rewrite take_ge; [reflexivity|].
  rewrite Hout at 1. rewrite !length_app, Hl1, Hl2. lia.
Qed.

(** ** Claims on the encrypted container *)

(** C8.  In one run of [EncryptFile] the nonce of the [i]-th [Seal] call
    (0-indexed) is the 12-byte nonce base stored at offset 32 of the
    container, read as a big-endian 96-bit integer, plus [i] modulo
    [2^96]; the call seals the [i]-th 4096-byte window of the input and
    its frame is part of the container.  Consecutive nonces differ by one
    modulo [2^96], the carry running over all twelve bytes, and no two
    [Seal] calls share a nonce as long as there are at most [2^96] of
    them. *)
Theorem EncryptFile_nonce_schedule
    (pbkdf2 : string -> list Z -> list Z)
    (Seal : list Z -> list Z -> list Z -> list Z)
    (password : string) (rand input out : list Z)
    (log : list Encryption.sealed) :
  bytes rand ->
  Encryption.EncryptFile pbkdf2 Seal password rand input = (out, log, None) ->
  let base := take Encryption.NonceSize (drop Encryption.SaltSize out) in
  let key := pbkdf2 password (take Encryption.SaltSize out) in
  length base = 12%nat /\
  drop 44 out = concat (map (Encryption.frame Seal key) log) /\
  (forall i s, log !! i = Some s ->
     Encryption.seal_plain s
     = take Encryption.chunkSize (drop (i * Encryption.chunkSize) input) /\
     Encryption.seal_nonce s = Encryption.nonce_at base i /\
     length (Encryption.seal_nonce s) = 12%nat /\
     be_value (Encryption.seal_nonce s)
     = (be_value base + Z.of_nat i) mod 2 ^ 96) /\
  (forall i s s', log !! i = Some s -> log !! S i = Some s' ->
     Encryption.seal_nonce s' = Encryption.incrementNonce (Encryption.seal_nonce s) /\
     be_value (Encryption.seal_nonce s')
     = (be_value (Encryption.seal_nonce s) + 1) mod 2 ^ 96) /\
  (Z.of_nat (length log) <= 2 ^ 96 ->
   forall i j s s', i <> j -> log !! i = Some s -> log !! j = Some s' ->
     Encryption.seal_nonce s <> Encryption.seal_nonce s').
Proof.
  intros Hb HE base key.
  pose proof (fun i s => EncryptFile_windows _ _ _ _ _ _ _ _ i s HE) as Hwin.
  apply EncryptFile_ok_inv in HE as (Hl1 & Hl2 & _ & Hout & Hs & _).
  assert (take Encryption.SaltSize out = take Encryption.SaltSize rand) as Esalt.
  { rewrite Hout. rewrite take_app_length'; [reflexivity | now rewrite Hl1]. }
  assert (base = take Encryption.NonceSize (drop Encryption.SaltSize rand)) as Ebase.
  { unfold base. rewrite Hout. rewrite drop_app_length' by now rewrite Hl1.
    rewrite take_app_length'; [reflexivity | now rewrite Hl2]. }
  assert (bytes base) as Hbb.
  { rewrite Ebase. unfold bytes. apply Forall_take, Forall_drop, Hb. }
  assert (length base = 12%nat) as Hlb by (rewrite Ebase; exact Hl2).
  assert (forall i s, log !! i = Some s ->
            Encryption.seal_nonce s = Encryption.nonce_at base i) as Hn.
  { intros i s Hi. rewrite Ebase.
    now destruct (scheduled_lookup _ _ _ _ Hs Hi). }
  assert (forall i s, log !! i = Some s ->
            be_value (Encryption.seal_nonce s)
            = (be_value base + Z.of_nat i) mod 2 ^ 96) as Hv.
  { intros i s Hi. rewrite (Hn _ _ Hi), nonce_at_value by exact Hbb.
    rewrite Hlb. reflexivity. }
  split; [exact Hlb|]. split; [|split; [|split]].
  - unfold key. rewrite Esalt, Hout.
    rewrite app_assoc. rewrite drop_app_length'; [reflexivity|].
    rewrite length_app, Hl1, Hl2. reflexivity.
  - intros i s Hi. repeat split; auto.
    rewrite (Hn _ _ Hi), nonce_at_length. exact Hlb.
  - intros i s s' Hi Hi'. rewrite (Hn _ _ Hi), (Hn _ _ Hi'). split; [reflexivity|].
    change (Encryption.nonce_at base (S i))
      with (Encryption.incrementNonce (Encryption.nonce_at base i)).
    rewrite incrementNonce_value by now apply nonce_at_bytes.
    now rewrite nonce_at_length, Hlb.
  - intros Hcount i j s s' Hij Hi Hj E.
    apply (f_equal be_value) in E. rewrite (Hv _ _ Hi), (Hv _ _ Hj) in E.
    apply lookup_lt_Some in Hi, Hj.
    assert ((Z.of_nat i - Z.of_nat j) mod 2 ^ 96 = 0) as Hz.
    { replace (Z.of_nat i - Z.of_nat j)
        with ((be_value base + Z.of_nat i) - (be_value base + Z.of_nat j)) by lia.
      rewrite Zminus_mod, E, Z.sub_diag. reflexivity. }
    assert (0 < 2 ^ 96) by lia.
    apply Z.mod_divide in Hz; [|lia].
    destruct Hz as [q Hq].
    assert (- 2 ^ 96 < Z.of_nat i - Z.of_nat j < 2 ^ 96) by lia.
    assert (q = 0) by nia. subst q. lia.
Qed.

(** C6.  Cut a container that [EncryptFile] produced after its first [k]
    bytes and decrypt it under the same password: [DecryptFile] returns
    no error exactly when [k] is a frame boundary (after the salt, the
    nonce base and a whole number of frames), and it has then written the
    plaintext of exactly the frames before the cut.  At every other [k]
    (inside the salt or nonce base, inside a length prefix, inside a
    ciphertext) it returns an error. *)
Theorem DecryptFile_truncated
    (pbkdf2 : string -> list Z -> list Z)
    (Seal : list Z -> list Z -> list Z -> list Z)
    (Open : list Z -> list Z -> list Z -> option (list Z))
    (Open_Seal : forall key nonce plaintext,
        Open key nonce (Seal key nonce plaintext) = Some plaintext)
    (Seal_length : forall key nonce plaintext,
        length (Seal key nonce plaintext) = (length plaintext + 16)%nat)
    (password : string) (rand input out : list Z)
    (log : list Encryption.sealed) (k : nat) :
  Encryption.EncryptFile pbkdf2 Seal password rand input = (out, log, None) ->
  (k <= length out)%nat ->
  let key := pbkdf2 password (take Encryption.SaltSize out) in
  let result := Encryption.DecryptFile pbkdf2 Open password (take k out) in
  (snd result = None <-> Encryption.frame_boundary Seal key log k) /\
  (forall j, (j <= length log)%nat ->
     k = (Encryption.SaltSize + Encryption.NonceSize
          + length (concat (map (Encryption.frame Seal key) (take j log))))%nat ->
     result = (concat (map Encryption.seal_plain (take j log)), None)).
Proof.
  intros HE Hk key result.
  apply EncryptFile_ok_inv in HE as (Hl1 & Hl2 & HK & Hout & Hs & _).
  set (salt := take Encryption.SaltSize rand) in *.
  set (nonce := take Encryption.NonceSize (drop Encryption.SaltSize rand)) in *.
  assert (take Encryption.SaltSize out = salt) as Esalt.
  { rewrite Hout. rewrite take_app_length'; [reflexivity | now rewrite Hl1]. }
  assert (key = pbkdf2 password salt) as Ekey by (unfold key; now rewrite Esalt).
  clearbody key. subst key.
  set (key := pbkdf2 password salt) in *.
  set (frames := concat (map (Encryption.frame Seal key) log)) in *.
  assert (forall j, (j <= length log)%nat ->
     k = (Encryption.SaltSize + Encryption.NonceSize
          + length (concat (map (Encryption.frame Seal key) (take j log))))%nat ->
     result = (concat (map Encryption.seal_plain (take j log)), None)) as Hgood.
  { intros j Hj ->. unfold result.
    apply (DecryptFile_whole_frames pbkdf2 Seal Open Open_Seal Seal_length
             password rand out log j); auto. }
  split; [|exact Hgood]. split.
  - (* no error: the cut is a frame boundary *)
    intros Hok.
    destruct (Nat.lt_ge_cases k (Encryption.SaltSize + Encryption.NonceSize)) as [Hlt|Hge].
    + exfalso. revert Hok. unfold result, Encryption.DecryptFile.
      destruct (Nat.lt_ge_cases k Encryption.SaltSize) as [Hlt'|Hge'].
      * destruct (ReadFull_short Encryption.SaltSize (take k out))
          as (got & st & -> & Hst); [rewrite length_take; lia|].
        destruct st; [congruence | discriminate | discriminate].
      * rewrite Hout. rewrite take_app_ge by lia. rewrite Hl1.
        rewrite ReadFull_app by exact Hl1. fold key. rewrite HK. cbn [negb].
        destruct (ReadFull_short Encryption.NonceSize
                    (take (k - Encryption.SaltSize) (nonce ++ frames)))
          as (got & st & -> & Hst); [rewrite length_take; lia|].
        destruct st; [congruence | discriminate | discriminate].
    + destruct (classic_boundary Seal key log k) as [Hb|Hnb]; [exact Hb|].
      exfalso. revert Hok. unfold result, Encryption.DecryptFile.
      rewrite Hout. rewrite take_app_ge by lia. rewrite Hl1.
      rewrite take_app_ge by lia. rewrite Hl2.
      rewrite ReadFull_app by exact Hl1. fold key. rewrite HK. cbn [negb].
      rewrite ReadFull_app by exact Hl2.
      set (m := (k - Encryption.SaltSize - Encryption.NonceSize)%nat).
      unfold frames in *.
      destruct (decrypt_loop_truncated Seal Open Open_Seal Seal_length key log
                  (S (length (salt ++ nonce
                      ++ take m (concat (map (Encryption.frame Seal key) log)))))
                  nonce [] m)
        as (w & e & -> & _).
      * exact Hs.
      * rewrite !length_app, length_take. rewrite Hout, !length_app in Hk.
        unfold m. lia.
      * rewrite Hout, !length_app in Hk. unfold m. lia.
      * intros j Hj E. apply Hnb. exists j. split; [exact Hj|]. unfold m in E. lia.
      * discriminate.
  - intros (j & Hj & E). now rewrite (Hgood j Hj E).
Qed.




(** ** Compression and the pipeline *)

Section CompressionFacts.
Import Compression.

Variable gzip_write : Z -> list Z -> list Z.
Variable gzip_read : list Z -> decoded.
Variable zlib_write : Z -> list Z -> list Z.
Variable zlib_read : list Z -> decoded.

Lemma NewCompressor_usable (format : string) (level : Z) (c : Compressor) :
  NewCompressor format level = inl c -> usable c.
Proof.
  unfold NewCompressor. cbv zeta.
  assert (valid_level
            (if (level <? DefaultCompression) || (BestCompression <? level)
             then DefaultCompression else level) = true) as Hv.
  { unfold valid_level, DefaultCompression, BestCompression, HuffmanOnly.
    destruct (Z.ltb_spec level (-1)), (Z.ltb_spec 9 level); cbn [orb]; lia. }
  destruct (String.eqb format "gzip"); [intros E; inversion E; exact Hv|].
  destruct (String.eqb format "zlib"); [intros E; inversion E; exact Hv|].
  destruct (String.eqb format "none" || String.eqb format "");
    [intros E; inversion E; exact I | discriminate].
Qed.

(** The contract of the stream codecs: a reader gives back what a
    writer at an accepted level was fed. *)
Hypothesis gzip_roundtrip : forall level data,
    valid_level level = true -> gzip_read (gzip_write level data) = Decoded data.
Hypothesis zlib_roundtrip : forall level data,
    valid_level level = true -> zlib_read (zlib_write level data) = Decoded data.

Lemma Compress_Decompress (c : Compressor) (data : list Z) :
  usable c ->
  exists compressed,
    Compress gzip_write zlib_write c data = inl compressed
    /\ Decompress gzip_read zlib_read c compressed = inl data.
Proof.
  destruct c as [level|level|]; cbn [usable Compress Decompress]; intros Hu.
  - rewrite Hu. eexists; split; [reflexivity|]. now rewrite gzip_roundtrip.
  - rewrite Hu. eexists; split; [reflexivity|]. now rewrite zlib_roundtrip.
  - eauto.
Qed.

End CompressionFacts.

Lemma ReferenceCodec_roundtrip (magic : list Z) (level : Z) (data : list Z) :
  length magic = 2%nat ->
  ReferenceCodec.read magic (ReferenceCodec.write magic level data)
  = Compression.Decoded data.
Proof.
  intros Hm. unfold ReferenceCodec.read, ReferenceCodec.write.
  rewrite take_app_length' by now rewrite Hm.
  rewrite bool_decide_eq_true_2 by reflexivity.
  now rewrite drop_app_length' by now rewrite Hm.
Qed.

(** C1.  Decoding what was encoded under the same configuration and
    password gives the input back, byte for byte, for every input:
    for the compression stage (every compressor [NewCompressor] builds),
    for the encryption stage ([EncryptFile] then [DecryptFile], whatever
    the salt and nonce base drawn), and for the two chained.  The
    standard-library codecs and the AEAD are assumed to meet their
    contracts. *)
Theorem transform_roundtrip
    (pbkdf2 : string -> list Z -> list Z)
    (Seal : list Z -> list Z -> list Z -> list Z)
    (Open : list Z -> list Z -> list Z -> option (list Z))
    (gzip_write : Z -> list Z -> list Z) (gzip_read : list Z -> Compression.decoded)
    (zlib_write : Z -> list Z -> list Z) (zlib_read : list Z -> Compression.decoded)
    (pbkdf2_length : forall password salt,
        length (pbkdf2 password salt) = Encryption.KeySize)
    (Open_Seal : forall key nonce plaintext,
        Open key nonce (Seal key nonce plaintext) = Some plaintext)
    (Seal_length : forall key nonce plaintext,
        length (Seal key nonce plaintext) = (length plaintext + 16)%nat)
    (gzip_roundtrip : forall level data,
        Compression.valid_level level = true ->
        gzip_read (gzip_write level data) = Compression.Decoded data)
    (zlib_roundtrip : forall level data,
        Compression.valid_level level = true ->
        zlib_read (zlib_write level data) = Compression.Decoded data) :
  (forall format level c x,
      Compression.NewCompressor format level = inl c ->
      exists y, Compression.Compress gzip_write zlib_write c x = inl y
                /\ Compression.Decompress gzip_read zlib_read c y = inl x) /\
  (forall password rand x,
      (44 <= length rand)%nat ->
      exists y log,
        Encryption.EncryptFile pbkdf2 Seal password rand x = (y, log, None)
        /\ Encryption.DecryptFile pbkdf2 Open password y = (x, None)) /\
  (forall cfg c rand x,
      Transform.compressor_of cfg = inl c ->
      (44 <= length rand)%nat ->
      exists y,
        Transform.encode pbkdf2 Seal gzip_write zlib_write cfg rand x = inl y
        /\ Transform.decode pbkdf2 Open gzip_read zlib_read cfg y = inl x).
Proof.
  split; [|split].
  - intros format level c x Hc.
    apply Compress_Decompress; auto. eapply NewCompressor_usable, Hc.
  - intros password rand x Hr.
    now apply EncryptFile_DecryptFile.
  - intros cfg c rand x Hc Hr.
    assert (Compression.usable c) as Hu.
    { unfold Transform.compressor_of in Hc.
      destruct (Transform.compression_enabled cfg);
        eapply NewCompressor_usable, Hc. }
    destruct (Compress_Decompress gzip_write gzip_read zlib_write zlib_read
                gzip_roundtrip zlib_roundtrip c x Hu) as (z & Hz & Hz').
    unfold Transform.encode, Transform.decode.
    rewrite Hc. unfold Compression.CompressFile, Compression.DecompressFile.
    rewrite Hz.
    destruct (Transform.encryption_enabled cfg).
    + destruct (EncryptFile_DecryptFile pbkdf2 Seal Open pbkdf2_length Open_Seal
                  Seal_length (Transform.encryption_password cfg) rand z Hr)
        as (y & log & HE & HD).
      exists y. rewrite HE. split; [reflexivity|].
      now rewrite HD, Hz'.
    + exists z. split; [reflexivity|]. now rewrite Hz'.
Qed.

(** ** The claims on concrete runs *)

Lemma Sample_rand_bytes : bytes Sample.rand.
Proof.
  apply Forall_app; split; apply Forall_replicate; unfold is_byte; lia.
Qed.

Lemma Sample_EncryptFile :
  Encryption.EncryptFile Reference.pbkdf2 Reference.Seal "p1" Sample.rand Sample.file
  = (Sample.container, Sample.seals, None).
Proof.
  unfold Sample.container, Sample.seals.
  destruct (EncryptFile_succeeds Reference.pbkdf2 Reference.Seal "p1"
              Sample.rand Sample.file) as (out & log & ->); [|reflexivity|reflexivity].
  unfold Sample.rand. rewrite length_app, !length_replicate.
  unfold Encryption.SaltSize, Encryption.NonceSize. lia.
Qed.

Lemma transform_roundtrip_witness :
  exists y,
    Transform.encode Reference.pbkdf2 Reference.Seal ReferenceCodec.gzip_write
      ReferenceCodec.zlib_write Sample.config Sample.rand Sample.file = inl y
    /\ Transform.decode Reference.pbkdf2 Reference.Open ReferenceCodec.gzip_read
         ReferenceCodec.zlib_read Sample.config y = inl Sample.file.
Proof.
  refine (proj2 (proj2 (transform_roundtrip
            Reference.pbkdf2 Reference.Seal Reference.Open
            ReferenceCodec.gzip_write ReferenceCodec.gzip_read
            ReferenceCodec.zlib_write ReferenceCodec.zlib_read
            Reference_pbkdf2_length Reference_Open_Seal Reference_Seal_length
            (fun level data _ => ReferenceCodec_roundtrip [31; 139] level data eq_refl)
            (fun level data _ => ReferenceCodec_roundtrip [120; 156] level data eq_refl)))
          Sample.config (Compression.GzipCompressor 6) Sample.rand Sample.file
          eq_refl _).
  unfold Sample.rand. rewrite length_app, !length_replicate. lia.
Defined.

Lemma EncryptFile_nonce_schedule_witness :
  length Sample.seals = 2%nat /\
  be_value (take 12 (drop 32 Sample.container)) = 2 ^ 96 - 1 /\
  forall i s, Sample.seals !! i = Some s ->
    be_value (Encryption.seal_nonce s) = (2 ^ 96 - 1 + Z.of_nat i) mod 2 ^ 96.
Proof.
  split; [vm_compute; reflexivity|]. split; [vm_compute; reflexivity|].
  intros i s Hi.
  destruct (EncryptFile_nonce_schedule Reference.pbkdf2 Reference.Seal "p1"
              Sample.rand Sample.file Sample.container Sample.seals
              Sample_rand_bytes Sample_EncryptFile) as (_ & _ & H & _).
  destruct (H i s Hi) as (_ & _ & _ & ->). f_equal.
Defined.

Lemma DecryptFile_truncated_witness :
  snd (Encryption.DecryptFile Reference.pbkdf2 Reference.Open "p1"
         (take 4160 Sample.container)) = None
  <-> Encryption.frame_boundary Reference.Seal
        (Reference.pbkdf2 "p1" (take Encryption.SaltSize Sample.container))
        Sample.seals 4160.
Proof.
  refine (proj1 (DecryptFile_truncated Reference.pbkdf2 Reference.Seal Reference.Open
           Reference_Open_Seal Reference_Seal_length "p1" Sample.rand Sample.file
           Sample.container Sample.seals 4160 Sample_EncryptFile _)).
  apply Nat.leb_le. vm_compute. reflexivity.
Defined.


(** ** The change gate *)

Lemma String_eqb_true (a b : string) : String.eqb a b = true <-> a = b.
Proof. apply String.eqb_eq. Qed.

Lemma String_eqb_false (a b : string) : String.eqb a b = false <-> a <> b.
Proof. apply String.eqb_neq. Qed.

(** [needsBackup] in full: "create" and "modify" pass; any other
    operation passes exactly when [os.Stat] does not report the path as
    missing and no state is recorded for it or the recorded status is
    "failed". *)
Lemma needsBackup_iff (s : Backup.Service) (fs : OS.FS)
      (filePath operation : string) :
  Backup.needsBackup s fs filePath operation = true <->
  operation = "create" \/ operation = "modify" \/
  (OS.Stat fs filePath <> OS.ENOENT /\
   (Backup.backupState s !! filePath = None \/
    exists state, Backup.backupState s !! filePath = Some state
                  /\ Backup.Status state = "failed")).
Proof.
  unfold Backup.needsBackup.
  destruct (String.eqb operation "create") eqn:E1; cbn [orb].
  { apply String_eqb_true in E1. tauto. }
  destruct (String.eqb operation "modify") eqn:E2.
  { apply String_eqb_true in E2. tauto. }
  apply String_eqb_false in E1, E2.
  assert (Hstate :
    match Backup.backupState s !! filePath with
    | Some state => String.eqb (Backup.Status state) "failed"
    | None => true
    end = true <->
    (Backup.backupState s !! filePath = None \/
     exists state, Backup.backupState s !! filePath = Some state
                   /\ Backup.Status state = "failed")).
  { destruct (Backup.backupState s !! filePath) as [state|].
    - rewrite String_eqb_true. split.
      + intros H. right. eauto.
      + intros [?|(st & [= <-] & H)]; [discriminate|exact H].
    - split; [now left|reflexivity]. }
  destruct (OS.Stat fs filePath) as [n| |].
  - rewrite Hstate. split; [intros H; right; right; split; [discriminate|exact H]|].
    intros [?|[?|[_ H]]]; [contradiction..|exact H].
  - split; [discriminate|]. intros [?|[?|[H _]]]; contradiction.
  - rewrite Hstate. split; [intros H; right; right; split; [discriminate|exact H]|].
    intros [?|[?|[_ H]]]; [contradiction..|exact H].
Qed.

(** C4, as the code has it.  [needsBackup] accepts "create" and "modify"
    unconditionally.  Any other operation ("manual" as much as "chmod"
    or "rename") on a path that exists is accepted exactly when no state
    is recorded for the path or the recorded status is "failed"; it is
    rejected when the recorded status is "success". *)
Theorem needsBackup_table (s : Backup.Service) (fs : OS.FS)
        (filePath operation : string) :
  (operation = "create" \/ operation = "modify" ->
   Backup.needsBackup s fs filePath operation = true) /\
  (operation <> "create" -> operation <> "modify" ->
   is_Some (fs !! filePath) ->
   (Backup.needsBackup s fs filePath operation = true <->
    Backup.backupState s !! filePath = None \/
    exists state, Backup.backupState s !! filePath = Some state
                  /\ Backup.Status state = "failed") /\
   (forall state, Backup.backupState s !! filePath = Some state ->
                  Backup.Status state = "success" ->
                  Backup.needsBackup s fs filePath operation = false)).
Proof.
  split.
  - intros H. apply needsBackup_iff. tauto.
  - intros H1 H2 [n Hn].
    assert (Hst : OS.Stat fs filePath <> OS.ENOENT)
      by (unfold OS.Stat; rewrite Hn; discriminate).
    assert (Hiff : Backup.needsBackup s fs filePath operation = true <->
                   Backup.backupState s !! filePath = None \/
                   exists state, Backup.backupState s !! filePath = Some state
                                 /\ Backup.Status state = "failed").
    { rewrite needsBackup_iff. split; [|tauto].
      intros [?|[?|[_ H]]]; [contradiction..|exact H]. }
    split; [exact Hiff|].
    intros state Hs Hok.
    destruct (Backup.needsBackup s fs filePath operation); [|reflexivity].
    destruct (proj1 Hiff eq_refl) as [E|(st & E & Hf)]; [congruence|].
    rewrite Hs in E. injection E as <-. rewrite Hok in Hf. discriminate.
Qed.

(** C4, the claim as stated fails: a "manual" event for a file that is on
    disk and already backed up with status "success" is rejected. *)
Lemma needsBackup_manual_rejected :
  Backup.needsBackup Scenario.backed_up Scenario.disk "/data/a.txt" "manual" = false.
Proof. vm_compute. reflexivity. Qed.

(** C3, the code at a delete event for a file that is gone from the disk:
    [ProcessChange] drops the event at the [needsBackup] gate, so no
    worker sees it, the state of the path is not set to "deleted" and no
    result is recorded. *)
Theorem deliver_delete_of_removed_file :
  let '(s', net') :=
    Backup.deliver ReferenceOS.sha256_hex ReferenceCodec.gzip_write
      ReferenceCodec.zlib_write ReferenceOS.url_ok ReferenceOS.parse_upload
      ReferenceOS.Base Scenario.tr_ok
      Scenario.backed_up ∅ Api.idle 300 (Scenario.event "delete" 0) in
  Backup.Status <$> (Backup.backupState s' !! "/data/a.txt") = Some "success"
  /\ Backup.results (Backup.reporter s') = []
  /\ s' = Scenario.backed_up.
Proof. vm_compute. auto. Qed.

(** ** The worker *)

Section WorkerFacts.
Import Backup.

Variable sha256_hex : list Z -> string.
Variable gzip_write : Z -> list Z -> list Z.
Variable zlib_write : Z -> list Z -> list Z.
Variable url_ok : string -> bool.
Variable parse_upload : list Z -> option Api.UploadData.
Variable Base : string -> string.
Variable tr : Api.transport.

Lemma updateBackupState_lookup (s : Service) (now : Z)
      (filePath status checksum : string) :
  checksum <> "" ->
  backupState (updateBackupState s now filePath status checksum) !! filePath
  = Some {| LastBackup := now;
            LastChecksum := checksum;
            BackupCount :=
              (let count := default 0 (BackupCount <$> backupState s !! filePath) in
               if String.eqb status "success" then count + 1 else count);
            Status := status |}.
Proof.
  intros Hc. unfold updateBackupState. cbn [backupState with_state].
  rewrite lookup_insert_eq.
  apply String_eqb_false in Hc. rewrite Hc. cbn [negb].
  now destruct (backupState s !! filePath).
Qed.

Lemma updateBackupState_db (s : Service) (now : Z)
      (filePath status checksum : string) (d : DB) :
  db s = Some d ->
  exists d',
    db (updateBackupState s now filePath status checksum) = Some d'
    /\ file_states d' !! filePath
       = backupState (updateBackupState s now filePath status checksum) !! filePath
    /\ backup_records d' = backup_records d.
Proof.
  intros Hd. unfold updateBackupState. rewrite Hd. cbn [db backupState with_state].
  eexists. split; [reflexivity|]. cbn [file_states backup_records UpdateFileState].
  now rewrite !lookup_insert_eq.
Qed.

End WorkerFacts.

(** What [processBackup] leaves behind on a task that reaches the upload
    (not a delete, file readable, content not already backed up,
    compression fine).  When [UploadFile] succeeds the state of the path
    has status "success", [LastChecksum] the checksum just computed and
    [BackupCount] one more than before.  When [UploadFile] fails the state
    has status "failed", [BackupCount] is unchanged, and [LastChecksum]
    is again the checksum just computed: the one recorded before is
    replaced.  Either way exactly one result is added to the reporter
    (successful with the remote id, or failed with the upload error) and
    the database row of the path follows the in-memory state. *)
Lemma processBackup_upload_outcome
    (sha256_hex : list Z -> string)
    (gzip_write zlib_write : Z -> list Z -> list Z)
    (url_ok : string -> bool)
    (parse_upload : list Z -> option Api.UploadData)
    (Base : string -> string)
    (tr : Api.transport)
    (sha256_nonempty : forall data, sha256_hex data <> "")
    (s : Backup.Service) (fs : OS.FS) (net : Api.Net) (now : Z)
    (task : Backup.BackupTask) (content uploadData : list Z)
    (uploadSize compressedSize : Z) :
  Backup.task_Operation task <> "delete" ->
  OS.ReadFile fs (Backup.task_FilePath task) = Some content ->
  (forall state,
      Backup.backupState s !! Backup.task_FilePath task = Some state ->
      Backup.LastChecksum state <> sha256_hex content) ->
  Backup.prepare gzip_write zlib_write s task content
  = inl (uploadData, uploadSize, compressedSize) ->
  let path := Backup.task_FilePath task in
  let checksum := sha256_hex content in
  let count := default 0 (Backup.BackupCount <$> Backup.backupState s !! path) in
  let upload := Api.UploadFile url_ok parse_upload Base tr (Backup.client s)
                               path uploadData uploadSize checksum net in
  let after := Backup.processBackup sha256_hex gzip_write zlib_write url_ok
                                    parse_upload Base tr s fs net now task in
  snd after = snd upload /\
  (exists result,
      Backup.results (Backup.reporter (fst after))
      = Backup.results (Backup.reporter s) ++ [result]
      /\ Backup.result_FilePath result = path
      /\ Backup.result_Checksum result = checksum
      /\ match fst upload with
         | inl uploadResp =>
             Backup.backupState (fst after) !! path
             = Some {| Backup.LastBackup := now; Backup.LastChecksum := checksum;
                       Backup.BackupCount := count + 1; Backup.Status := "success" |}
             /\ Backup.result_Success result = true
             /\ Backup.result_Error result = None
             /\ Backup.result_FileID result = Api.FileID uploadResp
         | inr e =>
             Backup.backupState (fst after) !! path
             = Some {| Backup.LastBackup := now; Backup.LastChecksum := checksum;
                       Backup.BackupCount := count; Backup.Status := "failed" |}
             /\ Backup.result_Success result = false
             /\ Backup.result_Error result = Some (Backup.ErrUploadFile e)
         end) /\
  (forall d, Backup.db s = Some d ->
     exists d', Backup.db (fst after) = Some d'
                /\ Backup.file_states d' !! path
                   = Backup.backupState (fst after) !! path).
Proof.
  intros Hop Hread Hnew Hprep path checksum count upload after.
  assert (after =
    match upload with
    | (inr e, net') =>
        (Backup.record
           (Backup.updateBackupState s now path "failed" checksum)
           (Backup.fail
              {| Backup.result_FilePath := path; Backup.result_FileID := "";
                 Backup.result_Operation := Backup.task_Operation task;
                 Backup.result_Success := false; Backup.result_Error := None;
                 Backup.result_StartTime := now; Backup.result_EndTime := 0;
                 Backup.result_Size := Backup.task_Size task;
                 Backup.result_CompressedSize := compressedSize;
                 Backup.result_Checksum := checksum;
                 Backup.result_Compressed := Backup.compression s |}
              (Backup.ErrUploadFile e) now), net')
    | (inl uploadResp, net') =>
        let s2 := Backup.record
           (Backup.updateBackupState s now path "success" checksum)
           {| Backup.result_FilePath := path;
              Backup.result_FileID := Api.FileID uploadResp;
              Backup.result_Operation := Backup.task_Operation task;
              Backup.result_Success := true; Backup.result_Error := None;
              Backup.result_StartTime := now; Backup.result_EndTime := now;
              Backup.result_Size := Backup.task_Size task;
              Backup.result_CompressedSize := compressedSize;
              Backup.result_Checksum := checksum;
              Backup.result_Compressed := Backup.compression s |} in
        (match Backup.db s2 with
         | None => s2
         | Some d =>
             match Backup.InsertBackupRecord d
                     {| Backup.record_FilePath := path;
                        Backup.record_FileID := Api.FileID uploadResp;
                        Backup.record_Checksum := checksum;
                        Backup.record_OriginalSize := Backup.task_Size task;
                        Backup.record_CompressedSize := uploadSize;
                        Backup.record_IsCompressed := Backup.compression s;
                        Backup.record_BackupTime := now;
                        Backup.record_Status := "success";
                        Backup.record_Operation := Backup.task_Operation task |} with
             | Some d' => Backup.with_db s2 (Some d')
             | None => s2
             end
         end, net')
    end) as Hafter.
  { unfold after, Backup.processBackup, Backup.calculateChecksum.
    apply String_eqb_false in Hop. rewrite Hop, Hread.
    fold path. fold checksum.
    assert (match Backup.backupState s !! path with
            | Some state => String.eqb (Backup.LastChecksum state) checksum
            | None => false
            end = false) as ->.
    { destruct (Backup.backupState s !! path) as [state|] eqn:E; [|reflexivity].
      apply String_eqb_false. now apply Hnew. }
    rewrite Hprep. fold upload. destruct upload as [[uploadResp|e] net']; reflexivity. }
  rewrite Hafter. clear Hafter after.
  pose proof (sha256_nonempty content) as Hne. fold checksum in Hne.
  destruct upload as [[uploadResp|e] net']; cbn [fst snd].
  - set (s1 := Backup.updateBackupState s now path "success" checksum).
    set (res := {| Backup.result_FilePath := path;
                   Backup.result_FileID := Api.FileID uploadResp |}).
    set (s2 := Backup.record s1 res).
    set (rec := {| Backup.record_FilePath := path |}).
    set (s3 := match Backup.db s2 with Some d => _ | None => s2 end).
    assert (Backup.backupState s3 = Backup.backupState s1
            /\ Backup.reporter s3 = Backup.reporter s2) as [Hst Hrep].
    { unfold s3. destruct (Backup.db s2) as [d|]; [|now split].
      destruct (Backup.InsertBackupRecord d rec); now split. }
    split; [reflexivity|]. split.
    + exists res. rewrite Hrep, Hst. unfold s1.
      rewrite updateBackupState_lookup by exact Hne. fold count.
      repeat split; reflexivity.
    + intros d Hd.
      destruct (updateBackupState_db s now path "success" checksum d Hd)
        as (d1 & Hd1 & Hfs & _).
      fold s1 in Hd1, Hfs. rewrite Hst. unfold s3.
      change (Backup.db s2) with (Backup.db s1). rewrite Hd1.
      unfold Backup.InsertBackupRecord.
      destruct (existsb _ _).
      * exists d1. split; [exact Hd1 | exact Hfs].
      * eexists. split; [reflexivity|]. exact Hfs.
  - set (s1 := Backup.updateBackupState s now path "failed" checksum).
    split; [reflexivity|]. split.
    + eexists. split; [reflexivity|].
      cbn [Backup.record Backup.backupState Backup.with_reporter].
      unfold s1. rewrite updateBackupState_lookup by exact Hne. fold count.
      repeat split; reflexivity.
    + intros d Hd.
      destruct (updateBackupState_db s now path "failed" checksum d Hd)
        as (d1 & Hd1 & Hfs & _).
      exists d1. split; [exact Hd1 | exact Hfs].
Qed.

Lemma ReferenceOS_sha256_nonempty (data : list Z) :
  ReferenceOS.sha256_hex data <> "".
Proof. unfold ReferenceOS.sha256_hex. discriminate. Qed.

Lemma processBackup_upload_outcome_run :
  let after := Backup.processBackup ReferenceOS.sha256_hex ReferenceCodec.gzip_write
                 ReferenceCodec.zlib_write ReferenceOS.url_ok ReferenceOS.parse_upload
                 ReferenceOS.Base Scenario.tr_ok Scenario.service Scenario.disk
                 Api.idle 300 Scenario.task in
  length (Api.sent (snd after)) = 1%nat /\
  Backup.backupState (fst after) !! "/data/a.txt"
  = Some {| Backup.LastBackup := 300; Backup.LastChecksum := "hx";
            Backup.BackupCount := 1; Backup.Status := "success" |}.
Proof.
  intros after.
  destruct (processBackup_upload_outcome ReferenceOS.sha256_hex
              ReferenceCodec.gzip_write ReferenceCodec.zlib_write ReferenceOS.url_ok
              ReferenceOS.parse_upload ReferenceOS.Base Scenario.tr_ok
              ReferenceOS_sha256_nonempty Scenario.service Scenario.disk Api.idle 300
              Scenario.task [120] [120] 1 0)
    as (Hnet & (result & _ & _ & _ & Hstate & _) & _).
  - discriminate.
  - reflexivity.
  - intros state Hs. vm_compute in Hs. discriminate Hs.
  - reflexivity.
  - fold after in Hnet, Hstate. split.
    + rewrite Hnet. reflexivity.
    + exact Hstate.
Qed.

(** C5, the code on a failed upload.  The file was backed up with content
    ["x"] (checksum on record: that of ["x"]) and has since changed to
    ["y"]; the upload of the new content is answered with status 503.
    [processBackup] marks the path "failed" and puts the checksum of
    ["y"] on record in place of the one of ["x"]: the checksum is not
    kept.  A later "modify" event for the file, with the server well
    again, passes [ProcessChange] and reaches a worker, which finds the
    recorded checksum equal to the file's and skips it: no request is
    made and the path stays "failed". *)
Theorem processBackup_failed_upload_replaces_checksum :
  let s1 := fst (Backup.processBackup ReferenceOS.sha256_hex
                   ReferenceCodec.gzip_write ReferenceCodec.zlib_write
                   ReferenceOS.url_ok ReferenceOS.parse_upload ReferenceOS.Base
                   Scenario.tr_ok Scenario.service Scenario.disk Api.idle 300
                   Scenario.task) in
  let '(s2, net2) :=
    Backup.processBackup ReferenceOS.sha256_hex ReferenceCodec.gzip_write
      ReferenceCodec.zlib_write ReferenceOS.url_ok ReferenceOS.parse_upload
      ReferenceOS.Base Scenario.tr_503 s1 Scenario.disk_y Api.idle 400
      Scenario.task in
  Backup.backupState s1 !! "/data/a.txt"
  = Some {| Backup.LastBackup := 300;
            Backup.LastChecksum := ReferenceOS.sha256_hex [120];
            Backup.BackupCount := 1; Backup.Status := "success" |} /\
  Backup.backupState s2 !! "/data/a.txt"
  = Some {| Backup.LastBackup := 400;
            Backup.LastChecksum := ReferenceOS.sha256_hex [121];
            Backup.BackupCount := 1; Backup.Status := "failed" |} /\
  ReferenceOS.sha256_hex [121] <> ReferenceOS.sha256_hex [120] /\
  length (Api.sent net2) = 1%nat /\
  Backup.needsBackup s2 Scenario.disk_y "/data/a.txt" "modify" = true /\
  Backup.deliver ReferenceOS.sha256_hex ReferenceCodec.gzip_write
    ReferenceCodec.zlib_write ReferenceOS.url_ok ReferenceOS.parse_upload
    ReferenceOS.Base Scenario.tr_ok s2 Scenario.disk_y net2 500
    (Scenario.event "modify" 1)
  = (s2, net2).
Proof. vm_compute. repeat split; auto. discriminate. Qed.

(** ** The network adapter *)

Section ClientFacts.
Import Api.

Variable url_ok : string -> bool.
Variable tr : transport.

(** The sleeps of [n] consecutive iterations starting at index [i]. *)
Lemma backoff_snoc (k : nat) :
  backoff (S k) = backoff k ++ [Z.of_nat (S k) * Z.of_nat (S k)].
Proof.
  unfold backoff. rewrite seq_S, map_app. reflexivity.
Qed.

Lemma attempts_snoc (f : nat -> Request) (k : nat) :
  map f (seq 0 (S k)) = map f (seq 0 k) ++ [f k].
Proof. rewrite seq_S, map_app. reflexivity. Qed.

(** A nil body stays nil, so without a body every attempt builds the
    same request. *)
Lemma body_at_None (start j : nat) : body_at None start j = None.
Proof. induction j as [|j IH]; [reflexivity|]. cbn [body_at]. now rewrite IH. Qed.

Lemma attempt_None (method url : string) (start j : nat) :
  attempt method url None start j = NewRequest method url None.
Proof. unfold attempt. now rewrite body_at_None. Qed.

Lemma attempts_None (method url : string) (start k : nat) :
  map (attempt method url None start) (seq 0 k)
  = replicate k (NewRequest method url None).
Proof.
  induction k as [|k IH]; [reflexivity|].
  rewrite attempts_snoc, IH, attempt_None.
  change [NewRequest method url None] with (replicate 1 (NewRequest method url None)).
  rewrite <- replicate_add. f_equal. lia.
Qed.

(** What the attempts carry: the first the whole body, each later one
    what the round trip before it left unread. *)
Lemma attempt_body (method url : string) (r : Reader) (start j : nat) :
  req_body (attempt method url (Some r) start 0) = unread r /\
  req_body (attempt method url (Some r) start (S j))
  = drop (taken r (start + j)) (req_body (attempt method url (Some r) start j)).
Proof.
  split; [reflexivity|]. unfold attempt. cbn [body_at].
  assert (H : exists data, body_at (Some r) start j
                           = Some {| unread := data; taken := taken r |}).
  { induction j as [|j [data IH]]; [destruct r; eexists; reflexivity|].
    cbn [body_at]. rewrite IH. eexists. reflexivity. }
  destruct H as [data ->]. reflexivity.
Qed.

(** One iteration of the [doRequest] loop, seen on the trace: the
    request goes out as round trip [start + i]. *)
Lemma doRequest_step (method url : string) (body0 : option Reader) (net0 : Net)
      (i : nat) :
  let start := length (sent net0) in
  let req := attempt method url body0 start in
  let net := {| sent := sent net0 ++ map req (seq 0 i);
                slept := slept net0 ++ backoff (i - 1) |} in
  let net1 := if 0 <? Z.of_nat i then Sleep (Z.of_nat i * Z.of_nat i) net else net in
  length (sent net1) = (start + i)%nat /\
  Do tr (req i) net1
  = (tr (start + i)%nat (req i),
     {| sent := sent net0 ++ map req (seq 0 (S i));
        slept := slept net0 ++ backoff i |}).
Proof.
  intros start req net net1.
  assert (Hlen : length (sent net1) = (start + i)%nat).
  { unfold net1. destruct (0 <? Z.of_nat i); cbn [Sleep sent net];
      unfold net; cbn [sent]; rewrite length_app, length_map, length_seq; reflexivity. }
  split; [exact Hlen|]. unfold Do. rewrite Hlen. f_equal.
  unfold net1. destruct i as [|i].
  - cbn [Z.of_nat Z.ltb Z.compare]. unfold net.
    cbn [sent slept seq map Nat.sub]. unfold backoff. cbn [seq map].
    rewrite !app_nil_r. reflexivity.
  - replace (0 <? Z.of_nat (S i)) with true by (symmetry; apply Z.ltb_lt; lia).
    unfold Sleep, net. cbn [sent slept].
    replace (S i - 1)%nat with i by lia.
    rewrite backoff_snoc, (attempts_snoc req (S i)), <- !app_assoc. reflexivity.
Qed.

(** One iteration of the loop, entered at iteration [i]: the round trip
    and what the loop goes on with. *)
Lemma doRequest_from_S (remaining i : nat) (c : Client) (method url : string)
      (body0 : option Reader) (lastErr : option last_error) (net0 : Net) :
  url_ok url = true ->
  let start := length (sent net0) in
  let req := attempt method url body0 start in
  let net := {| sent := sent net0 ++ map req (seq 0 i);
                slept := slept net0 ++ backoff (i - 1) |} in
  let net' := {| sent := sent net0 ++ map req (seq 0 (S i));
                 slept := slept net0 ++ backoff i |} in
  let next last :=
    doRequest_from url_ok tr remaining (Z.of_nat (S i)) c method url
                   (body_at body0 start (S i)) last net' in
  doRequest_from url_ok tr (S remaining) (Z.of_nat i) c method url
                 (body_at body0 start i) lastErr net
  = match tr (start + i)%nat (req i) with
    | TransportError => next (Some LastTransport)
    | Response status rbody =>
        if (400 <=? status) && (status <? 500) then (inl (status, rbody), net')
        else if 500 <=? status then next (Some (LastServer status))
        else (inl (status, rbody), net')
    end.
Proof.
  intros Hurl start req net net' next.
  destruct (doRequest_step method url body0 net0 i) as [Hlen Hstep].
  fold start req net in Hlen, Hstep.
  cbn [doRequest_from]. rewrite Hurl. cbn [negb].
  change (NewRequest method url (body_at body0 start i)) with (req i).
  rewrite Hstep, Hlen.
  replace (Z.of_nat i + 1) with (Z.of_nat (S i)) by lia.
  reflexivity.
Qed.



(** The loop of [doRequest] on any network: where it stops and what it
    leaves on the trace. *)
Lemma doRequest_from_trace (remaining : nat) :
  forall (i : nat) (c : Client) (method url : string) (body0 : option Reader)
         (lastErr : option last_error) (net0 : Net),
    url_ok url = true ->
    let start := length (sent net0) in
    let req := attempt method url body0 start in
    let result :=
      doRequest_from url_ok tr remaining (Z.of_nat i) c method url
        (body_at body0 start i) lastErr
        {| sent := sent net0 ++ map req (seq 0 i);
           slept := slept net0 ++ backoff (i - 1) |} in
    exists k,
      (i <= k <= i + remaining)%nat
      /\ sent (snd result) = sent net0 ++ map req (seq 0 k)
      /\ slept (snd result) = slept net0 ++ backoff (k - 1)
      /\ match fst result with
         | inl (status, rbody) =>
             (i < k)%nat /\ status < 500
             /\ tr (start + (k - 1))%nat (req (k - 1)%nat) = Response status rbody
         | inr e =>
             k = (i + remaining)%nat
             /\ exists last, e = ErrRequestFailed (retryCount c + 1) last
         end.
Proof.
  induction remaining as [|remaining IH];
    intros i c method url body0 lastErr net0 Hurl start req.
  - cbn zeta. cbn [doRequest_from fst snd sent slept].
    exists i. rewrite Nat.add_0_r. repeat split; eauto.
  - cbn zeta.
    pose proof (doRequest_from_S remaining i c method url body0 lastErr net0 Hurl)
      as Hunfold.
    cbv zeta in Hunfold. fold start req in Hunfold. rewrite Hunfold.
    assert (Hrec : forall last,
      let result :=
        doRequest_from url_ok tr remaining (Z.of_nat (S i)) c method url
          (body_at body0 start (S i)) last
          {| sent := sent net0 ++ map req (seq 0 (S i));
             slept := slept net0 ++ backoff i |} in
      exists k,
        (i <= k <= i + S remaining)%nat
        /\ sent (snd result) = sent net0 ++ map req (seq 0 k)
        /\ slept (snd result) = slept net0 ++ backoff (k - 1)
        /\ match fst result with
           | inl (status, rbody) =>
               (i < k)%nat /\ status < 500
               /\ tr (start + (k - 1))%nat (req (k - 1)%nat) = Response status rbody
           | inr e =>
               k = (i + S remaining)%nat
               /\ exists last', e = ErrRequestFailed (retryCount c + 1) last'
           end).
    { intros last. cbn zeta.
      pose proof (IH (S i) c method url body0 last net0 Hurl) as H.
      cbn zeta in H. replace (S i - 1)%nat with i in H by lia.
      fold start req in H.
      destruct H as (k & Hk & Hs & Hsl & Hres).
      exists k. split; [lia|]. split; [exact Hs|]. split; [exact Hsl|].
      destruct (fst _) as [[status rbody]|e].
      - destruct Hres as (? & ? & ?). repeat split; auto. lia.
      - destruct Hres as (-> & ?). split; [lia | assumption]. }
    cbn zeta in Hrec.
    assert (Hstop : forall status rbody,
      tr (start + i)%nat (req i) = Response status rbody -> status < 500 ->
      exists k,
        (i <= k <= i + S remaining)%nat
        /\ sent net0 ++ map req (seq 0 (S i)) = sent net0 ++ map req (seq 0 k)
        /\ slept net0 ++ backoff i = slept net0 ++ backoff (k - 1)
        /\ (i < k)%nat /\ status < 500
        /\ tr (start + (k - 1))%nat (req (k - 1)%nat) = Response status rbody).
    { intros status rbody Ht Hlt. exists (S i).
      replace (S i - 1)%nat with i by lia. repeat split; auto; lia. }
    destruct (tr (start + i)%nat (req i)) as [|status rbody] eqn:Etr.
    + apply Hrec.
    + destruct (Z.leb_spec 500 status) as [H5|H5].
      * replace ((400 <=? status) && (status <? 500)) with false
          by (symmetry; apply andb_false_iff; right; apply Z.ltb_ge; lia).
        apply Hrec.
      * destruct ((400 <=? status) && (status <? 500));
          cbn [fst snd sent slept]; apply (Hstop status rbody eq_refl H5).
Qed.

End ClientFacts.

Lemma Net_eta (net : Api.Net) (f : nat -> Api.Request) :
  {| Api.sent := Api.sent net ++ map f (seq 0 0);
     Api.slept := Api.slept net ++ Api.backoff (0 - 1) |} = net.
Proof. destruct net. cbn. now rewrite !app_nil_r. Qed.


(** The requests and sleeps of one [doRequest], and what its result says
    about them. *)
Lemma doRequest_sends
    (url_ok : string -> bool) (tr : Api.transport)
    (c : Api.Client) (method endpoint : string) (body : option Api.Reader)
    (net : Api.Net) :
  let url := Api.BaseURL c +:+ endpoint in
  let start := length (Api.sent net) in
  let req := Api.attempt method url body start in
  let result := Api.doRequest url_ok tr c method endpoint body net in
  exists k,
    (k <= Z.to_nat (Api.retryCount c + 1))%nat
    /\ Api.sent (snd result) = Api.sent net ++ map req (seq 0 k)
    /\ Api.slept (snd result) = Api.slept net ++ Api.backoff (k - 1)
    /\ match fst result with
       | inl (status, rbody) =>
           (0 < k)%nat /\ status < 500
           /\ tr (start + (k - 1))%nat (req (k - 1)%nat) = Api.Response status rbody
       | inr Api.ErrCreateRequest => k = 0%nat /\ url_ok url = false
       | inr e =>
           k = Z.to_nat (Api.retryCount c + 1)
           /\ exists last, e = Api.ErrRequestFailed (Api.retryCount c + 1) last
       end.
Proof.
  intros url start req result. unfold result, Api.doRequest. fold url.
  destruct (url_ok url) eqn:Hurl.
  - pose proof (doRequest_from_trace url_ok tr (Z.to_nat (Api.retryCount c + 1))
                  0 c method url body None net Hurl) as H.
    cbn zeta in H. rewrite Net_eta in H. change (Z.of_nat 0) with 0 in H.
    change (Api.body_at body (length (Api.sent net)) 0) with body in H.
    fold start req in H.
    destruct H as (k & Hk & Hs & Hsl & Hres).
    exists k. split; [lia|]. split; [exact Hs|]. split; [exact Hsl|].
    destruct (fst _) as [[status rbody]|e]; [exact Hres|].
    destruct Hres as (-> & last & ->). split; [reflexivity | eauto].
  - exists 0%nat. split; [lia|].
    destruct (Z.to_nat (Api.retryCount c + 1)) as [|n] eqn:En;
      cbn [Api.doRequest_from]; [|rewrite Hurl]; cbn.
    + rewrite !app_nil_r. repeat split; eauto.
    + rewrite !app_nil_r. repeat split; eauto.
Qed.




(** ** Restore *)

(** [fileExists] compares the entry's checksum with the empty string that
    [calculateFileChecksum] returns: it can only say yes to an entry
    without a checksum. *)
Lemma fileExists_true_inv (fs : OS.FS) (path checksum : string) :
  Restore.fileExists fs path checksum = true ->
  checksum = "" /\ exists content perm, fs !! path = Some (OS.File content perm).
Proof.
  unfold Restore.fileExists.
  destruct (fs !! path) as [[content perm|]|]; try discriminate.
  cbn [Restore.calculateFileChecksum fst]. intros H.
  apply String_eqb_true in H. split; [now symmetry | eauto].
Qed.

(** C2, the code on a target that already holds the file.  The restore
    directory contains [a.txt] with content ["x"], and the manifest entry
    carries the SHA-256 digest of ["x"]; [restoreFile] nevertheless
    downloads the file (one GET for its id) before counting it as
    restored. *)
Theorem restoreFile_downloads_matching_file :
  Restore.fileExists Scenario.restored "restore/a.txt"
    (Restore.Checksum Scenario.entry) = false /\
  let '(r', fs', net') :=
    Restore.restoreFile ReferenceOS.Base ReferenceOS.Dirname ReferenceOS.Join
      ReferenceOS.url_ok Scenario.tr_ok Scenario.restorer Scenario.restored
      Api.idle 400 Scenario.entry "restore" in
  map Api.req_url (Api.sent net')
  = ["https://staging.koneksi.co.kr/api/clients/v1/files/f1"]
  /\ Restore.RestoredFiles (Restore.progress r') = 1.
Proof. vm_compute. auto. Qed.

(** [MkdirAll] only ever adds directories: what was there stays, and a
    path that is new afterwards is a directory. *)
Lemma MkdirAll_from_spec (above : list string) :
  forall (fs fs1 : OS.FS) (dir : string),
    OS.MkdirAll_from fs dir above = Some fs1 ->
    fs1 !! dir = Some OS.Dir /\
    forall path, fs1 !! path = fs !! path
                 \/ (fs !! path = None /\ fs1 !! path = Some OS.Dir).
Proof.
  induction above as [|parent above IH]; intros fs fs1 dir;
    cbn [OS.MkdirAll_from]; destruct (fs !! dir) as [[c p|]|] eqn:E;
    try discriminate.
  - intros [= <-]. split; [exact E|now left].
  - intros [= <-]. split; [apply lookup_insert_eq|].
    intros path. destruct (decide (dir = path)) as [<-|Hne].
    + right. split; [exact E|apply lookup_insert_eq].
    + left. now rewrite lookup_insert_ne.
  - intros [= <-]. split; [exact E|now left].
  - destruct (OS.MkdirAll_from fs parent above) as [fs0|] eqn:Em; [|discriminate].
    apply IH in Em as [_ Hfs0].
    destruct (fs0 !! dir) as [[c p|]|] eqn:E0; try discriminate.
    + intros [= <-]. split; [exact E0|exact Hfs0].
    + intros [= <-]. split; [apply lookup_insert_eq|].
      intros path. destruct (decide (dir = path)) as [<-|Hne].
      * right. split; [exact E|apply lookup_insert_eq].
      * rewrite lookup_insert_ne by exact Hne. apply Hfs0.
Qed.

Lemma MkdirAll_dir (fs fs1 : OS.FS) (dir : string) :
  OS.MkdirAll fs dir = Some fs1 -> fs1 !! dir = Some OS.Dir.
Proof. intros H. now apply MkdirAll_from_spec in H. Qed.

Lemma MkdirAll_adds (fs fs1 : OS.FS) (dir path : string) :
  OS.MkdirAll fs dir = Some fs1 ->
  fs1 !! path = fs !! path \/ (fs !! path = None /\ fs1 !! path = Some OS.Dir).
Proof. intros H. apply MkdirAll_from_spec in H as [_ H]. apply H. Qed.


Lemma WriteFile_content (fs fs2 : OS.FS) (parent path : string) (data : list Z)
      (perm : Z) :
  OS.WriteFile fs parent path data perm = Some fs2 ->
  exists perm', fs2 !! path = Some (OS.File data perm').
Proof.
  unfold OS.WriteFile. destruct (fs !! parent) as [[c p|]|]; try discriminate.
  destruct (fs !! path) as [[c p|]|]; try discriminate;
    [destruct (OS.writable p); [|discriminate]|];
    intros [= <-]; eexists; apply lookup_insert_eq.
Qed.



(** ** The loop budgets are never exhausted *)

(** Every round of the decryption loop consumes at least the four length
    bytes, so a budget above the input length is never used up: the
    budget error is not a behaviour of [DecryptFile]. *)
Lemma decrypt_loop_budget
      (Open : list Z -> list Z -> list Z -> option (list Z)) (fuel : nat) :
  forall key nonce rest written,
    (length rest < fuel)%nat ->
    snd (Encryption.decrypt_loop Open fuel key nonce rest written)
    <> Some Encryption.ErrLoopBudget.
Proof.
  induction fuel as [|fuel IH]; intros key nonce rest written Hlen; [lia|].
  cbn [Encryption.decrypt_loop].
  destruct (ReadFull 4 rest) as [[szb rest1] st] eqn:E1.
  destruct st; [|discriminate..].
  apply ReadFull_ok_inv in E1 as (-> & -> & H4).
  destruct (ReadFull _ (drop 4 rest)) as [[chunk rest2] st] eqn:E2.
  destruct st; [|discriminate..].
  apply ReadFull_ok_inv in E2 as (-> & -> & Hn).
  destruct (Open key nonce _); [|discriminate].
  apply IH. rewrite !length_drop. lia.
Qed.

Lemma DecryptFile_budget
      (pbkdf2 : string -> list Z -> list Z)
      (Open : list Z -> list Z -> list Z -> option (list Z))
      (password : string) (input : list Z) :
  snd (Encryption.DecryptFile pbkdf2 Open password input)
  <> Some Encryption.ErrLoopBudget.
Proof.
  unfold Encryption.DecryptFile.
  destruct (ReadFull Encryption.SaltSize input) as [[salt rest] st] eqn:E1.
  destruct st; [|discriminate..].
  apply ReadFull_ok_inv in E1 as (-> & -> & H1).
  destruct (Encryption.NewCipher _); cbn [negb]; [|discriminate].
  destruct (ReadFull Encryption.NonceSize _) as [[nonce rest'] st] eqn:E2.
  destruct st; [|discriminate..].
  apply ReadFull_ok_inv in E2 as (-> & -> & H2).
  apply decrypt_loop_budget. rewrite !length_drop. lia.
Qed.

Lemma EncryptFile_budget
      (pbkdf2 : string -> list Z -> list Z)
      (Seal : list Z -> list Z -> list Z -> list Z)
      (password : string) (rand input : list Z) :
  snd (Encryption.EncryptFile pbkdf2 Seal password rand input)
  <> Some Encryption.ErrLoopBudget.
Proof.
  unfold Encryption.EncryptFile.
  destruct (ReadFull Encryption.SaltSize rand) as [[salt rand1] st].
  destruct st; [|discriminate..].
  destruct (Encryption.NewCipher _); cbn [negb]; [|discriminate].
  destruct (ReadFull Encryption.NonceSize rand1) as [[nonce rand2] st].
  destruct st; [|discriminate..].
  destruct (encrypt_loop_spec Seal (S (length input)) (pbkdf2 password salt)
              nonce input) as (log & -> & _); [lia | discriminate].
Qed.

(** ** The delete path *)

(** Whatever the service, a delete event for a path that is no longer on
    disk does not get past [ProcessChange]. *)
Lemma ProcessChange_delete_missing (s : Backup.Service) (fs : OS.FS)
      (change : Backup.FileChange) :
  Backup.Operation change = "delete" ->
  OS.Stat fs (Backup.Path change) = OS.ENOENT ->
  Backup.ProcessChange s fs change = s.
Proof.
  intros Hop Hfs. unfold Backup.ProcessChange, Backup.needsBackup.
  rewrite Hop, Hfs. cbn.
  destruct (Backup.IsDir change); [reflexivity|].
  now destruct (Backup.maxFileSize s <? Backup.Size change).
Qed.

(** The delete branch of [processBackup], for a task that does reach a
    worker: no network round trip, status "deleted", one successful
    result. *)
Lemma processBackup_delete
      (sha256_hex : list Z -> string)
      (gzip_write zlib_write : Z -> list Z -> list Z)
      (url_ok : string -> bool)
      (parse_upload : list Z -> option Api.UploadData)
      (Base : string -> string) (tr : Api.transport)
      (s : Backup.Service) (fs : OS.FS) (net : Api.Net) (now : Z)
      (task : Backup.BackupTask) :
  Backup.task_Operation task = "delete" ->
  let after := Backup.processBackup sha256_hex gzip_write zlib_write url_ok
                                    parse_upload Base tr s fs net now task in
  snd after = net /\
  Backup.Status <$> Backup.backupState (fst after) !! Backup.task_FilePath task
  = Some "deleted" /\
  exists result,
    Backup.results (Backup.reporter (fst after))
    = Backup.results (Backup.reporter s) ++ [result]
    /\ Backup.result_Success result = true.
Proof.
  intros Hop after. unfold after, Backup.processBackup. rewrite Hop.
  cbn [String.eqb Ascii.eqb Bool.eqb fst snd].
  split; [reflexivity|]. split.
  - cbn [Backup.record Backup.with_reporter Backup.backupState].
    unfold Backup.updateBackupState. cbn [Backup.with_state Backup.backupState].
    now rewrite lookup_insert_eq.
  - eexists. split; reflexivity.
Qed.

(** * Further properties of the code *)

(** ** File names of the encryption package *)

Lemma string_length_append (s1 s2 : string) :
  String.length (s1 +:+ s2) = (String.length s1 + String.length s2)%nat.
Proof.
  induction s1 as [|a s1 IH]; [reflexivity|].
  change (String a s1 +:+ s2) with (String a (s1 +:+ s2)).
  cbn [String.length Nat.add]. now rewrite IH.
Qed.

Lemma substring_append_head (s1 s2 : string) :
  String.substring 0 (String.length s1) (s1 +:+ s2) = s1.
Proof.
  induction s1 as [|a s1 IH]; [now destruct s2|].
  change (String a s1 +:+ s2) with (String a (s1 +:+ s2)).
  cbn [String.length String.substring]. now rewrite IH.
Qed.

Lemma substring_append_tail (s1 s2 : string) (m : nat) :
  String.substring (String.length s1) m (s1 +:+ s2) = String.substring 0 m s2.
Proof.
  induction s1 as [|a s1 IH]; [reflexivity|].
  change (String a s1 +:+ s2) with (String a (s1 +:+ s2)).
  cbn [String.length String.substring]. exact IH.
Qed.

(** X1.  Taking the [.enc] name of a path and then the decrypted name of
    that gives the path back, except for the empty path: [".enc"] is not
    longer than four bytes, so its decrypted name is [".enc.dec"]. *)
Theorem GetDecryptedFileName_GetEncryptedFileName (path : string) :
  Encryption.GetDecryptedFileName (Encryption.GetEncryptedFileName path)
  = if String.eqb path "" then ".enc.dec" else path.
Proof.
  destruct path as [|a path]; [reflexivity|].
  unfold Encryption.GetDecryptedFileName, Encryption.GetEncryptedFileName.
  rewrite string_length_append.
  set (p := String a path).
  replace (String.length p + String.length ".enc" - 4)%nat with (String.length p)
    by (cbn; lia).
  rewrite substring_append_tail, substring_append_head.
  replace (4 <? String.length p + String.length ".enc")%nat with true
    by (symmetry; apply Nat.ltb_lt; cbn; lia).
  reflexivity.
Qed.

(** ** The nonce counter wraps *)

Lemma incrementNonce_all_ones (n : nat) :
  Encryption.incrementNonce (replicate n 255) = replicate n 0.
Proof.
  induction n as [|n IH]; [reflexivity|].
  rewrite !replicate_S_end, incrementNonce_snoc.
  change ((255 + 1) mod 256 =? 0) with true. cbv iota. now rewrite IH.
Qed.

(** X2.  The nonce sequence of a container is periodic with period
    [256 ^ len] and no less: the nonces of chunks [i] and [j] coincide
    exactly when [i] and [j] differ by a multiple of [256 ^ len]
    ([2^96] for the twelve-byte nonce).  The counter wraps silently: the
    all-ones nonce is followed by the all-zero nonce. *)
Theorem nonce_at_period (base : list Z) (i j : nat) :
  bytes base ->
  (Encryption.nonce_at base i = Encryption.nonce_at base j
   <-> (Z.of_nat i - Z.of_nat j) mod 256 ^ Z.of_nat (length base) = 0)
  /\ Encryption.incrementNonce (replicate (length base) 255)
     = replicate (length base) 0.
Proof.
  intros Hb. split; [|apply incrementNonce_all_ones].
  set (M := 256 ^ Z.of_nat (length base)).
  assert (0 < M) as HM by (unfold M; lia).
  split.
  - intros E. apply (f_equal be_value) in E.
    rewrite !nonce_at_value in E by exact Hb. fold M in E.
    replace (Z.of_nat i - Z.of_nat j)
      with ((be_value base + Z.of_nat i) - (be_value base + Z.of_nat j)) by lia.
    rewrite Zminus_mod, E, Z.sub_diag. reflexivity.
  - intros E. apply be_value_inj.
    + now apply nonce_at_bytes.
    + now apply nonce_at_bytes.
    + now rewrite !nonce_at_length.
    + rewrite !nonce_at_value by exact Hb. fold M.
      apply Z.mod_divide in E; [|lia]. destruct E as [q Hq].
      replace (be_value base + Z.of_nat i)
        with (be_value base + Z.of_nat j + q * M) by lia.
      apply Z_mod_plus_full.
Qed.

Lemma nonce_at_period_witness :
  Encryption.nonce_at [255] 3 = Encryption.nonce_at [255] 259.
Proof.
  apply (proj1 (nonce_at_period [255] 3 259
                  ltac:(repeat constructor; unfold is_byte; lia))).
  reflexivity.
Defined.

(** ** Size and damage of a container *)

Lemma chunks_of_0 : Encryption.chunks_of 0 = 0%nat.
Proof. reflexivity. Qed.

Lemma chunks_of_step (n : nat) :
  (0 < n)%nat ->
  Encryption.chunks_of n = S (Encryption.chunks_of (n - Encryption.chunkSize)).
Proof.
  intros Hn. unfold Encryption.chunks_of.
  pose proof chunkSize_pos as Hc.
  set (c := Encryption.chunkSize) in *.
  destruct (Nat.lt_ge_cases n c) as [Hlt|Hge].
  - replace (n - c)%nat with 0%nat by lia.
    replace (n + (c - 1))%nat with ((n - 1) + 1 * c)%nat by lia.
    rewrite Nat.div_add by lia.
    rewrite (Nat.div_small (n - 1)) by lia.
    rewrite (Nat.div_small (0 + (c - 1))) by lia. reflexivity.
  - replace (n + (c - 1))%nat with ((n - c + (c - 1)) + 1 * c)%nat by lia.
    rewrite Nat.div_add by lia. lia.
Qed.

Lemma encrypt_loop_count
      (Seal : list Z -> list Z -> list Z -> list Z) (fuel : nat) :
  forall key nonce rest out log,
    Encryption.encrypt_loop Seal fuel key nonce rest = Some (out, log) ->
    length log = Encryption.chunks_of (length rest).
Proof.
  induction fuel as [|fuel IH]; intros key nonce rest out log; [discriminate|].
  cbn [Encryption.encrypt_loop].
  destruct (Nat.eqb_spec (length (take Encryption.chunkSize rest)) 0) as [E|E].
  - intros [= <- <-]. apply take_chunk_nil in E. now subst rest.
  - destruct (Encryption.encrypt_loop Seal fuel key _ _) as [[out' log']|] eqn:EL;
      [|discriminate].
    intros [= <- <-]. cbn [length]. rewrite (IH _ _ _ _ _ EL), length_drop.
    symmetry. apply chunks_of_step.
    destruct rest; [now cbn in E | cbn; lia].
Qed.

Lemma frames_total_length
      (Seal : list Z -> list Z -> list Z -> list Z)
      (Seal_length : forall key nonce plaintext,
          length (Seal key nonce plaintext) = (length plaintext + 16)%nat)
      (key : list Z) (log : list Encryption.sealed) :
  length (concat (map (Encryption.frame Seal key) log))
  = (length (concat (map Encryption.seal_plain log)) + 20 * length log)%nat.
Proof.
  induction log as [|s log IH]; [reflexivity|].
  cbn [map concat length]. rewrite !length_app, IH.
  rewrite (frame_length Seal Seal_length). lia.
Qed.

(** X3.  The size of a container: 44 bytes of salt and nonce base, the
    input, and 20 bytes (length prefix and tag) for each of the
    [ceil(len / 4096)] chunks.  An empty input makes no chunk at all. *)
Theorem EncryptFile_container_length
    (pbkdf2 : string -> list Z -> list Z)
    (Seal : list Z -> list Z -> list Z -> list Z)
    (Seal_length : forall key nonce plaintext,
        length (Seal key nonce plaintext) = (length plaintext + 16)%nat)
    (password : string) (rand input out : list Z)
    (log : list Encryption.sealed) :
  Encryption.EncryptFile pbkdf2 Seal password rand input = (out, log, None) ->
  length log = Encryption.chunks_of (length input) /\
  length out
  = (44 + length input + 20 * Encryption.chunks_of (length input))%nat.
Proof.
  intros HE.
  assert (length log = Encryption.chunks_of (length input)) as Hn.
  { revert HE. unfold Encryption.EncryptFile.
    destruct (ReadFull Encryption.SaltSize rand) as [[salt rand1] st].
    destruct st; [|discriminate..].
    destruct (Encryption.NewCipher _); cbn [negb]; [|discriminate].
    destruct (ReadFull Encryption.NonceSize rand1) as [[nonce rand2] st].
    destruct st; [|discriminate..].
    destruct (Encryption.encrypt_loop _ _ _ _ _) as [[out' log']|] eqn:EL;
      [|discriminate].
    intros [= <- <-]. eapply encrypt_loop_count, EL. }
  split; [exact Hn|].
  apply EncryptFile_ok_inv in HE as (Hl1 & Hl2 & _ & -> & _ & Hp).
  rewrite !length_app, Hl1, Hl2, (frames_total_length Seal Seal_length), Hp, Hn.
  unfold Encryption.SaltSize, Encryption.NonceSize. lia.
Qed.

Lemma EncryptFile_container_length_witness :
  length Sample.container = 4181%nat.
Proof.
  rewrite (proj2 (EncryptFile_container_length Reference.pbkdf2 Reference.Seal
                    Reference_Seal_length "p1" Sample.rand Sample.file
                    Sample.container Sample.seals Sample_EncryptFile)).
  vm_compute. reflexivity.
Defined.

(** The decryption loop on whole frames followed by anything. *)
Lemma decrypt_loop_frames_then
      (Seal : list Z -> list Z -> list Z -> list Z)
      (Open : list Z -> list Z -> list Z -> option (list Z))
      (Open_Seal : forall key nonce plaintext,
          Open key nonce (Seal key nonce plaintext) = Some plaintext)
      (Seal_length : forall key nonce plaintext,
          length (Seal key nonce plaintext) = (length plaintext + 16)%nat)
      (key : list Z) (log : list Encryption.sealed) :
  forall fuel nonce written tail,
    Encryption.scheduled nonce log ->
    Encryption.decrypt_loop Open (length log + fuel) key nonce
      (concat (map (Encryption.frame Seal key) log) ++ tail) written
    = Encryption.decrypt_loop Open fuel key
        (Encryption.nonce_at nonce (length log)) tail
        (written ++ concat (map Encryption.seal_plain log)).
Proof.
  induction log as [|s log IH]; intros fuel nonce written tail Hs.
  - cbn. now rewrite app_nil_r.
  - destruct Hs as (Hn & Hl & Hs). cbn [map concat length Nat.add].
    rewrite <- app_assoc.
    rewrite (decrypt_loop_frame Seal Open Open_Seal Seal_length) by assumption.
    rewrite IH by exact Hs. rewrite nonce_at_succ. now rewrite <- app_assoc.
Qed.

(** X4.  A damaged chunk does not leave the output empty.  Keep the first
    [j] frames of a container and let the next frame carry a ciphertext
    that does not authenticate under the nonce of chunk [j]:
    [DecryptFile] stops there with the decryption error, and the output
    file holds the plaintext of the [j] chunks before it. *)
Theorem DecryptFile_damaged_chunk
    (pbkdf2 : string -> list Z -> list Z)
    (Seal : list Z -> list Z -> list Z -> list Z)
    (Open : list Z -> list Z -> list Z -> option (list Z))
    (Open_Seal : forall key nonce plaintext,
        Open key nonce (Seal key nonce plaintext) = Some plaintext)
    (Seal_length : forall key nonce plaintext,
        length (Seal key nonce plaintext) = (length plaintext + 16)%nat)
    (password : string) (rand input out : list Z)
    (log : list Encryption.sealed) (j : nat) (damaged tail : list Z) :
  Encryption.EncryptFile pbkdf2 Seal password rand input = (out, log, None) ->
  (j <= length log)%nat ->
  let key := pbkdf2 password (take 32 out) in
  let base := take 12 (drop 32 out) in
  Open key (Encryption.nonce_at base j) damaged = None ->
  Z.of_nat (length damaged) < 2 ^ 32 ->
  Encryption.DecryptFile pbkdf2 Open password
    (take 44 out
     ++ concat (map (Encryption.frame Seal key) (take j log))
     ++ Encryption.chunkSizeBytes (Z.of_nat (length damaged)) ++ damaged ++ tail)
  = (concat (map Encryption.seal_plain (take j log)),
     Some Encryption.ErrDecryptChunk).
Proof.
  intros HE Hj key base Hbad Hlen.
  apply EncryptFile_ok_inv in HE as (Hl1 & Hl2 & HK & Hout & Hs & _).
  set (salt := take Encryption.SaltSize rand) in *.
  set (nonce := take Encryption.NonceSize (drop Encryption.SaltSize rand)) in *.
  assert (take 32 out = salt) as Esalt.
  { rewrite Hout. rewrite take_app_length'; [reflexivity | now rewrite Hl1]. }
  assert (base = nonce) as Ebase.
  { unfold base. rewrite Hout. rewrite drop_app_length' by now rewrite Hl1.
    rewrite take_app_length'; [reflexivity | now rewrite Hl2]. }
  assert (take 44 out = salt ++ nonce) as E44.
  { rewrite Hout, app_assoc. rewrite take_app_length'; [reflexivity|].
    rewrite length_app, Hl1, Hl2. reflexivity. }
  unfold key in *. rewrite Esalt in *. rewrite Ebase in Hbad. clear key base Ebase.
  set (key := pbkdf2 password salt) in *.
  rewrite E44, <- app_assoc.
  unfold Encryption.DecryptFile.
  rewrite ReadFull_app by exact Hl1. fold key. rewrite HK. cbn [negb].
  rewrite ReadFull_app by exact Hl2.
  set (rest := _ ++ _ ++ damaged ++ tail).
  assert (exists fuel, S (length (salt ++ nonce ++ rest))
                       = (length (take j log) + S fuel)%nat) as [fuel ->].
  { exists (length (salt ++ nonce ++ rest) - length (take j log))%nat.
    pose proof (frames_length_ge Seal Seal_length key (take j log)).
    unfold rest. rewrite !length_app in *. lia. }
  unfold rest.
  rewrite (decrypt_loop_frames_then Seal Open Open_Seal Seal_length)
    by now apply scheduled_take.
  cbn [Encryption.decrypt_loop app].
  rewrite ReadFull_app by apply chunkSizeBytes_length.
  rewrite chunkSizeOf_chunkSizeBytes, Nat2Z.id by lia.
  rewrite ReadFull_app by reflexivity.
  rewrite length_take, Nat.min_l by exact Hj. now rewrite Hbad.
Qed.

Lemma DecryptFile_damaged_chunk_witness :
  Encryption.DecryptFile Reference.pbkdf2 Reference.Open "p1"
    (take 4160 Sample.container ++ [0; 0; 0; 17] ++ replicate 17 0)
  = (replicate 4096 65, Some Encryption.ErrDecryptChunk).
Proof.
  pose proof (DecryptFile_damaged_chunk Reference.pbkdf2 Reference.Seal
                Reference.Open Reference_Open_Seal Reference_Seal_length
                "p1" Sample.rand Sample.file Sample.container Sample.seals
                1 (replicate 17 0) [] Sample_EncryptFile) as H.
  cbn zeta in H.
  assert (1 <= length Sample.seals)%nat as H1
    by (apply Nat.leb_le; vm_compute; reflexivity).
  specialize (H H1 ltac:(vm_compute; reflexivity) ltac:(vm_compute; reflexivity)).
  etransitivity; [|etransitivity; [exact H|]].
  - vm_compute. reflexivity.
  - vm_compute. reflexivity.
Defined.

(** X5.  An encrypted file shorter than the 44 bytes of salt and nonce
    base is rejected before anything is written: with the error of the
    salt read when it has fewer than 32 bytes, of the cipher or the nonce
    read otherwise. *)
Theorem DecryptFile_short_input
    (pbkdf2 : string -> list Z -> list Z)
    (Open : list Z -> list Z -> list Z -> option (list Z))
    (password : string) (input : list Z) :
  (length input < 44)%nat ->
  let result := Encryption.DecryptFile pbkdf2 Open password input in
  fst result = [] /\
  (if (length input <? 32)%nat
   then snd result = Some Encryption.ErrReadSalt
   else snd result = Some Encryption.ErrCreateCipher
        \/ snd result = Some Encryption.ErrReadNonce).
Proof.
  intros Hlen. cbn zeta. unfold Encryption.DecryptFile.
  destruct (Nat.ltb_spec (length input) 32) as [H32|H32].
  - destruct (ReadFull_short Encryption.SaltSize input) as (got & st & -> & Hst);
      [unfold Encryption.SaltSize; lia|].
    destruct st; [congruence | now split | now split].
  - assert (ReadFull Encryption.SaltSize input
            = (take Encryption.SaltSize input, drop Encryption.SaltSize input, io_ok))
      as ->.
    { unfold ReadFull.
      destruct (Nat.leb_spec Encryption.SaltSize (length input));
        [reflexivity | unfold Encryption.SaltSize in *; lia]. }
    destruct (Encryption.NewCipher _); cbn [negb]; [|split; [reflexivity | now left]].
    destruct (ReadFull_short Encryption.NonceSize
                (drop Encryption.SaltSize input)) as (got & st & -> & Hst).
    { rewrite length_drop. unfold Encryption.SaltSize, Encryption.NonceSize. lia. }
    destruct st; [congruence | split; [reflexivity | now right]..].
Qed.

Lemma DecryptFile_short_input_witness :
  fst (Encryption.DecryptFile Reference.pbkdf2 Reference.Open "p1"
         (take 43 Sample.container)) = [].
Proof.
  refine (proj1 (DecryptFile_short_input Reference.pbkdf2 Reference.Open "p1"
                   (take 43 Sample.container) _)).
  rewrite length_take. lia.
Defined.

(** ** More on the network adapter *)

(** X6.  [UploadFile] makes a single attempt whatever the network does:
    it never sleeps, and it hands exactly one request to the HTTP client,
    a POST carrying the base name of the path and the data, or none at
    all when the URL is refused. *)
Theorem UploadFile_single_attempt
    (url_ok : string -> bool) (parse_upload : list Z -> option Api.UploadData)
    (Base : string -> string) (tr : Api.transport)
    (c : Api.Client) (filePath : string) (fileData : list Z) (size : Z)
    (checksum : string) (net : Api.Net) :
  let result := Api.UploadFile url_ok parse_upload Base tr c filePath fileData
                               size checksum net in
  Api.slept (snd result) = Api.slept net /\
  if url_ok (Api.BaseURL c +:+ "/api/clients/v1/files") then
    exists req,
      Api.sent (snd result) = Api.sent net ++ [req]
      /\ Api.req_method req = "POST"
      /\ Api.req_file req = Some (Base filePath, fileData)
  else result = (inr Api.ErrCreateRequest, net).
Proof.
  cbn zeta. unfold Api.UploadFile.
  destruct (url_ok _); cbn [negb]; [|now split].
  unfold Api.Do.
  destruct (tr _ _) as [|status body].
  - split; [reflexivity|]. eexists. repeat split.
  - destruct (negb (status =? 200) && negb (status =? 201)).
    + split; [reflexivity|]. eexists. repeat split.
    + destruct (parse_upload body); (split; [reflexivity|]); eexists; repeat split.
Qed.

(** X7.  [UploadFile] succeeds exactly when the one response has status
    200 or 201 and its body parses; the file id it reports is the [id] of
    the response or, when that is empty, its [hash] (and empty when both
    are). *)
Theorem UploadFile_success
    (url_ok : string -> bool) (parse_upload : list Z -> option Api.UploadData)
    (Base : string -> string) (tr : Api.transport)
    (c : Api.Client) (filePath : string) (fileData : list Z) (size : Z)
    (checksum : string) (net : Api.Net) (resp : Api.FileUploadResponse) :
  let result := Api.UploadFile url_ok parse_upload Base tr c filePath fileData
                               size checksum net in
  fst result = inl resp <->
  url_ok (Api.BaseURL c +:+ "/api/clients/v1/files") = true /\
  exists req status body d,
    Api.sent (snd result) = Api.sent net ++ [req]
    /\ tr (length (Api.sent net)) req = Api.Response status body
    /\ (status = 200 \/ status = 201)
    /\ parse_upload body = Some d
    /\ resp = {| Api.FileID := if String.eqb (Api.data_id d) ""
                               then Api.data_hash d else Api.data_id d;
                 Api.FileName := Api.data_name d;
                 Api.UploadSize := Api.data_size d;
                 Api.UploadStatus := Api.data_status d |}.
Proof.
  cbn zeta. unfold Api.UploadFile.
  destruct (url_ok _); cbn [negb].
  2:{ split; [discriminate | intros [? _]; discriminate]. }
  unfold Api.Do. cbn [Api.sent].
  set (req := {| Api.req_method := "POST" |}).
  destruct (tr (length (Api.sent net)) req) as [|status body] eqn:Etr.
  { split; [discriminate|].
    intros (_ & req' & st & bd & d & Hs & Ht & _).
    apply app_inv_head in Hs. injection Hs as <-. congruence. }
  destruct (Z.eqb_spec status 200) as [E2|E2];
    destruct (Z.eqb_spec status 201) as [E1|E1]; cbn [negb andb];
    try (destruct (parse_upload body) as [d|] eqn:Ep; cbn [fst snd Api.sent]).
  all: split.
  all: try discriminate.
  all: try (intros [= <-]; split; [reflexivity|];
            exists req, status, body, d; repeat split; auto).
  all: intros (_ & req' & st & bd & d' & Hs & Ht & Hst & Hp & ->);
       apply app_inv_head in Hs; injection Hs as <-;
       rewrite Etr in Ht; injection Ht as <- <-;
       try (rewrite Ep in Hp; try discriminate; injection Hp as <-; reflexivity);
       lia.
Qed.

(** X8.  Whatever the network does, [doRequest] builds and sends [k]
    requests, with [k] at most [retryCount + 1] (and 0 when [retryCount]
    is negative or the URL is refused), and sleeps [1, 4, ..., (k-1)^2]
    seconds in between.  All of them have the method and URL asked for.
    Without a body they are one and the same request; a body is never
    rewound, so the first request carries it whole and each retry only
    what the round trips before it left unread: nothing at all once the
    client has read the body to its end.  A response it returns is the
    one to its last request and has a status below 500; an error after
    requests means that all [retryCount + 1] attempts were made. *)
Theorem doRequest_trace
    (url_ok : string -> bool) (tr : Api.transport)
    (c : Api.Client) (method endpoint : string) (body : option Api.Reader)
    (net : Api.Net) :
  let url := Api.BaseURL c +:+ endpoint in
  let start := length (Api.sent net) in
  let req := Api.attempt method url body start in
  let result := Api.doRequest url_ok tr c method endpoint body net in
  (exists k,
    (k <= Z.to_nat (Api.retryCount c + 1))%nat
    /\ Api.sent (snd result) = Api.sent net ++ map req (seq 0 k)
    /\ Api.slept (snd result) = Api.slept net ++ Api.backoff (k - 1)
    /\ match fst result with
       | inl (status, rbody) =>
           (0 < k)%nat /\ status < 500
           /\ tr (start + (k - 1))%nat (req (k - 1)%nat) = Api.Response status rbody
       | inr Api.ErrCreateRequest => k = 0%nat /\ url_ok url = false
       | inr e =>
           k = Z.to_nat (Api.retryCount c + 1)
           /\ exists last, e = Api.ErrRequestFailed (Api.retryCount c + 1) last
       end) /\
  (forall j, Api.req_method (req j) = method /\ Api.req_url (req j) = url) /\
  (body = None -> forall j, req j = Api.NewRequest method url None) /\
  (forall r, body = Some r ->
     Api.req_body (req 0%nat) = Api.unread r /\
     (forall j, Api.req_body (req (S j))
                = drop (Api.taken r (start + j)) (Api.req_body (req j))) /\
     ((length (Api.unread r) <= Api.taken r start)%nat ->
      forall j, Api.req_body (req (S j)) = [])).
Proof.
  intros url start req result.
  split; [exact (doRequest_sends url_ok tr c method endpoint body net)|].
  split; [intros j; split; reflexivity|]. split.
  - intros -> j. apply attempt_None.
  - intros r ->.
    assert (Hstep : forall j, Api.req_body (req (S j))
                    = drop (Api.taken r (start + j)) (Api.req_body (req j)))
      by (intros j; apply (attempt_body method url r start j)).
    split; [reflexivity|]. split; [exact Hstep|].
    intros Hall j. induction j as [|j IH].
    + rewrite Hstep, Nat.add_0_r. apply drop_ge. exact Hall.
    + rewrite Hstep, IH. apply drop_nil.
Qed.

(** X9.  [DownloadFile] sends at most [2 * (retryCount + 1)] requests,
    whether it succeeds or fails: the attempts at the file endpoint and,
    after a 400, those at the [/download] endpoint.  What it hands back
    on success is always the body of a response with status 200 that one
    of its requests received. *)
Theorem DownloadFile_result
    (url_ok : string -> bool) (tr : Api.transport)
    (c : Api.Client) (fileID : string) (net : Api.Net) :
  let result := Api.DownloadFile url_ok tr c fileID net in
  (length (Api.sent (snd result))
   <= length (Api.sent net) + 2 * Z.to_nat (Api.retryCount c + 1))%nat /\
  (length (Api.sent net) <= length (Api.sent (snd result)))%nat /\
  forall body,
    fst result = inl body ->
    exists n req,
      Api.sent (snd result) !! n = Some req
      /\ (length (Api.sent net) <= n)%nat
      /\ tr n req = Api.Response 200 body.
Proof.
  cbn zeta. unfold Api.DownloadFile.
  set (e1 := "/api/clients/v1/files/" +:+ fileID).
  set (e2 := "/api/clients/v1/files/" +:+ fileID +:+ "/download").
  pose proof (doRequest_sends url_ok tr c "GET" e1 None net) as H1. cbn zeta in H1.
  destruct H1 as (k1 & Hk1 & Hs1 & _ & Hr1).
  rewrite attempts_None in Hs1. rewrite attempt_None in Hr1.
  set (req1 := Api.NewRequest "GET" (Api.BaseURL c +:+ e1) None) in *.
  destruct (Api.doRequest url_ok tr c "GET" e1 None net) as [[[status bd]|err] net1];
    cbn [fst snd] in *.
  2:{ rewrite Hs1, length_app, length_replicate.
      split; [lia|]. split; [lia|]. discriminate. }
  destruct Hr1 as (Hpos1 & _ & Ht1).
  assert (Api.sent net1 !! (length (Api.sent net) + (k1 - 1))%nat = Some req1) as Hl1.
  { rewrite Hs1, lookup_app_r by lia.
    replace (length (Api.sent net) + (k1 - 1) - length (Api.sent net))%nat
      with (k1 - 1)%nat by lia.
    apply lookup_replicate_2. lia. }
  assert (Hlen1 : length (Api.sent net1) = (length (Api.sent net) + k1)%nat)
    by (rewrite Hs1, length_app, length_replicate; reflexivity).
  destruct (Z.eqb_spec status 200) as [->|Hne]; cbn [negb].
  - cbn [fst snd]. split; [lia|]. split; [lia|]. intros body [= <-].
    exists (length (Api.sent net) + (k1 - 1))%nat, req1.
    split; [exact Hl1|]. split; [lia | exact Ht1].
  - destruct (Z.eqb_spec status 400) as [->|Hne4].
    2:{ cbn [fst snd]. split; [lia|]. split; [lia|]. discriminate. }
    pose proof (doRequest_sends url_ok tr c "GET" e2 None net1) as H2. cbn zeta in H2.
    destruct H2 as (k2 & Hk2 & Hs2 & _ & Hr2).
    rewrite attempts_None in Hs2. rewrite attempt_None in Hr2.
    set (req2 := Api.NewRequest "GET" (Api.BaseURL c +:+ e2) None) in *.
    assert (Hlen2 : forall net2, Api.sent net2 = Api.sent net1 ++ replicate k2 req2 ->
                    length (Api.sent net2) = (length (Api.sent net) + k1 + k2)%nat)
      by (intros net2 ->; rewrite length_app, length_replicate; lia).
    destruct (Api.doRequest url_ok tr c "GET" e2 None net1)
      as [[[status2 bd2]|err] net2]; cbn [fst snd] in *.
    2:{ rewrite (Hlen2 _ Hs2). split; [lia|]. split; [lia|]. discriminate. }
    destruct Hr2 as (Hpos2 & _ & Ht2).
    destruct (Z.eqb_spec status2 200) as [->|Hne2]; cbn [fst snd].
    2:{ rewrite (Hlen2 _ Hs2). split; [lia|]. split; [lia|]. discriminate. }
    rewrite (Hlen2 _ Hs2). split; [lia|]. split; [lia|]. intros body [= <-].
    exists (length (Api.sent net1) + (k2 - 1))%nat, req2.
    split; [|split; [lia|exact Ht2]].
    rewrite Hs2, lookup_app_r by lia.
    replace (length (Api.sent net1) + (k2 - 1) - length (Api.sent net1))%nat
      with (k2 - 1)%nat by lia.
    apply lookup_replicate_2. lia.
Qed.

Lemma DownloadFile_result_witness :
  exists n req,
    Api.sent (snd (Api.DownloadFile ReferenceOS.url_ok Scenario.tr_400_then_ok
                     Scenario.api "f1" Api.idle)) !! n = Some req
    /\ (0 <= n)%nat
    /\ Scenario.tr_400_then_ok n req = Api.Response 200 [120].
Proof.
  exact (proj2 (proj2 (DownloadFile_result ReferenceOS.url_ok
                         Scenario.tr_400_then_ok Scenario.api "f1" Api.idle))
               [120] eq_refl).
Defined.

(** ** More on the backup service *)

(** X10.  [ProcessChange] only ever touches the queue: it leaves the
    backup states, the reporter and the database alone, and either keeps
    the queue or appends one task that copies the event.  It keeps the
    queue within its capacity of 1000, and it drops the event, leaving
    the service as it was, when the path is a directory, the file is
    larger than [maxFileSize] or the queue is full, even for a "create"
    event. *)
Theorem ProcessChange_queue (s : Backup.Service) (fs : OS.FS)
        (change : Backup.FileChange) :
  let s' := Backup.ProcessChange s fs change in
  let task := {| Backup.task_FilePath := Backup.Path change;
                 Backup.task_Operation := Backup.Operation change;
                 Backup.task_Timestamp := Backup.Timestamp change;
                 Backup.task_Size := Backup.Size change;
                 Backup.task_IsDir := Backup.IsDir change |} in
  (s' = s \/ s' = Backup.with_queue s (Backup.backupQueue s ++ [task])) /\
  Backup.backupState s' = Backup.backupState s /\
  Backup.reporter s' = Backup.reporter s /\
  Backup.db s' = Backup.db s /\
  ((length (Backup.backupQueue s) <= 1000)%nat ->
   (length (Backup.backupQueue s') <= 1000)%nat) /\
  (Backup.IsDir change = true \/ Backup.maxFileSize s < Backup.Size change
   \/ (1000 <= length (Backup.backupQueue s))%nat -> s' = s).
Proof.
  cbn zeta. unfold Backup.ProcessChange.
  destruct (Backup.IsDir change) eqn:Ed.
  { repeat split; auto. }
  destruct (Z.ltb_spec (Backup.maxFileSize s) (Backup.Size change)) as [Hz|Hz].
  { repeat split; auto. }
  destruct (Backup.needsBackup s fs _ _); cbn [negb].
  2:{ repeat split; auto. }
  unfold Backup.queueCapacity.
  destruct (Nat.ltb_spec (length (Backup.backupQueue s)) 1000) as [Hq|Hq].
  - split; [now right|]. repeat split.
    + intros _. cbn [Backup.with_queue Backup.backupQueue].
      rewrite length_app. cbn [length]. lia.
    + intros [?|[?|?]]; [discriminate | lia | lia].
  - repeat split; auto.
Qed.

Lemma updateBackupState_other (s : Backup.Service) (now : Z)
      (filePath status checksum other : string) :
  other <> filePath ->
  Backup.backupState (Backup.updateBackupState s now filePath status checksum) !! other
  = Backup.backupState s !! other.
Proof.
  intros Hne. unfold Backup.updateBackupState.
  cbn [Backup.backupState Backup.with_state]. now rewrite lookup_insert_ne.
Qed.

Lemma updateBackupState_count (s : Backup.Service) (now : Z)
      (filePath status checksum p : string) (st : Backup.FileBackupState) :
  Backup.backupState s !! p = Some st ->
  exists st',
    Backup.backupState (Backup.updateBackupState s now filePath status checksum) !! p
    = Some st'
    /\ Backup.BackupCount st <= Backup.BackupCount st' <= Backup.BackupCount st + 1.
Proof.
  intros Hp. destruct (decide (p = filePath)) as [->|Hne].
  - unfold Backup.updateBackupState. cbn [Backup.backupState Backup.with_state].
    rewrite lookup_insert_eq, Hp. eexists. split; [reflexivity|].
    cbn [Backup.BackupCount]. destruct (String.eqb status "success"); lia.
  - rewrite updateBackupState_other by exact Hne. exists st. split; [exact Hp | lia].
Qed.

(** What [processBackup] does to the parts of the service other than the
    reporter and the database, branch by branch: the backup states are
    those of the service or of one [updateBackupState] on the task's
    path. *)
Lemma processBackup_state
      (sha256_hex : list Z -> string)
      (gzip_write zlib_write : Z -> list Z -> list Z)
      (url_ok : string -> bool)
      (parse_upload : list Z -> option Api.UploadData)
      (Base : string -> string) (tr : Api.transport)
      (s : Backup.Service) (fs : OS.FS) (net : Api.Net) (now : Z)
      (task : Backup.BackupTask) :
  let s' := fst (Backup.processBackup sha256_hex gzip_write zlib_write url_ok
                   parse_upload Base tr s fs net now task) in
  Backup.backupQueue s' = Backup.backupQueue s /\
  (Backup.backupState s' = Backup.backupState s \/
   exists status checksum,
     Backup.backupState s'
     = Backup.backupState
         (Backup.updateBackupState s now (Backup.task_FilePath task) status checksum)) /\
  (Backup.results (Backup.reporter s') = Backup.results (Backup.reporter s) \/
   exists result,
     Backup.results (Backup.reporter s')
     = Backup.results (Backup.reporter s) ++ [result]
     /\ Backup.result_FilePath result = Backup.task_FilePath task).
Proof.
  cbn zeta. unfold Backup.processBackup.
  destruct (String.eqb (Backup.task_Operation task) "delete").
  { cbn [fst]. split; [reflexivity|]. split; [right; eauto|].
    right. eexists. split; reflexivity. }
  destruct (Backup.calculateChecksum sha256_hex fs _) as [checksum|].
  2:{ cbn [fst]. split; [reflexivity|]. split; [now left|].
      right. eexists. split; reflexivity. }
  destruct (match Backup.backupState s !! Backup.task_FilePath task with
            | Some state => String.eqb (Backup.LastChecksum state) checksum
            | None => false end).
  { cbn [fst]. split; [reflexivity|]. split; now left. }
  destruct (OS.ReadFile fs _) as [content|].
  2:{ cbn [fst]. split; [reflexivity|]. split; [now left|].
      right. eexists. split; reflexivity. }
  destruct (Backup.prepare gzip_write zlib_write s task content)
    as [[[uploadData uploadSize] compressedSize]|e].
  2:{ cbn [fst]. split; [reflexivity|]. split; [now left|].
      right. eexists. split; reflexivity. }
  destruct (Api.UploadFile _ _ _ _ _ _ _ _ _ _) as [[uploadResp|e] net'].
  - cbn [fst].
    set (s1 := Backup.updateBackupState s now _ "success" checksum).
    set (s2 := Backup.record s1 _).
    assert (forall s3, s3 = s2 \/ (exists d, s3 = Backup.with_db s2 d) ->
              Backup.backupQueue s3 = Backup.backupQueue s
              /\ Backup.backupState s3 = Backup.backupState s1
              /\ Backup.reporter s3 = Backup.reporter s2) as H3.
    { intros s3 [->|[d ->]]; repeat split. }
    match goal with
    | |- context [Backup.backupQueue ?x] =>
        destruct (H3 x) as (Hq & Hst & Hrep)
    end.
    { destruct (Backup.db s2) as [d|]; [|now left].
      destruct (Backup.InsertBackupRecord d _); [right; eauto | now left]. }
    rewrite Hq, Hst, Hrep. split; [reflexivity|]. split; [right; eauto|].
    right. eexists. split; reflexivity.
  - cbn [fst]. split; [reflexivity|]. split; [right; eauto|].
    right. eexists. split; reflexivity.
Qed.

(** X11.  [processBackup] is local to its task: the queue is not touched,
    the state of every other path is as before, no state is ever
    removed, the backup count of a path never goes down and rises by at
    most one, and at most one result, for the task's path, is added to
    the reporter. *)
Theorem processBackup_frame
    (sha256_hex : list Z -> string)
    (gzip_write zlib_write : Z -> list Z -> list Z)
    (url_ok : string -> bool)
    (parse_upload : list Z -> option Api.UploadData)
    (Base : string -> string) (tr : Api.transport)
    (s : Backup.Service) (fs : OS.FS) (net : Api.Net) (now : Z)
    (task : Backup.BackupTask) :
  let s' := fst (Backup.processBackup sha256_hex gzip_write zlib_write url_ok
                   parse_upload Base tr s fs net now task) in
  Backup.backupQueue s' = Backup.backupQueue s /\
  (forall p, p <> Backup.task_FilePath task ->
     Backup.backupState s' !! p = Backup.backupState s !! p) /\
  (forall p st, Backup.backupState s !! p = Some st ->
     exists st', Backup.backupState s' !! p = Some st'
       /\ Backup.BackupCount st <= Backup.BackupCount st'
          <= Backup.BackupCount st + 1) /\
  (Backup.results (Backup.reporter s') = Backup.results (Backup.reporter s) \/
   exists result,
     Backup.results (Backup.reporter s')
     = Backup.results (Backup.reporter s) ++ [result]
     /\ Backup.result_FilePath result = Backup.task_FilePath task).
Proof.
  intros s'.
  destruct (processBackup_state sha256_hex gzip_write zlib_write url_ok
              parse_upload Base tr s fs net now task) as (Hq & Hst & Hres).
  fold s' in Hq, Hst, Hres.
  split; [exact Hq|]. split; [|split; [|exact Hres]].
  - intros p Hp. destruct Hst as [->|(status & checksum & ->)]; [reflexivity|].
    now apply updateBackupState_other.
  - intros p st Hp. destruct Hst as [->|(status & checksum & ->)].
    + exists st. split; [exact Hp | lia].
    + now apply updateBackupState_count.
Qed.

(** After an upload was attempted, the state of the path carries the
    checksum of the content, whatever the outcome. *)
Lemma processBackup_upload_checksum
      (sha256_hex : list Z -> string)
      (gzip_write zlib_write : Z -> list Z -> list Z)
      (url_ok : string -> bool)
      (parse_upload : list Z -> option Api.UploadData)
      (Base : string -> string) (tr : Api.transport)
      (sha256_nonempty : forall data, sha256_hex data <> "")
      (s : Backup.Service) (fs : OS.FS) (net : Api.Net) (now : Z)
      (task : Backup.BackupTask) (content uploadData : list Z)
      (uploadSize compressedSize : Z) :
  Backup.task_Operation task <> "delete" ->
  OS.ReadFile fs (Backup.task_FilePath task) = Some content ->
  (forall state,
      Backup.backupState s !! Backup.task_FilePath task = Some state ->
      Backup.LastChecksum state <> sha256_hex content) ->
  Backup.prepare gzip_write zlib_write s task content
  = inl (uploadData, uploadSize, compressedSize) ->
  let after := Backup.processBackup sha256_hex gzip_write zlib_write url_ok
                                    parse_upload Base tr s fs net now task in
  (exists state,
      Backup.backupState (fst after) !! Backup.task_FilePath task = Some state
      /\ Backup.LastChecksum state = sha256_hex content
      /\ (Backup.Status state = "success" \/ Backup.Status state = "failed")) /\
  snd after
  = snd (Api.UploadFile url_ok parse_upload Base tr (Backup.client s)
           (Backup.task_FilePath task) uploadData uploadSize
           (sha256_hex content) net).
Proof.
  intros Hop Hread Hnew Hprep. cbn zeta.
  unfold Backup.processBackup, Backup.calculateChecksum.
  apply String_eqb_false in Hop. rewrite Hop, Hread.
  assert (match Backup.backupState s !! Backup.task_FilePath task with
          | Some state => String.eqb (Backup.LastChecksum state) (sha256_hex content)
          | None => false
          end = false) as ->.
  { destruct (Backup.backupState s !! _) as [state|] eqn:E; [|reflexivity].
    apply String_eqb_false. now apply Hnew. }
  rewrite Hprep.
  destruct (Api.UploadFile _ _ _ _ _ _ _ _ _ _) as [[uploadResp|e] net'];
    cbn [fst snd]; (split; [|reflexivity]).
  - set (s1 := Backup.updateBackupState s now _ "success" _).
    set (s2 := Backup.record s1 _).
    assert (forall s3, s3 = s2 \/ (exists d, s3 = Backup.with_db s2 d) ->
              Backup.backupState s3 = Backup.backupState s1) as H3
      by (intros s3 [->|[d ->]]; reflexivity).
    match goal with
    | |- context [Backup.backupState ?x] => rewrite (H3 x)
    end.
    + unfold s1. rewrite updateBackupState_lookup by apply sha256_nonempty.
      eexists. split; [reflexivity|]. cbn. auto.
    + destruct (Backup.db s2) as [d|]; [|now left].
      destruct (Backup.InsertBackupRecord d _); [right; eauto | now left].
  - cbn [Backup.record Backup.with_reporter Backup.backupState].
    rewrite updateBackupState_lookup by apply sha256_nonempty.
    eexists. split; [reflexivity|]. cbn. auto.
Qed.

(** X12.  Once [processBackup] has attempted the upload of a file, running
    the same task again while the file is unchanged does nothing at all:
    no request, no change of state, no result.  This holds after a
    successful upload, and equally after a failed one: the failed upload
    is not tried again as long as the content stays the same. *)
Theorem processBackup_again_does_nothing
    (sha256_hex : list Z -> string)
    (gzip_write zlib_write : Z -> list Z -> list Z)
    (url_ok : string -> bool)
    (parse_upload : list Z -> option Api.UploadData)
    (Base : string -> string) (tr tr' : Api.transport)
    (sha256_nonempty : forall data, sha256_hex data <> "")
    (s : Backup.Service) (fs : OS.FS) (net : Api.Net) (now now' : Z)
    (task : Backup.BackupTask) (content uploadData : list Z)
    (uploadSize compressedSize : Z) :
  Backup.task_Operation task <> "delete" ->
  OS.ReadFile fs (Backup.task_FilePath task) = Some content ->
  (forall state,
      Backup.backupState s !! Backup.task_FilePath task = Some state ->
      Backup.LastChecksum state <> sha256_hex content) ->
  Backup.prepare gzip_write zlib_write s task content
  = inl (uploadData, uploadSize, compressedSize) ->
  let after := Backup.processBackup sha256_hex gzip_write zlib_write url_ok
                                    parse_upload Base tr s fs net now task in
  Backup.processBackup sha256_hex gzip_write zlib_write url_ok parse_upload Base
                       tr' (fst after) fs (snd after) now' task
  = after.
Proof.
  intros Hop Hread Hnew Hprep after.
  destruct (processBackup_upload_checksum sha256_hex gzip_write zlib_write url_ok
              parse_upload Base tr sha256_nonempty s fs net now task content
              uploadData uploadSize compressedSize Hop Hread Hnew Hprep)
    as ((state & Hst & Hck & _) & _).
  fold after in Hst.
  unfold Backup.processBackup at 1. unfold Backup.calculateChecksum.
  apply String_eqb_false in Hop. rewrite Hop, Hread, Hst, Hck.
  rewrite String.eqb_refl. now destruct after.
Qed.

Lemma processBackup_again_does_nothing_witness :
  let after := Backup.processBackup ReferenceOS.sha256_hex ReferenceCodec.gzip_write
                 ReferenceCodec.zlib_write ReferenceOS.url_ok ReferenceOS.parse_upload
                 ReferenceOS.Base Scenario.tr_503 Scenario.service Scenario.disk
                 Api.idle 300 Scenario.task in
  Backup.processBackup ReferenceOS.sha256_hex ReferenceCodec.gzip_write
    ReferenceCodec.zlib_write ReferenceOS.url_ok ReferenceOS.parse_upload
    ReferenceOS.Base Scenario.tr_ok (fst after) Scenario.disk (snd after) 400
    Scenario.task
  = after.
Proof.
  apply (processBackup_again_does_nothing ReferenceOS.sha256_hex
           ReferenceCodec.gzip_write ReferenceCodec.zlib_write ReferenceOS.url_ok
           ReferenceOS.parse_upload ReferenceOS.Base Scenario.tr_503 Scenario.tr_ok
           ReferenceOS_sha256_nonempty Scenario.service Scenario.disk Api.idle
           300 400 Scenario.task [120] [120] 1 0).
  - discriminate.
  - reflexivity.
  - intros state Hs. vm_compute in Hs. discriminate Hs.
  - reflexivity.
Defined.

(** X13.  A task whose file cannot be read (it is gone, or the path is a
    directory) ends as one failed result with the checksum error: no
    request is made, and no state, in memory or in the database, is
    changed, so the path keeps the status it had. *)
Theorem processBackup_unreadable
    (sha256_hex : list Z -> string)
    (gzip_write zlib_write : Z -> list Z -> list Z)
    (url_ok : string -> bool)
    (parse_upload : list Z -> option Api.UploadData)
    (Base : string -> string) (tr : Api.transport)
    (s : Backup.Service) (fs : OS.FS) (net : Api.Net) (now : Z)
    (task : Backup.BackupTask) :
  Backup.task_Operation task <> "delete" ->
  OS.ReadFile fs (Backup.task_FilePath task) = None ->
  let after := Backup.processBackup sha256_hex gzip_write zlib_write url_ok
                                    parse_upload Base tr s fs net now task in
  snd after = net /\
  Backup.backupState (fst after) = Backup.backupState s /\
  Backup.db (fst after) = Backup.db s /\
  exists result,
    Backup.results (Backup.reporter (fst after))
    = Backup.results (Backup.reporter s) ++ [result]
    /\ Backup.result_Success result = false
    /\ Backup.result_Error result = Some Backup.ErrCalculateChecksum
    /\ Backup.result_Checksum result = "".
Proof.
  intros Hop Hread. cbn zeta.
  unfold Backup.processBackup, Backup.calculateChecksum.
  apply String_eqb_false in Hop. rewrite Hop, Hread. cbn [fst snd].
  repeat split. eexists. repeat split.
Qed.

Lemma processBackup_unreadable_witness :
  let after := Backup.processBackup ReferenceOS.sha256_hex ReferenceCodec.gzip_write
                 ReferenceCodec.zlib_write ReferenceOS.url_ok ReferenceOS.parse_upload
                 ReferenceOS.Base Scenario.tr_ok Scenario.backed_up ∅
                 Api.idle 300 Scenario.task in
  snd after = Api.idle /\
  Backup.backupState (fst after) = Backup.backupState Scenario.backed_up.
Proof.
  intros after.
  destruct (processBackup_unreadable ReferenceOS.sha256_hex
              ReferenceCodec.gzip_write ReferenceCodec.zlib_write ReferenceOS.url_ok
              ReferenceOS.parse_upload ReferenceOS.Base Scenario.tr_ok
              Scenario.backed_up ∅ Api.idle 300 Scenario.task)
    as (H1 & H2 & _).
  - discriminate.
  - reflexivity.
  - split; assumption.
Defined.

(** The state a delete task leaves for its path. *)
Lemma processBackup_delete_state
    (sha256_hex : list Z -> string)
    (gzip_write zlib_write : Z -> list Z -> list Z)
    (url_ok : string -> bool)
    (parse_upload : list Z -> option Api.UploadData)
    (Base : string -> string) (tr : Api.transport)
    (s : Backup.Service) (fs : OS.FS) (net : Api.Net) (now : Z)
    (task : Backup.BackupTask) :
  Backup.task_Operation task = "delete" ->
  Backup.backupState
    (fst (Backup.processBackup sha256_hex gzip_write zlib_write url_ok
            parse_upload Base tr s fs net now task))
    !! Backup.task_FilePath task
  = Some {| Backup.LastBackup := now;
            Backup.LastChecksum :=
              default "" (Backup.LastChecksum
                            <$> Backup.backupState s !! Backup.task_FilePath task);
            Backup.BackupCount :=
              default 0 (Backup.BackupCount
                           <$> Backup.backupState s !! Backup.task_FilePath task);
            Backup.Status := "deleted" |}.
Proof.
  intros Hop. unfold Backup.processBackup. rewrite Hop.
  cbn [String.eqb Ascii.eqb Bool.eqb fst snd].
  cbn [Backup.record Backup.with_reporter Backup.backupState].
  unfold Backup.updateBackupState. cbn [Backup.with_state Backup.backupState].
  rewrite lookup_insert_eq.
  now destruct (Backup.backupState s !! Backup.task_FilePath task).
Qed.

(** X14.  A delete task that reaches a worker makes no request, records
    one successful result and marks the path "deleted" at the time of
    processing, keeping the last checksum and the backup count the path
    had (empty and zero for a path without state). *)
Theorem processBackup_delete_task
    (sha256_hex : list Z -> string)
    (gzip_write zlib_write : Z -> list Z -> list Z)
    (url_ok : string -> bool)
    (parse_upload : list Z -> option Api.UploadData)
    (Base : string -> string) (tr : Api.transport)
    (s : Backup.Service) (fs : OS.FS) (net : Api.Net) (now : Z)
    (task : Backup.BackupTask) :
  Backup.task_Operation task = "delete" ->
  let path := Backup.task_FilePath task in
  let old := Backup.backupState s !! path in
  let after := Backup.processBackup sha256_hex gzip_write zlib_write url_ok
                                    parse_upload Base tr s fs net now task in
  snd after = net /\
  Backup.backupState (fst after) !! path
  = Some {| Backup.LastBackup := now;
            Backup.LastChecksum := default "" (Backup.LastChecksum <$> old);
            Backup.BackupCount := default 0 (Backup.BackupCount <$> old);
            Backup.Status := "deleted" |} /\
  exists result,
    Backup.results (Backup.reporter (fst after))
    = Backup.results (Backup.reporter s) ++ [result]
    /\ Backup.result_Success result = true
    /\ Backup.result_Error result = None.
Proof.
  intros Hop path old after. unfold after, Backup.processBackup. rewrite Hop.
  cbn [String.eqb Ascii.eqb Bool.eqb fst snd].
  split; [reflexivity|]. split.
  - cbn [Backup.record Backup.with_reporter Backup.backupState].
    unfold Backup.updateBackupState. cbn [Backup.with_state Backup.backupState].
    rewrite lookup_insert_eq. fold path. unfold old.
    now destruct (Backup.backupState s !! path).
  - eexists. repeat split.
Qed.

Lemma processBackup_delete_task_witness :
  Backup.backupState
    (fst (Backup.processBackup ReferenceOS.sha256_hex ReferenceCodec.gzip_write
            ReferenceCodec.zlib_write ReferenceOS.url_ok ReferenceOS.parse_upload
            ReferenceOS.Base Scenario.tr_ok Scenario.backed_up ∅ Api.idle 300
            {| Backup.task_FilePath := "/data/a.txt";
               Backup.task_Operation := "delete"; Backup.task_Timestamp := 0;
               Backup.task_Size := 0; Backup.task_IsDir := false |}))
    !! "/data/a.txt"
  = Some {| Backup.LastBackup := 300;
            Backup.LastChecksum :=
              "2d711642b726b04401627ca9fbac32f5c8530fb1903cc4db02258717921a4881";
            Backup.BackupCount := 1; Backup.Status := "deleted" |}.
Proof.
  exact (proj1 (proj2 (processBackup_delete_task ReferenceOS.sha256_hex
           ReferenceCodec.gzip_write ReferenceCodec.zlib_write ReferenceOS.url_ok
           ReferenceOS.parse_upload ReferenceOS.Base Scenario.tr_ok
           Scenario.backed_up ∅ Api.idle 300
           {| Backup.task_FilePath := "/data/a.txt";
              Backup.task_Operation := "delete"; Backup.task_Timestamp := 0;
              Backup.task_Size := 0; Backup.task_IsDir := false |} eq_refl))).
Defined.

Lemma cleanupDeletedFiles_lookup (s : Backup.Service) (now : Z) (p : string)
      (st : Backup.FileBackupState) :
  Backup.backupState (Backup.cleanupDeletedFiles s now) !! p = Some st
  <-> Backup.backupState s !! p = Some st
      /\ ~ (Backup.Status st = "deleted" /\ 24 * Backup.Hour < now - Backup.LastBackup st).
Proof.
  unfold Backup.cleanupDeletedFiles. cbn [Backup.backupState Backup.with_state].
  now rewrite map_lookup_filter_Some.
Qed.

(** X15.  Deleting and cleaning up.  After a delete task was processed at
    time [t], a cleanup at time [now] keeps the "deleted" state of the
    path as long as [now - t] is at most 24 hours and removes it once it
    is more; a cleanup never removes or alters the state of a path whose
    status is not "deleted", and never touches the database. *)
Theorem cleanupDeletedFiles_after_delete
    (sha256_hex : list Z -> string)
    (gzip_write zlib_write : Z -> list Z -> list Z)
    (url_ok : string -> bool)
    (parse_upload : list Z -> option Api.UploadData)
    (Base : string -> string) (tr : Api.transport)
    (s : Backup.Service) (fs : OS.FS) (net : Api.Net) (t now : Z)
    (task : Backup.BackupTask) :
  Backup.task_Operation task = "delete" ->
  let s1 := fst (Backup.processBackup sha256_hex gzip_write zlib_write url_ok
                   parse_upload Base tr s fs net t task) in
  let s2 := Backup.cleanupDeletedFiles s1 now in
  (now - t <= 24 * Backup.Hour ->
   Backup.backupState s2 !! Backup.task_FilePath task
   = Backup.backupState s1 !! Backup.task_FilePath task) /\
  (24 * Backup.Hour < now - t ->
   Backup.backupState s2 !! Backup.task_FilePath task = None) /\
  (forall p st, Backup.backupState s1 !! p = Some st ->
                Backup.Status st <> "deleted" ->
                Backup.backupState s2 !! p = Some st) /\
  Backup.db s2 = Backup.db s1.
Proof.
  intros Hop s1 s2.
  pose proof (processBackup_delete_state sha256_hex gzip_write zlib_write url_ok
                parse_upload Base tr s fs net t task Hop) as Hst.
  fold s1 in Hst.
  split; [|split; [|split; [|reflexivity]]].
  - intros Hle. rewrite Hst. apply cleanupDeletedFiles_lookup.
    split; [exact Hst|]. cbn [Backup.Status Backup.LastBackup]. lia.
  - intros Hgt.
    destruct (Backup.backupState s2 !! Backup.task_FilePath task) as [st|] eqn:E;
      [|reflexivity].
    apply cleanupDeletedFiles_lookup in E as [E Hkeep].
    rewrite Hst in E. injection E as <-. exfalso. apply Hkeep.
    cbn [Backup.Status Backup.LastBackup]. split; [reflexivity | lia].
  - intros p st Hp Hne. apply cleanupDeletedFiles_lookup.
    split; [exact Hp|]. intros [? _]. contradiction.
Qed.

Lemma cleanupDeletedFiles_after_delete_witness :
  Backup.backupState
    (Backup.cleanupDeletedFiles
       (fst (Backup.processBackup ReferenceOS.sha256_hex ReferenceCodec.gzip_write
               ReferenceCodec.zlib_write ReferenceOS.url_ok ReferenceOS.parse_upload
               ReferenceOS.Base Scenario.tr_ok Scenario.backed_up ∅ Api.idle 300
               {| Backup.task_FilePath := "/data/a.txt";
                  Backup.task_Operation := "delete"; Backup.task_Timestamp := 0;
                  Backup.task_Size := 0; Backup.task_IsDir := false |}))
       86701)
    !! "/data/a.txt" = None.
Proof.
  refine (proj1 (proj2 (cleanupDeletedFiles_after_delete ReferenceOS.sha256_hex
           ReferenceCodec.gzip_write ReferenceCodec.zlib_write ReferenceOS.url_ok
           ReferenceOS.parse_upload ReferenceOS.Base Scenario.tr_ok
           Scenario.backed_up ∅ Api.idle 300 86701
           {| Backup.task_FilePath := "/data/a.txt";
              Backup.task_Operation := "delete"; Backup.task_Timestamp := 0;
              Backup.task_Size := 0; Backup.task_IsDir := false |} eq_refl)) _).
  reflexivity.
Defined.

(** X16.  The in-memory statistics: [total_files] is the number of paths
    with a state, the three counters are never negative, and together
    they count at most the paths: those whose status is "success",
    "failed" or "deleted", each exactly once. *)
Theorem memoryStats_counts (s : Backup.Service) :
  let stats := Backup.memoryStats s in
  Backup.total_files stats = Z.of_nat (size (Backup.backupState s)) /\
  0 <= Backup.successful_files stats /\
  0 <= Backup.failed_files stats /\
  0 <= Backup.deleted_files stats /\
  Backup.successful_files stats + Backup.failed_files stats
  + Backup.deleted_files stats
  = Z.of_nat (size (filter (fun kv : string * Backup.FileBackupState =>
                              Backup.Status kv.2 = "success"
                              \/ Backup.Status kv.2 = "failed"
                              \/ Backup.Status kv.2 = "deleted")
                           (Backup.backupState s))) /\
  Backup.successful_files stats + Backup.failed_files stats
  + Backup.deleted_files stats <= Backup.total_files stats.
Proof.
  cbn zeta. unfold Backup.memoryStats.
  set (T := Z.of_nat (size (Backup.backupState s))).
  set (known := fun kv : string * Backup.FileBackupState =>
                  Backup.Status kv.2 = "success"
                  \/ Backup.Status kv.2 = "failed"
                  \/ Backup.Status kv.2 = "deleted").
  assert (forall m : gmap string Backup.FileBackupState,
    let r := map_fold (fun _ state stats => Backup.tally state stats)
               {| Backup.total_files := T; Backup.successful_files := 0;
                  Backup.failed_files := 0; Backup.deleted_files := 0 |} m in
    Backup.total_files r = T /\ 0 <= Backup.successful_files r
    /\ 0 <= Backup.failed_files r /\ 0 <= Backup.deleted_files r
    /\ Backup.successful_files r + Backup.failed_files r + Backup.deleted_files r
       = Z.of_nat (size (filter known m))) as H.
  { intros m. cbn zeta.
    apply (map_fold_weak_ind (fun r m =>
      Backup.total_files r = T /\ 0 <= Backup.successful_files r
      /\ 0 <= Backup.failed_files r /\ 0 <= Backup.deleted_files r
      /\ Backup.successful_files r + Backup.failed_files r + Backup.deleted_files r
         = Z.of_nat (size (filter known m)))).
    - cbn. rewrite map_filter_empty, map_size_empty. repeat split; lia.
    - intros i x m' r Hi (Ht & H1 & H2 & H3 & Hsum).
      unfold Backup.tally.
      destruct (String.eqb (Backup.Status x) "success") eqn:E1;
        [|destruct (String.eqb (Backup.Status x) "failed") eqn:E2;
          [|destruct (String.eqb (Backup.Status x) "deleted") eqn:E3]];
        cbn [Backup.total_files Backup.successful_files Backup.failed_files
             Backup.deleted_files].
      1-3: rewrite map_filter_insert_True
             by (unfold known; cbn;
                 first [apply String_eqb_true in E1 | apply String_eqb_true in E2
                       | apply String_eqb_true in E3]; auto);
           rewrite map_size_insert_None
             by (apply map_lookup_filter_None; now left);
           repeat split; lia.
      rewrite map_filter_insert_False, delete_id by
        (first [exact Hi
               | unfold known; cbn; apply String_eqb_false in E1, E2, E3; tauto]).
      repeat split; lia. }
  destruct (H (Backup.backupState s)) as (Ht & H1 & H2 & H3 & Hsum).
  repeat split; try assumption.
  rewrite Hsum, Ht. unfold T. apply inj_le. apply map_subseteq_size, map_filter_subseteq.
Qed.

(** ** More on restore *)

Section RestoreFacts.
Import Restore.

Variable Base : string -> string.
Variable Dirname : string -> string.
Variable Join : string -> string -> string.
Variable url_ok : string -> bool.
Variable tr : Api.transport.

(** The books after one [restoreFile]: the entry is counted once, as
    restored or as failed with one error noted. *)
Lemma restoreFile_accounting (r : RestoreService) (fs : OS.FS) (net : Api.Net)
      (now : Z) (entry : FileManifestEntry) (targetDir : string) :
  let r' := fst (fst (restoreFile Base Dirname Join url_ok tr r fs net now
                                  entry targetDir)) in
  let p := progress r in
  let p' := progress r' in
  client r' = client r /\ concurrent r' = concurrent r /\
  TotalFiles p' = TotalFiles p /\ TotalSize p' = TotalSize p /\
  StartTime p' = StartTime p /\
  ((RestoredFiles p' = RestoredFiles p + 1 /\ FailedFiles p' = FailedFiles p
    /\ RestoredSize p' = RestoredSize p + Size entry
    /\ Errors p' = Errors p)
   \/
   (RestoredFiles p' = RestoredFiles p /\ FailedFiles p' = FailedFiles p + 1
    /\ RestoredSize p' = RestoredSize p
    /\ exists e, Errors p' = Errors p ++ [e]
                 /\ error_FilePath e = FilePath entry
                 /\ error_FileID e = FileID entry)).
Proof.
  cbn zeta. unfold restoreFile.
  destruct (fileExists fs _ _).
  { cbn. repeat split. left. repeat split. }
  destruct (downloadFile url_ok tr r (FileID entry) net) as [[data|e] net'].
  2:{ cbn. repeat split. right. repeat split. eexists. repeat split. }
  destruct (OS.MkdirAll fs _) as [fs1|].
  2:{ cbn. repeat split. right. repeat split. eexists. repeat split. }
  destruct (OS.WriteFile fs1 _ _ _ _) as [fs2|].
  - cbn. repeat split. left. repeat split.
  - cbn. repeat split. right. repeat split. eexists. repeat split.
Qed.

End RestoreFacts.

(** X17.  The books of a restore worker.  After a worker has gone through
    a queue of entries, every entry has been counted exactly once, as
    restored or as failed; the error list has grown by exactly one error
    per failed entry and keeps the earlier errors in front; and
    [TotalFiles], [TotalSize] and [StartTime] are as before. *)
Theorem restoreWorker_accounting
    (Base Dirname : string -> string) (Join : string -> string -> string)
    (url_ok : string -> bool) (tr : Api.transport)
    (queue : list Restore.FileManifestEntry) :
  forall (r : Restore.RestoreService) (fs : OS.FS) (net : Api.Net) (now : Z)
         (targetDir : string),
  let r' := fst (fst (Restore.restoreWorker Base Dirname Join url_ok tr r fs net
                        now queue targetDir)) in
  let p := Restore.progress r in
  let p' := Restore.progress r' in
  Restore.RestoredFiles p' + Restore.FailedFiles p'
  = Restore.RestoredFiles p + Restore.FailedFiles p + Z.of_nat (length queue) /\
  Restore.RestoredFiles p <= Restore.RestoredFiles p' /\
  Restore.FailedFiles p <= Restore.FailedFiles p' /\
  Z.of_nat (length (Restore.Errors p'))
  = Z.of_nat (length (Restore.Errors p))
    + (Restore.FailedFiles p' - Restore.FailedFiles p) /\
  (exists errors, Restore.Errors p' = Restore.Errors p ++ errors) /\
  Restore.TotalFiles p' = Restore.TotalFiles p /\
  Restore.TotalSize p' = Restore.TotalSize p /\
  Restore.StartTime p' = Restore.StartTime p.
Proof.
  induction queue as [|entry queue IH]; intros r fs net now targetDir.
  - cbn. repeat split; try lia. exists []. now rewrite app_nil_r.
  - cbn zeta. cbn [Restore.restoreWorker length].
    pose proof (restoreFile_accounting Base Dirname Join url_ok tr r fs net now
                  entry targetDir) as H1. cbn zeta in H1.
    destruct (Restore.restoreFile Base Dirname Join url_ok tr r fs net now entry
                targetDir) as [[r1 fs1] net1]. cbn [fst] in H1.
    specialize (IH r1 fs1 net1 now targetDir). cbn zeta in IH.
    destruct IH as (I1 & I2 & I3 & I4 & (errs & I5) & I6 & I7 & I8).
    destruct H1 as (_ & _ & T1 & T2 & T3 & Hcase).
    rewrite I6, I7, I8, T1, T2, T3.
    destruct Hcase as [(A & B & _ & C)|(A & B & _ & e & C & _)].
    + rewrite C in *. repeat split; try lia. exists errs. exact I5.
    + rewrite C in *. rewrite length_app in I4. cbn [length] in I4.
      repeat split; try lia. exists (e :: errs). rewrite I5.
      now rewrite <- app_assoc.
Qed.

Lemma add_successful_omap (results : list Backup.BackupResult) :
  forall files,
    Restore.add_successful results files
    = files ++ omap Restore.entry_of_result results.
Proof.
  induction results as [|result results IH]; intros files.
  - cbn. now rewrite app_nil_r.
  - cbn [Restore.add_successful].
    change (omap Restore.entry_of_result (result :: results))
      with (match Restore.entry_of_result result with
            | Some y => y :: omap Restore.entry_of_result results
            | None => omap Restore.entry_of_result results
            end).
    pose proof (eq_refl (Restore.entry_of_result result)) as Hc.
    unfold Restore.entry_of_result at 2 in Hc.
    destruct (Backup.result_Success result
              && negb (String.eqb (Backup.result_FileID result) ""));
      rewrite Hc.
    + rewrite IH, <- app_assoc. reflexivity.
    + apply IH.
Qed.

Lemma omap_length_le {A B : Type} (f : A -> option B) (l : list A) :
  (length (omap f l) <= length l)%nat.
Proof.
  induction l as [|x l IH]; [reflexivity|].
  change (omap f (x :: l))
    with (match f x with Some y => y :: omap f l | None => omap f l end).
  destruct (f x); cbn [length]; lia.
Qed.

Lemma entry_of_result_Some (result : Backup.BackupResult)
      (e : Restore.FileManifestEntry) :
  Restore.entry_of_result result = Some e ->
  Backup.result_Success result = true /\ Backup.result_FileID result <> "" /\
  Restore.FilePath e = Backup.result_FilePath result /\
  Restore.FileID e = Backup.result_FileID result /\
  Restore.Size e = Backup.result_Size result /\
  Restore.Checksum e = Backup.result_Checksum result /\
  Restore.BackupTime e = Backup.result_EndTime result /\
  Restore.Permissions e = 0 /\ Restore.Compressed e = false.
Proof.
  unfold Restore.entry_of_result.
  destruct (Backup.result_Success result); [|discriminate].
  destruct (String.eqb (Backup.result_FileID result) "") eqn:E; [discriminate|].
  apply String_eqb_false in E. intros [= <-]. cbn. repeat split. exact E.
Qed.

(** X18.  The manifest made from a backup report lists, in the order of
    the report, exactly the results that succeeded and carry a remote id,
    with path, id, size, checksum and end time taken over.  Every entry
    has permissions 0 and is marked as not compressed, whatever the
    result said about compression: neither field is filled in. *)
Theorem CreateManifestFromReport_files (report : Restore.BackupReport) (now : Z) :
  let files := Restore.manifest_Files (Restore.CreateManifestFromReport report now) in
  files = omap Restore.entry_of_result (Restore.report_Results report) /\
  (length files <= length (Restore.report_Results report))%nat /\
  forall e, e ∈ files ->
    Restore.Permissions e = 0 /\ Restore.Compressed e = false /\
    Restore.FileID e <> "" /\
    exists result, result ∈ Restore.report_Results report /\
      Backup.result_Success result = true /\
      Restore.FileID e = Backup.result_FileID result /\
      Restore.FilePath e = Backup.result_FilePath result /\
      Restore.Checksum e = Backup.result_Checksum result /\
      Restore.Size e = Backup.result_Size result.
Proof.
  cbn zeta. unfold Restore.CreateManifestFromReport.
  cbn [Restore.manifest_Files]. rewrite add_successful_omap. cbn [app].
  split; [reflexivity|]. split; [apply omap_length_le|].
  intros e He. apply list_elem_of_omap in He as (result & Hin & He).
  apply entry_of_result_Some in He as (H1 & H2 & H3 & H4 & H5 & H6 & H7 & H8 & H9).
  repeat split; try assumption; [congruence|].
  exists result. repeat split; assumption.
Qed.

Lemma WriteFile_other (fs fs2 : OS.FS) (parent path other : string)
      (data : list Z) (perm : Z) :
  OS.WriteFile fs parent path data perm = Some fs2 ->
  other <> path -> fs2 !! other = fs !! other.
Proof.
  unfold OS.WriteFile. destruct (fs !! parent) as [[c p|]|]; try discriminate.
  destruct (fs !! path) as [[c p|]|]; try discriminate;
    [destruct (OS.writable p); [|discriminate]|];
    intros [= <-] Hne; now rewrite lookup_insert_ne.
Qed.

Lemma WriteFile_mode (fs fs2 : OS.FS) (parent path : string) (data : list Z)
      (perm : Z) :
  OS.WriteFile fs parent path data perm = Some fs2 ->
  fs2 !! path
  = Some (OS.File data match fs !! path with
                       | Some (OS.File _ perm') => perm'
                       | _ => perm
                       end).
Proof.
  unfold OS.WriteFile. destruct (fs !! parent) as [[c p|]|]; try discriminate.
  destruct (fs !! path) as [[c p|]|]; try discriminate;
    [destruct (OS.writable p); [|discriminate]|];
    intros [= <-]; apply lookup_insert_eq.
Qed.

Lemma WriteFile_dir (fs : OS.FS) (parent path : string) (data : list Z)
      (perm : Z) :
  fs !! path = Some OS.Dir -> OS.WriteFile fs parent path data perm = None.
Proof.
  unfold OS.WriteFile. intros ->. now destruct (fs !! parent) as [[c p|]|].
Qed.

(** What it takes for [restoreFile] to count a downloaded entry as
    restored: the directory was made and the file written. *)
Lemma restoreFile_restored_inv
      (Base Dirname : string -> string) (Join : string -> string -> string)
      (url_ok : string -> bool) (tr : Api.transport)
      (r : Restore.RestoreService) (fs : OS.FS) (net net' : Api.Net) (now : Z)
      (entry : Restore.FileManifestEntry) (targetDir : string) (data : list Z) :
  let targetPath := Join targetDir (Base (Restore.FilePath entry)) in
  let after := Restore.restoreFile Base Dirname Join url_ok tr r fs net now
                                   entry targetDir in
  Restore.fileExists fs targetPath (Restore.Checksum entry) = false ->
  Restore.downloadFile url_ok tr r (Restore.FileID entry) net = (inl data, net') ->
  Restore.RestoredFiles (Restore.progress (fst (fst after)))
  = Restore.RestoredFiles (Restore.progress r) + 1 ->
  exists fs1,
    OS.MkdirAll fs (Dirname targetPath) = Some fs1 /\
    OS.WriteFile fs1 (Dirname targetPath) targetPath data
                 (Restore.Permissions entry) = Some (snd (fst after)).
Proof.
  intros targetPath after Hex Hdl.
  unfold after, Restore.restoreFile. fold targetPath. rewrite Hex, Hdl.
  destruct (OS.MkdirAll fs (Dirname targetPath)) as [fs1|] eqn:Emk.
  - destruct (OS.WriteFile fs1 (Dirname targetPath) targetPath data
                (Restore.Permissions entry)) as [fs2|] eqn:Ewr.
    + cbn. intros _. exists fs1. split; [reflexivity|assumption].
    + cbn. lia.
  - cbn. lia.
Qed.

(** X19.  A file restored from a manifest that was made from a backup
    report is created with mode 0.  When the entry comes from
    [CreateManifestFromReport], the target path does not exist yet, and
    [restoreFile] downloads the data and counts the entry as restored,
    the target holds the downloaded bytes with permission bits 0: the
    manifest never carries the mode of the original file, and
    [restoreFile] passes the entry's permissions to [os.WriteFile]. *)
Theorem restoreFile_report_entry_mode
    (Base Dirname : string -> string) (Join : string -> string -> string)
    (url_ok : string -> bool) (tr : Api.transport)
    (r : Restore.RestoreService) (fs : OS.FS) (net net' : Api.Net) (now : Z)
    (report : Restore.BackupReport) (created : Z)
    (entry : Restore.FileManifestEntry) (targetDir : string) (data : list Z) :
  let targetPath := Join targetDir (Base (Restore.FilePath entry)) in
  let after := Restore.restoreFile Base Dirname Join url_ok tr r fs net now
                                   entry targetDir in
  entry ∈ Restore.manifest_Files (Restore.CreateManifestFromReport report created) ->
  fs !! targetPath = None ->
  Restore.downloadFile url_ok tr r (Restore.FileID entry) net = (inl data, net') ->
  Restore.RestoredFiles (Restore.progress (fst (fst after)))
  = Restore.RestoredFiles (Restore.progress r) + 1 ->
  snd (fst after) !! targetPath = Some (OS.File data 0).
Proof.
  intros targetPath after Hin Hnone Hdl Hok.
  assert (Hperm : Restore.Permissions entry = 0).
  { unfold Restore.CreateManifestFromReport in Hin.
    cbn [Restore.manifest_Files] in Hin. rewrite add_successful_omap in Hin.
    cbn [app] in Hin. apply list_elem_of_omap in Hin as (result & _ & He).
    now apply entry_of_result_Some in He. }
  assert (Hex : Restore.fileExists fs targetPath (Restore.Checksum entry) = false).
  { unfold Restore.fileExists. now rewrite Hnone. }
  destruct (restoreFile_restored_inv Base Dirname Join url_ok tr r fs net net'
              now entry targetDir data Hex Hdl Hok) as (fs1 & Emk & Ewr).
  fold targetPath in Emk, Ewr. fold after in Ewr.
  rewrite (WriteFile_mode _ _ _ _ _ _ Ewr), Hperm.
  destruct (MkdirAll_adds _ _ _ targetPath Emk) as [E|[_ E]].
  - now rewrite E, Hnone.
  - exfalso. rewrite (WriteFile_dir _ _ _ _ _ E) in Ewr. discriminate.
Qed.

Lemma restoreFile_report_entry_mode_witness :
  snd (fst (Restore.restoreFile ReferenceOS.Base ReferenceOS.Dirname
              ReferenceOS.Join ReferenceOS.url_ok Scenario.tr_ok
              Scenario.restorer ∅ Api.idle 600 Scenario.report_entry "restore"))
  !! "restore/a.txt" = Some (OS.File [120] 0).
Proof.
  apply (restoreFile_report_entry_mode ReferenceOS.Base ReferenceOS.Dirname
           ReferenceOS.Join ReferenceOS.url_ok Scenario.tr_ok
           Scenario.restorer ∅ Api.idle
           (snd (Restore.restoreFile ReferenceOS.Base ReferenceOS.Dirname
                   ReferenceOS.Join ReferenceOS.url_ok Scenario.tr_ok
                   Scenario.restorer ∅ Api.idle 600 Scenario.report_entry
                   "restore"))
           600 Scenario.report 500 Scenario.report_entry "restore" [120]).
  - vm_compute. constructor.
  - reflexivity.
  - reflexivity.
  - reflexivity.
Defined.

(** X20.  Entries are restored under their base names, so two entries of
    one manifest whose paths end in the same file name share a target.
    When a worker restores both (the second has a checksum, its download
    delivers [data2], and both are counted as restored), the one target
    file holds the data of the second entry: the first file restored is
    overwritten, and both count as restored. *)
Theorem restoreWorker_same_base_overwrites
    (Base Dirname : string -> string) (Join : string -> string -> string)
    (url_ok : string -> bool) (tr : Api.transport)
    (r : Restore.RestoreService) (fs : OS.FS) (net net2 : Api.Net) (now : Z)
    (e1 e2 : Restore.FileManifestEntry) (targetDir : string) (data2 : list Z) :
  let first := Restore.restoreFile Base Dirname Join url_ok tr r fs net now
                                   e1 targetDir in
  let after := Restore.restoreWorker Base Dirname Join url_ok tr r fs net now
                                     [e1; e2] targetDir in
  Base (Restore.FilePath e1) = Base (Restore.FilePath e2) ->
  Restore.Checksum e2 <> "" ->
  Restore.downloadFile url_ok tr (fst (fst first)) (Restore.FileID e2) (snd first)
  = (inl data2, net2) ->
  Restore.RestoredFiles (Restore.progress (fst (fst after)))
  = Restore.RestoredFiles (Restore.progress r) + 2 ->
  exists perm,
    snd (fst after) !! Join targetDir (Base (Restore.FilePath e1))
    = Some (OS.File data2 perm).
Proof.
  intros first after Hbase Hsum Hdl Hok.
  pose proof (restoreFile_accounting Base Dirname Join url_ok tr r fs net now
                e1 targetDir) as A1. cbn zeta in A1. fold first in A1.
  unfold after in *. cbn [Restore.restoreWorker] in *. fold first in Hok |- *.
  destruct first as [[r1 fs1] net1]. cbn [fst snd] in *.
  pose proof (restoreFile_accounting Base Dirname Join url_ok tr r1 fs1 net1 now
                e2 targetDir) as A2. cbn zeta in A2.
  assert (Hex : Restore.fileExists fs1
                  (Join targetDir (Base (Restore.FilePath e2)))
                  (Restore.Checksum e2) = false).
  { destruct (Restore.fileExists _ _ _) eqn:E; [|reflexivity].
    apply fileExists_true_inv in E as (E & _). contradiction. }
  pose proof (restoreFile_restored_inv Base Dirname Join url_ok tr r1 fs1 net1
                net2 now e2 targetDir data2 Hex Hdl) as Hinv. cbn zeta in Hinv.
  destruct (Restore.restoreFile Base Dirname Join url_ok tr r1 fs1 net1 now e2
              targetDir) as [[r2 fs2] net2'].
  cbn [fst snd] in *.
  destruct Hinv as (fs' & _ & Ewr).
  { destruct A1 as (_ & _ & _ & _ & _ & [(? & _)|(? & _)]);
      destruct A2 as (_ & _ & _ & _ & _ & [(? & _)|(? & _)]); lia. }
  rewrite Hbase. eapply WriteFile_content, Ewr.
Qed.

Lemma restoreWorker_same_base_overwrites_witness :
  exists perm,
    snd (fst (Restore.restoreWorker ReferenceOS.Base ReferenceOS.Dirname
                ReferenceOS.Join ReferenceOS.url_ok Scenario.tr_x_then_y
                Scenario.restorer ∅ Api.idle 600
                [Scenario.entry; Scenario.other_entry] "restore"))
    !! "restore/a.txt" = Some (OS.File [121] perm).
Proof.
  apply (restoreWorker_same_base_overwrites ReferenceOS.Base ReferenceOS.Dirname
           ReferenceOS.Join ReferenceOS.url_ok Scenario.tr_x_then_y
           Scenario.restorer ∅ Api.idle
           (snd (Restore.restoreWorker ReferenceOS.Base ReferenceOS.Dirname
                   ReferenceOS.Join ReferenceOS.url_ok Scenario.tr_x_then_y
                   Scenario.restorer ∅ Api.idle 600
                   [Scenario.entry; Scenario.other_entry] "restore"))
           600 Scenario.entry Scenario.other_entry "restore" [121]).
  - reflexivity.
  - discriminate.
  - reflexivity.
  - reflexivity.
Defined.


(** ** The watcher *)

(** The test [op&flag == flag] for a flag of one bit reads that bit. *)
Lemma has_bit (op k : Z) :
  0 <= k -> Monitor.has op (2 ^ k) = Z.testbit op k.
Proof.
  intros Hk. unfold Monitor.has. destruct (Z.testbit op k) eqn:E.
  - apply Z.eqb_eq. apply Z.bits_inj'. intros n Hn.
    rewrite Z.land_spec, Z.pow2_bits_eqb by lia.
    destruct (Z.eqb_spec k n) as [<-|Hne].
    + now rewrite E.
    + apply andb_false_r.
  - apply Z.eqb_neq. intros H.
    assert (H' : Z.testbit (Z.land op (2 ^ k)) k = Z.testbit (2 ^ k) k)
      by now rewrite H.
    rewrite Z.land_spec, Z.pow2_bits_true, E in H' by lia. discriminate.
Qed.

Lemma prefix_append (pattern rest : string) :
  String.prefix pattern (pattern +:+ rest) = true.
Proof.
  induction pattern as [|a pattern IH].
  - now destruct rest.
  - change (String a pattern +:+ rest) with (String a (pattern +:+ rest)).
    cbn [String.prefix]. destruct (Ascii.ascii_dec a a); [exact IH|contradiction].
Qed.

(** X22.  How the watcher names an event.  The operation is decided by
    the lowest of the five bits Create, Write, Remove, Rename and Chmod
    that is set in the event: an event that carries Create is a "create"
    whatever else it carries, a Write together with Remove, Rename or
    Chmod is a "modify", and so on down to "chmod".  The name is empty
    exactly when none of the five bits is set. *)
Theorem operation_of_lowest_bit (op : Z) :
  Monitor.operation_of op
  = (if Z.testbit op 0 then "create"
     else if Z.testbit op 1 then "modify"
     else if Z.testbit op 2 then "delete"
     else if Z.testbit op 3 then "rename"
     else if Z.testbit op 4 then "chmod"
     else "") /\
  (forall other, Monitor.operation_of (Z.lor Monitor.Create other) = "create") /\
  (forall other, Z.testbit other 0 = false ->
                 Monitor.operation_of (Z.lor Monitor.Write other) = "modify") /\
  (Monitor.operation_of op = "" <-> Z.land op 31 = 0).
Proof.
  assert (Hchain : forall op,
    Monitor.operation_of op
    = (if Z.testbit op 0 then "create"
       else if Z.testbit op 1 then "modify"
       else if Z.testbit op 2 then "delete"
       else if Z.testbit op 3 then "rename"
       else if Z.testbit op 4 then "chmod"
       else "")).
  { intros op'. unfold Monitor.operation_of.
    change Monitor.Create with (2 ^ 0). change Monitor.Write with (2 ^ 1).
    change Monitor.Remove with (2 ^ 2). change Monitor.Rename with (2 ^ 3).
    change Monitor.Chmod with (2 ^ 4).
    rewrite !has_bit by lia. reflexivity. }
  split; [apply Hchain|]. split; [|split].
  - intros other. rewrite Hchain, Z.lor_spec. reflexivity.
  - intros other H0. rewrite Hchain, !Z.lor_spec, H0. reflexivity.
  - rewrite Hchain. split.
    + intros H. apply Z.bits_inj'. intros n Hn.
      rewrite Z.land_spec, Z.bits_0.
      destruct (Z.testbit op 0) eqn:E0; [discriminate|].
      destruct (Z.testbit op 1) eqn:E1; [discriminate|].
      destruct (Z.testbit op 2) eqn:E2; [discriminate|].
      destruct (Z.testbit op 3) eqn:E3; [discriminate|].
      destruct (Z.testbit op 4) eqn:E4; [discriminate|].
      destruct (Z.lt_ge_cases n 5) as [Hlt|Hge].
      * assert (Hcases : n = 0 \/ n = 1 \/ n = 2 \/ n = 3 \/ n = 4) by lia.
        destruct Hcases as [->|[->|[->|[->| ->]]]];
          [rewrite E0|rewrite E1|rewrite E2|rewrite E3|rewrite E4]; reflexivity.
      * change 31 with (Z.ones 5). rewrite Z.ones_spec_high by lia.
        apply andb_false_r.
    + intros H.
      assert (Hbit : forall k, 0 <= k < 5 -> Z.testbit op k = false).
      { intros k Hk.
        assert (H' : Z.testbit (Z.land op 31) k = false) by (rewrite H; apply Z.bits_0).
        rewrite Z.land_spec in H'. change 31 with (Z.ones 5) in H'.
        rewrite Z.ones_spec_low in H' by lia. now rewrite andb_true_r in H'. }
      rewrite !Hbit by lia. reflexivity.
Qed.

(** X23.  What the watcher leaves out.  A path is excluded exactly when
    some exclude pattern matches its base name as a glob or is a prefix
    of the whole path as a string.  The prefix test knows no path
    separators: a pattern excludes every path that starts with its
    characters (so [/data/tmp] also excludes [/data/tmpfile]), an empty
    pattern excludes every path, and a malformed glob still acts as a
    prefix. *)
Theorem shouldExclude_iff (Match : string -> string -> option bool)
        (Base : string -> string) (excludes : list string) (path : string) :
  (Monitor.shouldExclude Match Base excludes path = true <->
   exists pattern, pattern ∈ excludes /\
     (Match pattern (Base path) = Some true \/ String.prefix pattern path = true)) /\
  (forall pattern rest, pattern ∈ excludes ->
     Monitor.shouldExclude Match Base excludes (pattern +:+ rest) = true) /\
  (Monitor.shouldExclude Match Base excludes path = false ->
   forall pattern suffix, pattern ∈ excludes -> path <> pattern +:+ suffix).
Proof.
  assert (Hiff : forall path,
    Monitor.shouldExclude Match Base excludes path = true <->
    exists pattern, pattern ∈ excludes /\
      (Match pattern (Base path) = Some true \/ String.prefix pattern path = true)).
  { intros p. induction excludes as [|pattern excludes IH].
    - cbn. split; [discriminate|]. intros (x & Hx & _). inversion Hx.
    - cbn [Monitor.shouldExclude]. split.
      + destruct (Match pattern (Base p)) as [[|]|] eqn:Em.
        * intros _. exists pattern. split; [constructor|now left].
        * destruct (String.prefix pattern p) eqn:Ep.
          -- intros _. exists pattern. split; [constructor|now right].
          -- intros H. apply IH in H as (x & Hx & Hc). exists x.
             split; [now constructor|exact Hc].
        * destruct (String.prefix pattern p) eqn:Ep.
          -- intros _. exists pattern. split; [constructor|now right].
          -- intros H. apply IH in H as (x & Hx & Hc). exists x.
             split; [now constructor|exact Hc].
      + intros (x & Hx & Hc). apply elem_of_cons in Hx as [->|Hx].
        * destruct Hc as [Hc|Hc]; [now rewrite Hc|].
          rewrite Hc. now destruct (Match pattern (Base p)) as [[|]|].
        * assert (Hrest : Monitor.shouldExclude Match Base excludes p = true)
            by (apply IH; eauto).
          rewrite Hrest.
          destruct (Match pattern (Base p)) as [[|]|];
            now destruct (String.prefix pattern p). }
  split; [apply Hiff|]. split.
  - intros pattern rest Hin. apply Hiff. exists pattern.
    split; [exact Hin|]. right. apply prefix_append.
  - intros Hfalse pattern suffix Hin ->.
    assert (H : Monitor.shouldExclude Match Base excludes (pattern +:+ suffix) = true).
    { apply Hiff. exists pattern. split; [exact Hin|]. right. apply prefix_append. }
    congruence.
Qed.

(** ** The compressor, the report and the record table *)

(** X24.  What [NewCompressor] builds.  It refuses exactly the formats
    other than "gzip", "zlib", "none" and the empty string.  The level of
    a gzip or zlib compressor it builds always lies between
    [DefaultCompression] (-1) and [BestCompression] (9): a requested
    level in that range is kept, any other is replaced by the default.
    So [HuffmanOnly] (-2), which the library's writers accept, cannot be
    selected. *)
Theorem NewCompressor_outcome (format : string) (level : Z) :
  match Compression.NewCompressor format level with
  | inl (Compression.GzipCompressor l) =>
      format = "gzip" /\ -1 <= l <= 9 /\
      (-1 <= level <= 9 -> l = level) /\ (level < -1 \/ 9 < level -> l = -1)
  | inl (Compression.ZlibCompressor l) =>
      format = "zlib" /\ -1 <= l <= 9 /\
      (-1 <= level <= 9 -> l = level) /\ (level < -1 \/ 9 < level -> l = -1)
  | inl Compression.NoOpCompressor => format = "none" \/ format = ""
  | inr e =>
      e = Compression.ErrUnsupportedFormat /\
      format <> "gzip" /\ format <> "zlib" /\ format <> "none" /\ format <> ""
  end.
Proof.
  unfold Compression.NewCompressor. cbv zeta.
  unfold Compression.DefaultCompression, Compression.BestCompression.
  destruct (String.eqb format "gzip") eqn:Eg.
  { apply String_eqb_true in Eg.
    destruct (Z.ltb_spec level (-1)); destruct (Z.ltb_spec 9 level);
      cbn [orb]; repeat split; try assumption; lia. }
  destruct (String.eqb format "zlib") eqn:Ez.
  { apply String_eqb_true in Ez.
    destruct (Z.ltb_spec level (-1)); destruct (Z.ltb_spec 9 level);
      cbn [orb]; repeat split; try assumption; lia. }
  destruct (String.eqb format "none") eqn:En.
  { apply String_eqb_true in En. now left. }
  destruct (String.eqb format "") eqn:Ee.
  { apply String_eqb_true in Ee. now right. }
  cbn [orb]. repeat split; now apply String_eqb_false.
Qed.

(** X25.  Every task that [processBackup] works on is reported at most
    once: either nothing is reported (the file is unchanged since its
    last attempt) or exactly one result is added, for the task's path and
    operation, with start and end time set, which is a success exactly
    when it carries no error and has no remote id when it failed.  The
    report's count of files stays the sum of its successes and failures,
    and the queue and the client are left alone. *)
Theorem processBackup_report
    (sha256_hex : list Z -> string)
    (gzip_write zlib_write : Z -> list Z -> list Z)
    (url_ok : string -> bool)
    (parse_upload : list Z -> option Api.UploadData)
    (Base : string -> string) (tr : Api.transport)
    (s : Backup.Service) (fs : OS.FS) (net : Api.Net) (now : Z)
    (task : Backup.BackupTask) :
  let s' := fst (Backup.processBackup sha256_hex gzip_write zlib_write url_ok
                   parse_upload Base tr s fs net now task) in
  (Backup.reporter s' = Backup.reporter s \/
   exists result,
     Backup.reporter s' = Backup.AddResult (Backup.reporter s) result /\
     Backup.result_FilePath result = Backup.task_FilePath task /\
     Backup.result_Operation result = Backup.task_Operation task /\
     Backup.result_StartTime result = now /\
     Backup.result_EndTime result = now /\
     (Backup.result_Success result = true <-> Backup.result_Error result = None) /\
     (Backup.result_Success result = false -> Backup.result_FileID result = "")) /\
  (Backup.TotalFiles (Backup.reporter s)
   = Backup.Successful (Backup.reporter s) + Backup.Failed (Backup.reporter s) ->
   Backup.TotalFiles (Backup.reporter s')
   = Backup.Successful (Backup.reporter s') + Backup.Failed (Backup.reporter s')) /\
  Backup.backupQueue s' = Backup.backupQueue s /\
  Backup.client s' = Backup.client s.
Proof.
  cbn zeta.
  assert (Hadd : forall s1 result,
    Backup.reporter s1 = Backup.reporter s ->
    Backup.backupQueue s1 = Backup.backupQueue s ->
    Backup.client s1 = Backup.client s ->
    Backup.result_FilePath result = Backup.task_FilePath task ->
    Backup.result_Operation result = Backup.task_Operation task ->
    Backup.result_StartTime result = now ->
    Backup.result_EndTime result = now ->
    (Backup.result_Success result = true <-> Backup.result_Error result = None) ->
    (Backup.result_Success result = false -> Backup.result_FileID result = "") ->
    forall s2, Backup.reporter s2 = Backup.reporter (Backup.record s1 result) ->
               Backup.backupQueue s2 = Backup.backupQueue s1 ->
               Backup.client s2 = Backup.client s1 ->
    (Backup.reporter s2 = Backup.reporter s \/
     exists result,
       Backup.reporter s2 = Backup.AddResult (Backup.reporter s) result /\
       Backup.result_FilePath result = Backup.task_FilePath task /\
       Backup.result_Operation result = Backup.task_Operation task /\
       Backup.result_StartTime result = now /\
       Backup.result_EndTime result = now /\
       (Backup.result_Success result = true <-> Backup.result_Error result = None) /\
       (Backup.result_Success result = false -> Backup.result_FileID result = "")) /\
    (Backup.TotalFiles (Backup.reporter s)
     = Backup.Successful (Backup.reporter s) + Backup.Failed (Backup.reporter s) ->
     Backup.TotalFiles (Backup.reporter s2)
     = Backup.Successful (Backup.reporter s2) + Backup.Failed (Backup.reporter s2)) /\
    Backup.backupQueue s2 = Backup.backupQueue s /\
    Backup.client s2 = Backup.client s).
  { intros s1 result Hr Hq Hc H1 H2 H3 H4 H5 H6 s2 Hr2 Hq2 Hc2.
    assert (Hrep : Backup.reporter s2 = Backup.AddResult (Backup.reporter s) result).
    { rewrite Hr2. cbn. now rewrite Hr. }
    split; [right; exists result; repeat split; try assumption; apply H5|].
    split; [|split; congruence].
    rewrite Hrep. cbn. destruct (Backup.result_Success result); lia. }
  unfold Backup.processBackup.
  destruct (String.eqb (Backup.task_Operation task) "delete").
  { cbn [fst]. eapply Hadd; try reflexivity; cbn; try tauto; discriminate. }
  destruct (Backup.calculateChecksum sha256_hex fs (Backup.task_FilePath task))
    as [checksum|].
  2:{ cbn [fst]. eapply (Hadd s); try reflexivity; cbn; try tauto.
      split; discriminate. }
  destruct (match Backup.backupState s !! Backup.task_FilePath task with
            | Some state => String.eqb (Backup.LastChecksum state) checksum
            | None => false
            end).
  { cbn [fst]. repeat split; auto. }
  destruct (OS.ReadFile fs (Backup.task_FilePath task)) as [content|].
  2:{ cbn [fst]. eapply (Hadd s); try reflexivity; cbn; try tauto.
      split; discriminate. }
  destruct (Backup.prepare gzip_write zlib_write s task content)
    as [[[uploadData uploadSize] compressedSize]|e].
  2:{ cbn [fst]. eapply (Hadd s); try reflexivity; cbn; try tauto.
      split; discriminate. }
  destruct (Api.UploadFile _ _ _ _ _ _ _ _ _ _) as [[uploadResp|e] net'];
    cbn [fst].
  - set (s1 := Backup.updateBackupState s now _ "success" _).
    match goal with
    | |- context [Backup.record s1 ?res] => set (result := res)
    end.
    set (s2 := Backup.record s1 result).
    match goal with
    | |- context [Backup.reporter ?x = Backup.reporter s \/ _] => set (s3 := x)
    end.
    assert (H3 : s3 = s2 \/ exists d, s3 = Backup.with_db s2 d).
    { unfold s3. destruct (Backup.db s2) as [d|]; [|now left].
      destruct (Backup.InsertBackupRecord d _); [right; eauto|now left]. }
    eapply (Hadd s1 result); try reflexivity; cbn; try tauto; try discriminate;
      destruct H3 as [->|[d ->]]; reflexivity.
  - eapply Hadd; try reflexivity; cbn; try tauto. split; discriminate.
Qed.

(** X26.  The record table holds one record per path and checksum.  When
    the table already has a record for the task's path with the checksum
    of the file's present content (the file has returned to a content
    that was backed up before), [processBackup] leaves the table as it
    is, whatever else it does: when the file is uploaded again, the
    insert is refused by [UNIQUE(file_path, checksum)], the refusal is
    only logged, and no record is made of the new upload. *)
Theorem processBackup_recorded_content
    (sha256_hex : list Z -> string)
    (gzip_write zlib_write : Z -> list Z -> list Z)
    (url_ok : string -> bool)
    (parse_upload : list Z -> option Api.UploadData)
    (Base : string -> string) (tr : Api.transport)
    (s : Backup.Service) (fs : OS.FS) (net : Api.Net) (now : Z)
    (task : Backup.BackupTask) (content : list Z) (d : Backup.DB) :
  Backup.db s = Some d ->
  OS.ReadFile fs (Backup.task_FilePath task) = Some content ->
  existsb (fun r => String.eqb (Backup.record_FilePath r) (Backup.task_FilePath task)
                    && String.eqb (Backup.record_Checksum r) (sha256_hex content))
          (Backup.backup_records d) = true ->
  exists d',
    Backup.db (fst (Backup.processBackup sha256_hex gzip_write zlib_write url_ok
                      parse_upload Base tr s fs net now task)) = Some d' /\
    Backup.backup_records d' = Backup.backup_records d.
Proof.
  intros Hdb Hread Hex.
  assert (Hupd : forall status checksum,
    Backup.db (Backup.updateBackupState s now (Backup.task_FilePath task)
                 status checksum)
    = Some (Backup.UpdateFileState d (Backup.task_FilePath task)
              match Backup.backupState
                      (Backup.updateBackupState s now (Backup.task_FilePath task)
                         status checksum) !! Backup.task_FilePath task with
              | Some st => st
              | None => {| Backup.LastBackup := 0; Backup.LastChecksum := "";
                           Backup.BackupCount := 0; Backup.Status := "" |}
              end)).
  { intros status checksum. unfold Backup.updateBackupState.
    cbn [Backup.db Backup.with_state Backup.backupState].
    rewrite Hdb, lookup_insert_eq. reflexivity. }
  unfold Backup.processBackup, Backup.calculateChecksum. rewrite Hread.
  destruct (String.eqb (Backup.task_Operation task) "delete").
  { cbn [fst Backup.record Backup.with_reporter Backup.db].
    eexists. split; [apply Hupd|reflexivity]. }
  destruct (match Backup.backupState s !! Backup.task_FilePath task with
            | Some state => String.eqb (Backup.LastChecksum state) (sha256_hex content)
            | None => false
            end).
  { cbn [fst]. exists d. split; [exact Hdb|reflexivity]. }
  destruct (Backup.prepare gzip_write zlib_write s task content)
    as [[[uploadData uploadSize] compressedSize]|e].
  2:{ cbn [fst Backup.record Backup.with_reporter Backup.db].
      exists d. split; [exact Hdb|reflexivity]. }
  destruct (Api.UploadFile _ _ _ _ _ _ _ _ _ _) as [[uploadResp|e] net'];
    cbn [fst].
  - cbn [Backup.record Backup.with_reporter Backup.db]. rewrite Hupd.
    unfold Backup.InsertBackupRecord.
    cbn [Backup.UpdateFileState Backup.backup_records Backup.record_FilePath
         Backup.record_Checksum].
    rewrite Hex. cbn [Backup.db Backup.with_reporter].
    eexists. split; [apply Hupd|reflexivity].
  - cbn [Backup.record Backup.with_reporter Backup.db].
    eexists. split; [apply Hupd|reflexivity].
Qed.

Lemma processBackup_recorded_content_witness :
  let after := Backup.processBackup ReferenceOS.sha256_hex ReferenceCodec.gzip_write
                 ReferenceCodec.zlib_write ReferenceOS.url_ok ReferenceOS.parse_upload
                 ReferenceOS.Base Scenario.tr_ok Scenario.after_x_y Scenario.disk
                 Api.idle 500 Scenario.task in
  (exists d', Backup.db (fst after) = Some d' /\
              length (Backup.backup_records d') = 2%nat) /\
  length (Backup.results (Backup.reporter (fst after))) = 3%nat /\
  length (Api.sent (snd after)) = 1%nat.
Proof.
  intros after. split; [|split; reflexivity].
  destruct (processBackup_recorded_content ReferenceOS.sha256_hex
              ReferenceCodec.gzip_write ReferenceCodec.zlib_write
              ReferenceOS.url_ok ReferenceOS.parse_upload ReferenceOS.Base
              Scenario.tr_ok Scenario.after_x_y Scenario.disk Api.idle 500
              Scenario.task [120] Scenario.db_x_y)
    as (d' & Hd & Hrec).
  - reflexivity.
  - reflexivity.
  - reflexivity.
  - exists d'. split; [exact Hd|]. rewrite Hrec. reflexivity.
Defined.
